(** * FermPi fermentation controller: a shallow embedding of [fermpi.py]

    The controller is a supervisor loop ([main]) that polls a configuration
    table and owns at most one background thread (idle, constant or gradual
    mode).  A mode thread reads the temperature sensors once per cycle and
    switches a low-active heater relay through a GPIO pin.

    Conventions of the embedding:
    - temperatures are Python floats, i.e. IEEE 754 binary64: [float] with
      its primitive operations;
    - integers (timestamps, durations, ids, GPIO ports) are unbounded: [Z];
    - the script is Python 2 ([MySQLdb]): [/] on integers is floor
      division and [None] compares below every number (under Python 3 the
      test [m >= self._duration] has the same outcome);
    - reading a sensor succeeds; connecting to the database may fail with
      [mdb.Error]; a value of table [config] may fail to convert under
      [int] or [float];
    - the hardware and the database are the [World]: the GPIO commands and
      the SQL statements issued so far, most recent first;
    - what the environment returns (sensor readings, the clock, database
      rows, a failing connection) is an explicit input of each step;
    - a Python exception is a [Raise] result that keeps the machine as the
      statements before it left it. *)

From Stdlib Require Import ZArith List Floats String Bool Lia.
From stdpp Require Import base gmap strings list.

Open Scope string_scope.
Open Scope Z_scope.

(* Decimal literals such as 0.10 denote the nearest binary64 value, as in
   Python. *)
Set Warnings "-inexact-float".

(** ** Module-level constants (fermpi.py, lines 53-72) *)

Definition HEATER_GPIO : Z := 21.

Definition FPI_STATE_OFF : Z := 0.
Definition FPI_STATE_ON : Z := 1.

Definition FPI_MODE_IDLE : Z := 0.
Definition FPI_MODE_CONSTANT : Z := 1.
Definition FPI_MODE_GRADUAL : Z := 2.

(** The integer-valued names bound at module level.  Every other name of
    the module's global namespace is an import ([pdb], [sys], [signal],
    [logging], [threading], [mdb], [GPIO], [datetime], [mktime], [sleep],
    [OptionParser], [W1ThermSensor]), a string ([__version__], [DB_HOST],
    [DB_USER], [DB_PWD], [DB_NAME]), the variable [thread], a class
    ([FermentationThread], [IdleMode], [ConstantMode], [GradualMode]) or a
    function ([heater_off], [on_exit], [read_configuration], [main]).
    [HEATER_ON] and [HEATER_OFF] are attributes of the class
    [FermentationThread]; they are not module globals. *)
Definition module_globals : list (string * Z) :=
  [ ("HEATER_GPIO", HEATER_GPIO);
    ("FPI_STATE_OFF", FPI_STATE_OFF);
    ("FPI_STATE_ON", FPI_STATE_ON);
    ("FPI_MODE_IDLE", FPI_MODE_IDLE);
    ("FPI_MODE_CONSTANT", FPI_MODE_CONSTANT);
    ("FPI_MODE_GRADUAL", FPI_MODE_GRADUAL) ].

(** Resolution of a bare name inside a function body. *)
Fixpoint lookup_name (n : string) (env : list (string * Z)) : option Z :=
  match env with
  | [] => None
  | (k, v) :: rest => if String.eqb n k then Some v else lookup_name n rest
  end.

Definition load_global (n : string) : option Z := lookup_name n module_globals.

(** ** Exceptions *)

Inductive exn : Type :=
  | NameError (name : string)
  | UnboundLocalError (name : string)
  | AttributeError (attr : string)
  | IndexError
  | KeyError (key : string)
  | TypeError
  | ValueError
  | IOError
  | MdbError
  | SystemExit (code : Z).

(** ** The world: GPIO lines and the database *)

Inductive level : Type := LOW | HIGH.

Inductive gpio_op : Type :=
  | GPIO_setup (port : Z)
  | GPIO_output (port : Z) (l : level)
  | GPIO_cleanup.

(** The text ["%1.2f" % x]: a sign and the magnitude in hundredths, or
    [inf], or [nan]. *)
Inductive printed : Type :=
  | Fixed (negative : bool) (hundredths : Z)
  | Inf (negative : bool)
  | Nan.

(** ["%1.2f" % x]: the exact value of [x] rounded to two decimals, ties to
    even; a negative value that rounds to zero keeps its sign. *)
Definition percent_1_2f (x : float) : printed :=
  match Prim2SF x with
  | S754_zero s => Fixed s 0
  | S754_infinity s => Inf s
  | S754_nan => Nan
  | S754_finite s m e =>
      let n := Z.pos m * 100 in
      Fixed s (if 0 <=? e then n * 2 ^ e
               else
                 let d := 2 ^ (- e) in
                 let q := n / d in
                 let r := n mod d in
                 if 2 * r <? d then q
                 else if d <? 2 * r then q + 1
                 else if Z.even q then q else q + 1)
  end.

(** SQL statements that change the database.  The temperature of a log
    row is the text the statement carries. *)
Inductive stmt : Type :=
  | INSERT_logs (fermentation sensor : Z) (temperature : printed) (timestamp : Z)
  | DELETE_logs_fermentation_0
  | UPDATE_config_mode_0
  | UPDATE_config_log_0.

Record World : Type := mkWorld {
  gpio : list gpio_op;
  sql : list stmt
}.

(** Level last written to [port]; [None] before the first write and after
    [GPIO.cleanup()]. *)
Fixpoint pin_level (port : Z) (ops : list gpio_op) : option level :=
  match ops with
  | [] => None
  | GPIO_output p l :: rest => if p =? port then Some l else pin_level port rest
  | GPIO_setup _ :: rest => pin_level port rest
  | GPIO_cleanup :: _ => None
  end.

Definition pin (port : Z) (w : World) : option level := pin_level port (gpio w).

(** The relay is low-active: the heater draws power while its line is LOW. *)
Definition heater_powered (w : World) : bool :=
  match pin HEATER_GPIO w with
  | Some LOW => true
  | _ => false
  end.

Definition gpio_do (op : gpio_op) (w : World) : World :=
  mkWorld (op :: gpio w) (sql w).

Definition sql_do (s : stmt) (w : World) : World :=
  mkWorld (gpio w) (s :: sql w).

(** ** Thread objects *)

Module FermentationThread.

Definition IDLE : Z := 0.
Definition HEATING : Z := 1.
Definition WAITING_FOR_PEAK : Z := 2.
Definition WAITING_FOR_TROUGH : Z := 3.

Definition HEATER_ON : Z := 1.
Definition HEATER_OFF : Z := 0.

(** One entry of [self._sensors]: [[sensor.id, sid, 0.0, 0.0]];
    index 2 is the current reading, index 3 the previous one. *)
Record Sensor : Type := mkSensor {
  s_id : string;
  s_sid : Z;
  s_cur : float;
  s_prev : float
}.

Record t : Type := mkThread {
  event : bool;
  _gpio : Z;
  _heater : Z;
  _id : Z;
  _name : string;
  _target : float;
  _duration : Z;
  _cycle : Z;
  _overshoot : float;
  _sensors : list Sensor;
  _state : Z;
  _timestamp : Z
}.

Definition set_event (b : bool) (s : t) : t :=
  mkThread b (_gpio s) (_heater s) (_id s) (_name s) (_target s)
    (_duration s) (_cycle s) (_overshoot s) (_sensors s) (_state s)
    (_timestamp s).
Definition set_heater (h : Z) (s : t) : t :=
  mkThread (event s) (_gpio s) h (_id s) (_name s) (_target s)
    (_duration s) (_cycle s) (_overshoot s) (_sensors s) (_state s)
    (_timestamp s).
Definition set_id (i : Z) (s : t) : t :=
  mkThread (event s) (_gpio s) (_heater s) i (_name s) (_target s)
    (_duration s) (_cycle s) (_overshoot s) (_sensors s) (_state s)
    (_timestamp s).
Definition set_name (n : string) (s : t) : t :=
  mkThread (event s) (_gpio s) (_heater s) (_id s) n (_target s)
    (_duration s) (_cycle s) (_overshoot s) (_sensors s) (_state s)
    (_timestamp s).
Definition set_target (x : float) (s : t) : t :=
  mkThread (event s) (_gpio s) (_heater s) (_id s) (_name s) x
    (_duration s) (_cycle s) (_overshoot s) (_sensors s) (_state s)
    (_timestamp s).
Definition set_duration (d : Z) (s : t) : t :=
  mkThread (event s) (_gpio s) (_heater s) (_id s) (_name s) (_target s)
    d (_cycle s) (_overshoot s) (_sensors s) (_state s) (_timestamp s).
Definition set_cycle (c : Z) (s : t) : t :=
  mkThread (event s) (_gpio s) (_heater s) (_id s) (_name s) (_target s)
    (_duration s) c (_overshoot s) (_sensors s) (_state s) (_timestamp s).
Definition set_overshoot (x : float) (s : t) : t :=
  mkThread (event s) (_gpio s) (_heater s) (_id s) (_name s) (_target s)
    (_duration s) (_cycle s) x (_sensors s) (_state s) (_timestamp s).
Definition set_sensors (l : list Sensor) (s : t) : t :=
  mkThread (event s) (_gpio s) (_heater s) (_id s) (_name s) (_target s)
    (_duration s) (_cycle s) (_overshoot s) l (_state s) (_timestamp s).
Definition set_state (x : Z) (s : t) : t :=
  mkThread (event s) (_gpio s) (_heater s) (_id s) (_name s) (_target s)
    (_duration s) (_cycle s) (_overshoot s) (_sensors s) x (_timestamp s).
Definition set_timestamp (x : Z) (s : t) : t :=
  mkThread (event s) (_gpio s) (_heater s) (_id s) (_name s) (_target s)
    (_duration s) (_cycle s) (_overshoot s) (_sensors s) (_state s) x.

End FermentationThread.

Import FermentationThread.
Abbreviation Thread := FermentationThread.t.

(** ** Statements as a state-and-exception monad *)

(** What a method runs on: the thread object and the world. *)
Record Machine : Type := mkMachine {
  self : Thread;
  world : World
}.

Inductive res (A : Type) : Type :=
  | Ok (a : A) (m : Machine)
  | Raise (e : exn) (m : Machine).
Arguments Ok {A} a m.
Arguments Raise {A} e m.

Definition M (A : Type) : Type := Machine → res A.

#[export] Instance M_ret : MRet M := λ A a m, Ok a m.
#[export] Instance M_bind : MBind M :=
  λ A B f c m,
    match c m with
    | Ok a m' => f a m'
    | Raise e m' => Raise e m'
    end.

Definition raise {A : Type} (e : exn) : M A := λ m, Raise e m.
Definition get_self : M Thread := λ m, Ok (self m) m.
Definition update_self (f : Thread → Thread) : M unit :=
  λ m, Ok tt (mkMachine (f (self m)) (world m)).
Definition update_world (f : World → World) : M unit :=
  λ m, Ok tt (mkMachine (self m) (f (world m))).

Definition machine_of {A : Type} (r : res A) : Machine :=
  match r with
  | Ok _ m => m
  | Raise _ m => m
  end.

(** [GPIO.output(port, l)] *)
Definition GPIO_output_call (port : Z) (l : level) : M unit :=
  update_world (gpio_do (GPIO_output port l)).

(** [self.event.wait(seconds)]: returns after [seconds] or as soon as the
    event is set; it changes neither the object nor the world. *)
Definition event_wait (seconds : Z) : M unit := mret tt.

(** A row of table [fermentations] as the code reads it: [row[0]] is the
    id, [row[1]] the name, and for level k = 0..4 the target temperature is
    [row[2+2k]] and the duration in minutes [row[3+2k]]; a NULL column is
    [None]. *)
Record Fermentation : Type := mkFermentation {
  f_id : Z;
  f_name : string;
  f_levels : list (option float * option Z)
}.

(** [row[i]] and [row[i+1]] for an even [i >= 2]; [None] when the tuple is
    too short (Python raises IndexError). *)
Definition level_columns (row : Fermentation) (i : Z)
  : option (option float * option Z) :=
  f_levels row !! Z.to_nat ((i - 2) / 2).

(** [row[1]] of a row of table [config], as the conversion applied to it
    finds it: a value, a text that is no number ([int('2.5')], ValueError)
    or NULL ([int(None)], TypeError). *)
Inductive cell (A : Type) : Type :=
  | Value (a : A)
  | Malformed
  | Null.
Arguments Value {A} a.
Arguments Malformed {A}.
Arguments Null {A}.

(** [int(row[1])], [float(row[1])] *)
Definition convert {A : Type} (c : cell A) : exn + A :=
  match c with
  | Value a => inr a
  | Malformed => inl ValueError
  | Null => inl TypeError
  end.

(** What the environment hands to one iteration of a run loop. *)
Record cycle_in : Type := mkCycleIn {
  (** [W1ThermSensor(..., id).get_temperature()] *)
  get_temperature : string → float;
  (** [int(round(mktime(datetime.utcnow().timetuple())))] *)
  now : Z;
  (** whether [mdb.connect] succeeds during this iteration *)
  db_up : bool;
  (** [SELECT * FROM fermentations WHERE id = self._id], [fetchone()] *)
  fetch_fermentation : option Fermentation
}.

(** ** Methods of [FermentationThread] (lines 150-205) *)

(** [for i in range(0, len(self._sensors), 4)]: every fourth entry, from
    index 0, gets a fresh reading; its old reading becomes the previous
    one. *)
Definition _read_temperatures (i : cycle_in) : M unit :=
  update_self (λ s,
    set_sensors
      (imap (λ k x,
               if (k mod 4 =? 0)%nat
               then mkSensor (s_id x) (s_sid x) (get_temperature i (s_id x)) (s_cur x)
               else x)
            (_sensors s))
      s).

(** The INSERT statements of one call, in the order they are issued. *)
Definition log_rows (id ts : Z) (l : list Sensor) : list stmt :=
  omap (λ x, x)
    (imap (λ k x,
             if (k mod 4 =? 0)%nat
             then Some (INSERT_logs id (s_sid x) (percent_1_2f (s_cur x)) ts)
             else None)
          l).

(** [_log_temperatures] as the three mode classes override it (lines
    217-229, 302-309, 446-453; the three bodies are the same).  The base
    class's version is never called. *)
Definition _log_temperatures (ts : Z) (i : cycle_in) : M unit :=
  if db_up i then
    s ← get_self;
    update_world (λ w, mkWorld (gpio w) (rev (log_rows (_id s) ts (_sensors s)) ++ sql w))
  else raise MdbError.

Definition _heater_on : M unit :=
  s ← get_self;
  GPIO_output_call (_gpio s) LOW;;
  update_self (set_heater HEATER_ON).

(** Line 205 reads the bare name [HEATER_OFF], which Python resolves in the
    module's globals, not in the class. *)
Definition _heater_off : M unit :=
  s ← get_self;
  GPIO_output_call (_gpio s) HIGH;;
  match load_global "HEATER_OFF" with
  | Some v => update_self (set_heater v)
  | None => raise (NameError "HEATER_OFF")
  end.

(** [self._sensors[0]] *)
Definition sensor0 : M Sensor :=
  λ m, match _sensors (self m) with
       | x :: _ => Ok x m
       | [] => Raise IndexError m
       end.

(** [sefl._state = self.IDLE] (lines 370 and 546): the target object is
    the bare name [sefl]. *)
Definition sefl_state_assign : M unit :=
  match load_global "sefl" with
  | Some _ => raise (AttributeError "_state")
  | None => raise (NameError "sefl")
  end.

(** Result of one pass through a loop body. *)
Inductive flow : Type := Next | Break.

(** The climb phase, lines 339-356 and 514-531 (the same text in both
    classes).  [self._state == self.WAITING_FOR_PEAK] and
    [self._state == self.IDLE] are comparisons whose value is dropped. *)
Definition heat_up (ts : Z) : M unit :=
  s0 ← sensor0;
  s ← get_self;
  (if (s_cur s0 <? _target s - _overshoot s)%float then
     if _heater s =? HEATER_OFF then
       _heater_on;; update_self (set_state HEATING)
     else mret tt
   else if (s_cur s0 <? s_prev s0)%float then
     if _heater s =? HEATER_OFF then
       _heater_on;; event_wait 20;; update_self (set_state HEATING)
     else mret tt
   else if _heater s =? HEATER_ON then
     _heater_off
   else mret tt);;
  s' ← get_self;
  if (_target s' <=? s_cur s0)%float then update_self (set_timestamp ts)
  else mret tt.

(** "keep on going", lines 376-383 and 552-559. *)
Definition keep_on_going : M unit :=
  s0 ← sensor0;
  s ← get_self;
  if (s_cur s0 <=? _target s - 0.10)%float then
    if (s_cur s0 <? s_prev s0)%float then
      _heater_on;; event_wait 10;; _heater_off;;
      update_self (set_state WAITING_FOR_PEAK)
    else mret tt
  else mret tt.

(** [UPDATE config SET value = '0'] for items mode and log (lines 398-403
    and 574-579). *)
Definition reset_configuration (i : cycle_in) : M unit :=
  if db_up i then
    update_world (sql_do UPDATE_config_mode_0);;
    update_world (sql_do UPDATE_config_log_0)
  else raise MdbError.

(** How a thread stands after a step of its [run]. *)
Inductive status : Type := Running | Finished.

Module ConstantMode.

(** Lines 357-383: the maintain phase. *)
Definition maintain (ts : Z) : M flow :=
  s ← get_self;
  expired ←
    (if 0 <? _duration s then
       let m := (ts - _timestamp s) / 60 in
       if _duration s <=? m then
         (if _heater s =? HEATER_ON then _heater_off;; sefl_state_assign
          else mret tt);;
         mret true
       else mret false
     else mret false);
  if expired : bool then mret Break
  else keep_on_going;; mret Next.

(** The body of the [while] loop, lines 327-396. *)
Definition cycle (i : cycle_in) : M flow :=
  _read_temperatures i;;
  let ts := now i in
  _log_temperatures ts i;;
  s ← get_self;
  fl ← (if _timestamp s =? 0 then heat_up ts;; mret Next else maintain ts);
  match fl with
  | Break => mret Break
  | Next => s' ← get_self; event_wait (_cycle s');; mret Next
  end.

(** One step of [run]: the loop test, then the body, or the epilogue
    once the loop is left. *)
Definition run_step (i : cycle_in) : M status :=
  s ← get_self;
  if event s then reset_configuration i;; mret Finished
  else
    fl ← cycle i;
    match fl with
    | Next => mret Running
    | Break => reset_configuration i;; mret Finished
    end.

End ConstantMode.

Module GradualMode.

(** The [while i < 11] loop of [_get_next_level] (lines 468-481), from
    index [i]; [n] bounds the iterations left (five from [i = 2], which
    the loop never exceeds).  A NULL target is [None], which Python 2
    orders below the working target. *)
Fixpoint scan_levels (n : nat) (i : Z) (row : Fermentation) : M bool :=
  match n with
  | O => mret false
  | S n' =>
      if i <? 11 then
        match level_columns row i with
        | None => raise IndexError
        | Some (tgt, dur) =>
            s ← get_self;
            match tgt with
            | Some x =>
                if (_target s <=? x)%float then
                  update_self (set_target x);;
                  match dur with
                  | Some d => update_self (set_duration d)
                  | None => mret tt
                  end;;
                  mret true
                else scan_levels n' (i + 2) row
            | None => scan_levels n' (i + 2) row
            end
        end
      else mret false
  end.

(** Lines 455-486. *)
Definition _get_next_level (i : cycle_in) : M bool :=
  update_self (set_target 0);;
  update_self (set_duration 0);;
  update_self (set_timestamp 0);;
  if db_up i then
    match fetch_fermentation i with
    | Some row => scan_levels 5 2 row
    | None => mret false
    end
  else raise MdbError.

(** Lines 532-559: the maintain phase. *)
Definition maintain (ts : Z) (i : cycle_in) : M flow :=
  s ← get_self;
  expired ←
    (if 0 <? _duration s then
       let m := (ts - _timestamp s) / 60 in
       if _duration s <=? m then
         more ← _get_next_level i;
         if more : bool then mret false
         else
           s' ← get_self;
           (if _heater s' =? HEATER_ON then _heater_off;; sefl_state_assign
            else mret tt);;
           mret true
       else mret false
     else mret false);
  if expired : bool then mret Break
  else keep_on_going;; mret Next.

(** The body of the [while] loop, lines 502-572. *)
Definition cycle (i : cycle_in) : M flow :=
  _read_temperatures i;;
  let ts := now i in
  _log_temperatures ts i;;
  s ← get_self;
  fl ← (if _timestamp s =? 0 then heat_up ts;; mret Next else maintain ts i);
  match fl with
  | Break => mret Break
  | Next => s' ← get_self; event_wait (_cycle s');; mret Next
  end.

Definition run_step (i : cycle_in) : M status :=
  s ← get_self;
  if event s then reset_configuration i;; mret Finished
  else
    fl ← cycle i;
    match fl with
    | Next => mret Running
    | Break => reset_configuration i;; mret Finished
    end.

End GradualMode.

Module IdleMode.

(** The body of the [while] loop, lines 244-256. *)
Definition cycle (i : cycle_in) : M flow :=
  _read_temperatures i;;
  let ts := now i in
  _log_temperatures ts i;;
  s ← get_self;
  event_wait (_cycle s);;
  mret Next.

(** Lines 258-261. *)
Definition delete_idle_logs (i : cycle_in) : M unit :=
  if db_up i then update_world (sql_do DELETE_logs_fermentation_0)
  else raise MdbError.

Definition run_step (i : cycle_in) : M status :=
  s ← get_self;
  if event s then delete_idle_logs i;; mret Finished
  else
    fl ← cycle i;
    match fl with
    | Next => mret Running
    | Break => delete_idle_logs i;; mret Finished
    end.

End IdleMode.

(** ** Constructors (lines 98-148, 273-300, 417-444) *)

(** What the environment hands to a constructor. *)
Record init_in : Type := mkInitIn {
  (** whether [mdb.connect] succeeds *)
  init_db_up : bool;
  (** [W1ThermSensor.get_available_sensors()], each id with the first
      column of its row in table [sensors], if it has a row *)
  available_sensors : list (string * option Z);
  (** [SELECT * FROM fermentations WHERE id = ...] *)
  init_fermentation : option Fermentation;
  (** the row of config item overshoot, and of item cycle, if there is one *)
  config_overshoot : option (cell float);
  config_cycle : option (cell Z)
}.

(** The [for sensor in ...] loop of lines 136-147.  [sensor.id not in
    self._sensors] compares a string with lists and always holds;
    [cur.fetchone()[0]] subscripts [None] when the sensor has no row. *)
Fixpoint init_sensors (avail : list (string * option Z)) (acc : list Sensor)
  : exn + list Sensor :=
  match avail with
  | [] => inr acc
  | (name, Some sid) :: rest => init_sensors rest (acc ++ [mkSensor name sid 0 0])
  | (_, None) :: _ => inl TypeError
  end.

Definition FermentationThread_init (id gpio : Z) (e : init_in) : exn + Thread :=
  if init_db_up e then
    match init_sensors (available_sensors e) [] with
    | inr sensors =>
        inr (mkThread false gpio HEATER_OFF id "" 0 0 10 0 sensors 0 0)
    | inl x => inl x
    end
  else inl MdbError.

(** The part [ConstantMode.__init__] and [GradualMode.__init__] add (the
    same text in both). *)
Definition load_settings (e : init_in) (s : Thread) : exn + Thread :=
  let with_row :=
    match init_fermentation e with
    | Some row =>
        match f_levels row !! 0%nat with
        | Some (tgt, dur) =>
            let s1 := set_name (f_name row) (set_id (f_id row) s) in
            let s2 := match tgt with Some x => set_target x s1 | None => s1 end in
            inr (match dur with Some d => set_duration d s2 | None => s2 end)
        | None => inl IndexError
        end
    | None => inr s
    end in
  let with_overshoot :=
    match with_row with
    | inr s3 =>
        match config_overshoot e with
        | Some c =>
            match convert c with
            | inr o => inr (set_overshoot o s3)
            | inl x => inl x
            end
        | None => inr s3
        end
    | inl x => inl x
    end in
  match with_overshoot with
  | inr s4 =>
      match config_cycle e with
      | Some c =>
          match convert c with
          | inr n => inr (set_cycle n s4)
          | inl x => inl x
          end
      | None => inr s4
      end
  | inl x => inl x
  end.

Definition IdleMode_init (id gpio : Z) (e : init_in) : exn + Thread :=
  FermentationThread_init id gpio e.

Definition ConstantMode_init (id gpio : Z) (e : init_in) : exn + Thread :=
  match FermentationThread_init id gpio e with
  | inr s => load_settings e s
  | inl x => inl x
  end.

Definition GradualMode_init (id gpio : Z) (e : init_in) : exn + Thread :=
  match FermentationThread_init id gpio e with
  | inr s => load_settings e s
  | inl x => inl x
  end.

(** ** The process: [main], [on_exit] and the threads (lines 584-708) *)

Inductive mode : Type := Idle | Constant | Gradual.

(** A started thread is alive until its [run] returns or raises. *)
Inductive life : Type := Alive | Returned | Died (e : exn).

Record ThreadObj : Type := mkThreadObj {
  kind : mode;
  obj : Thread;
  lives : life
}.

Definition is_alive (o : ThreadObj) : bool :=
  match lives o with
  | Alive => true
  | _ => false
  end.

Definition run_step (k : mode) (i : cycle_in) : M status :=
  match k with
  | Idle => IdleMode.run_step i
  | Constant => ConstantMode.run_step i
  | Gradual => GradualMode.run_step i
  end.

(** Where the main thread stands. *)
Inductive main_pc : Type :=
  | Polling                (* at the top of [while True] *)
  | Joining                (* in [while thread.is_alive(): thread.join(1.0)] *)
  | InHandler              (* in [on_exit], joining *)
  | Stopped (e : exn).     (* left [main] by an exception *)

Record Process : Type := mkProcess {
  (** the global [thread]: an index into [threads], or [None] *)
  thread : option nat;
  (** every thread object started so far *)
  threads : list ThreadObj;
  hw : World;
  pc : main_pc
}.

(** [read_configuration] (lines 614-640) over the rows of
    [SELECT item, value FROM config]; the value of a row of item state,
    mode, cycle or log is read with [int], which may raise. *)
Fixpoint read_rows (rows : list (string * cell Z)) (config : gmap string Z)
  : exn + gmap string Z :=
  match rows with
  | [] => inr config
  | (item, value) :: rest =>
      if String.eqb item "state" then
        match convert value with
        | inr v =>
            let config := <["state" := v]> config in
            if v =? FPI_STATE_OFF then
              inr (<["log" := 0]>
                     (<["cycle" := 10]> (<["mode" := FPI_MODE_IDLE]> config)))
            else read_rows rest config
        | inl e => inl e
        end
      else if String.eqb item "mode" then
        match convert value with
        | inr v => read_rows rest (<["mode" := v]> config)
        | inl e => inl e
        end
      else if String.eqb item "cycle" then
        match convert value with
        | inr v => read_rows rest (<["cycle" := v]> config)
        | inl e => inl e
        end
      else if String.eqb item "log" then
        match convert value with
        | inr v => read_rows rest (<["log" := v]> config)
        | inl e => inl e
        end
      else read_rows rest config
  end.

(** What the environment hands to one pass of the main loop. *)
Record poll_in : Type := mkPollIn {
  poll_db_up : bool;
  config_rows : list (string * cell Z);
  (** for the constructor, should this pass start a thread *)
  ctor : init_in
}.

Definition read_configuration (p : poll_in) : exn + gmap string Z :=
  if poll_db_up p then read_rows (config_rows p) ∅ else inl MdbError.

(** [heater_off()], the module-level function (lines 584-586). *)
Definition heater_off (w : World) : World :=
  gpio_do (GPIO_output HEATER_GPIO HIGH) w.

(** Main thread, lines 663-669. *)
Definition boot : Process :=
  mkProcess None [] (heater_off (gpio_do (GPIO_setup HEATER_GPIO) (mkWorld [] [])))
            Polling.

Definition set_pc (x : main_pc) (p : Process) : Process :=
  mkProcess (thread p) (threads p) (hw p) x.

(** [thread.event.set()] on thread object [t]. *)
Definition event_set (t : nat) (p : Process) : Process :=
  match threads p !! t with
  | Some o =>
      mkProcess (thread p)
        (<[t := mkThreadObj (kind o) (set_event true (obj o)) (lives o)]> (threads p))
        (hw p) (pc p)
  | None => p
  end.

Definition thread_alive (t : nat) (p : Process) : bool :=
  match threads p !! t with
  | Some o => is_alive o
  | None => false
  end.

(** The handler of [except mdb.Error as e] (lines 702-706): [conn] is
    assigned in [main], hence local to it, and never bound before
    [if conn:]. *)
Definition except_mdb_Error (p : Process) : Process :=
  set_pc (Stopped (UnboundLocalError "conn")) p.

(** An exception leaving the [try] statement. *)
Definition leave_try (e : exn) (p : Process) : Process :=
  match e with
  | MdbError => except_mdb_Error p
  | _ => set_pc (Stopped e) p
  end.

(** [sleep(float(config['cycle']))], line 708, outside the [try]:
    [time.sleep] refuses a negative length (IOError, errno 22, under
    Python 2; ValueError under Python 3). *)
Definition sleep_cycle (config : gmap string Z) (p : Process) : Process :=
  match config !! "cycle" with
  | Some c => if c <? 0 then set_pc (Stopped IOError) p else p
  | None => set_pc (Stopped (KeyError "cycle")) p
  end.

(** The process with a thread of mode [k] just started on object [s]: the
    new thread object is the last of [threads], and the global [thread]
    refers to it. *)
Definition started (k : mode) (s : Thread) (p : Process) : Process :=
  mkProcess (Some (length (threads p))) (threads p ++ [mkThreadObj k s Alive])
            (hw p) (pc p).

(** [thread = XMode(...)] and [thread.start()], then line 708; the
    constructor may raise. *)
Definition start_thread (k : mode) (made : exn + Thread) (config : gmap string Z)
    (p : Process) : Process :=
  match made with
  | inr s => sleep_cycle config (started k s p)
  | inl e => leave_try e p
  end.

(** One pass of [while True] (lines 671-708), up to the join loop. *)
Definition poll (i : poll_in) (p : Process) : Process :=
  match read_configuration i with
  | inl e => leave_try e p
  | inr config =>
      match config !! "state" with
      | None => leave_try (KeyError "state") p
      | Some state =>
          if state =? FPI_STATE_OFF then
            match thread p with
            | None => sleep_cycle config p
            | Some t => set_pc Joining (event_set t p)
            end
          else if state =? FPI_STATE_ON then
            match thread p with
            | None =>
                match config !! "mode" with
                | None => leave_try (KeyError "mode") p
                | Some m =>
                    if m =? FPI_MODE_IDLE then
                      start_thread Idle (IdleMode_init 0 0 (ctor i)) config p
                    else if m =? FPI_MODE_CONSTANT then
                      match config !! "log" with
                      | None => leave_try (KeyError "log") p
                      | Some id =>
                          start_thread Constant
                            (ConstantMode_init id HEATER_GPIO (ctor i)) config p
                      end
                    else if m =? FPI_MODE_GRADUAL then
                      match config !! "log" with
                      | None => leave_try (KeyError "log") p
                      | Some id =>
                          start_thread Gradual
                            (GradualMode_init id HEATER_GPIO (ctor i)) config p
                      end
                    else sleep_cycle config p
                end
            | Some _ => sleep_cycle config p
            end
          else sleep_cycle config p
      end
  end.

(** The join loop of lines 683-685, then line 708; the configuration read
    in this pass had state OFF, so it holds a cycle. *)
Definition join_loop (p : Process) : Process :=
  match thread p with
  | Some t =>
      if thread_alive t p then p
      else mkProcess None (threads p) (hw p) Polling
  | None => mkProcess None (threads p) (hw p) Polling
  end.

(** The end of [on_exit] (lines 604-612): [thread = None], [heater_off()],
    [GPIO.cleanup()], [sys.exit(0)]. *)
Definition quit (p : Process) : Process :=
  mkProcess None (threads p) (gpio_do GPIO_cleanup (heater_off (hw p)))
            (Stopped (SystemExit 0)).

(** [on_exit] (lines 588-612) from its join loop on. *)
Definition on_exit_finish (p : Process) : Process :=
  match thread p with
  | Some t => if thread_alive t p then p else quit p
  | None => quit p
  end.

(** The main thread moves on. *)
Definition main_step (i : poll_in) (p : Process) : Process :=
  match pc p with
  | Polling => poll i p
  | Joining => join_loop p
  | InHandler => on_exit_finish p
  | Stopped _ => p
  end.

(** SIGINT or SIGTERM arrives: [on_exit] starts in the main thread. *)
Definition signal (p : Process) : Process :=
  match pc p with
  | Stopped _ => p
  | _ =>
      match thread p with
      | Some t => set_pc InHandler (event_set t p)
      | None => set_pc InHandler p
      end
  end.

(** Thread object [t] runs one step of its [run]. *)
Definition thread_step (t : nat) (i : cycle_in) (p : Process) : Process :=
  match threads p !! t with
  | Some o =>
      if is_alive o then
        match run_step (kind o) i (mkMachine (obj o) (hw p)) with
        | Ok Running m =>
            mkProcess (thread p)
              (<[t := mkThreadObj (kind o) (self m) Alive]> (threads p))
              (world m) (pc p)
        | Ok Finished m =>
            mkProcess (thread p)
              (<[t := mkThreadObj (kind o) (self m) Returned]> (threads p))
              (world m) (pc p)
        | Raise e m =>
            mkProcess (thread p)
              (<[t := mkThreadObj (kind o) (self m) (Died e)]> (threads p))
              (world m) (pc p)
        end
      else p
  | None => p
  end.

(** What can happen next in the process. *)
Inductive ev : Type :=
  | MainStep (i : poll_in)
  | ThreadStep (t : nat) (i : cycle_in)
  | Signal.

Definition step (e : ev) (p : Process) : Process :=
  match e with
  | MainStep i => main_step i p
  | ThreadStep t i => thread_step t i p
  | Signal => signal p
  end.

(** The process after the events [es], oldest first. *)
Definition exec (es : list ev) (p : Process) : Process :=
  fold_left (λ q e, step e q) es p.

(** Number of threads running. *)
Definition running (p : Process) : nat :=
  length (filter (λ o, is_alive o = true) (threads p)).

(** ** A thread on its own *)

(** The loop body of each mode. *)
Definition cycle (k : mode) (i : cycle_in) : M flow :=
  match k with
  | Idle => IdleMode.cycle i
  | Constant => ConstantMode.cycle i
  | Gradual => GradualMode.cycle i
  end.

(** [run] of a thread of mode [k] over the inputs of its successive
    iterations, while nobody else touches the thread or the world.  When
    the inputs are used up the thread is still [Running]. *)
Fixpoint run (k : mode) (ins : list cycle_in) (m : Machine) : res status :=
  match ins with
  | [] => Ok Running m
  | i :: rest =>
      match run_step k i m with
      | Ok Running m' => run k rest m'
      | r => r
      end
  end.

(** ** Vocabulary of the statements *)

(** The machine once [_read_temperatures] and [_log_temperatures] are
    through, the database reachable. *)
Definition read_and_logged (i : cycle_in) (m : Machine) : Machine :=
  let s := set_sensors
             (imap (λ k x,
                      if (k mod 4 =? 0)%nat
                      then mkSensor (s_id x) (s_sid x) (get_temperature i (s_id x)) (s_cur x)
                      else x)
                   (_sensors (self m)))
             (self m) in
  mkMachine s
    (mkWorld (gpio (world m))
             (rev (log_rows (_id s) (now i) (_sensors s)) ++ sql (world m))).

(** [c] keeps [P]: the thread object satisfies [P] after [c], however [c]
    ends, if it did before. *)
Definition keeps {A : Type} (P : Thread → Prop) (c : M A) : Prop :=
  ∀ m : Machine, P (self m) → P (self (machine_of (c m))).

(** [c] hands on [I]: the machine satisfies [I] after [c] has returned
    normally, if it did before. *)
Definition hands_on {A : Type} (I : Machine → Prop) (c : M A) : Prop :=
  ∀ (m : Machine) (a : A) (m' : Machine), I m → c m = Ok a m' → I m'.

(** [c] ends in [I] or [E]: from a machine that satisfies [I], [c]
    returns on a machine that satisfies [I], or raises [e] on a machine
    that satisfies [E e]. *)
Definition ends_in {A : Type} (I : Machine → Prop) (E : exn → Machine → Prop)
    (c : M A) : Prop :=
  ∀ m : Machine, I m →
    match c m with
    | Ok _ m' => I m'
    | Raise e m' => E e m'
    end.

(** The stored heater state is sound: when the thread object says the
    heater is on, its relay line is LOW. *)
Definition heater_state_sound (m : Machine) : Prop :=
  _heater (self m) = HEATER_ON → pin (_gpio (self m)) (world m) = Some LOW.

(** A thread object as the constructors leave it: event clear, stored
    heater state OFF, state IDLE, attained-timestamp 0. *)
Definition constructed (s : Thread) : Prop :=
  event s = false ∧ _heater s = HEATER_OFF ∧ _state s = IDLE ∧ _timestamp s = 0.

(** What a step of the main thread can do to the process. *)
Inductive main_effect (p : Process) : Process → Prop :=
  | eff_none : main_effect p p
  | eff_stop (e : exn) : main_effect p (set_pc (Stopped e) p)
  | eff_cancel (t : nat) :
      thread p = Some t →
      main_effect p (set_pc Joining (event_set t p))
  | eff_start (k : mode) (s : Thread) :
      constructed s → thread p = None → pc p = Polling →
      main_effect p (started k s p)
  | eff_start_stop (k : mode) (s : Thread) (e : exn) :
      constructed s → thread p = None →
      main_effect p (set_pc (Stopped e) (started k s p))
  | eff_joined :
      pc p = Joining →
      (∀ t, thread p = Some t → thread_alive t p = false) →
      main_effect p (mkProcess None (threads p) (hw p) Polling)
  | eff_quit :
      pc p = InHandler →
      (∀ t, thread p = Some t → thread_alive t p = false) →
      main_effect p (quit p).

(** Every running thread is the one the global [thread] refers to. *)
Definition referenced (p : Process) : Prop :=
  ∀ t : nat, thread_alive t p = true → thread p = Some t.

(** The global [thread] refers to a thread object that exists. *)
Definition reference_valid (p : Process) : Prop :=
  ∀ t : nat, thread p = Some t → (t < length (threads p))%nat.

(** The stop event of thread object [t] is set. *)
Definition event_is_set (t : nat) (p : Process) : Prop :=
  ∃ o : ThreadObj, threads p !! t = Some o ∧ event (obj o) = true.

(** While the main thread joins, the thread it waits for has its event
    set. *)
Definition joining_cancelled (p : Process) : Prop :=
  pc p = Joining ∨ pc p = InHandler →
  ∀ t : nat, thread p = Some t → event_is_set t p.

(** The invariant of the supervisor. *)
Definition supervised (p : Process) : Prop :=
  referenced p ∧ reference_valid p ∧ joining_cancelled p.

(** Every running thread has a sound stored heater state. *)
Definition threads_sound (p : Process) : Prop :=
  Forall (λ o, is_alive o = true → heater_state_sound (mkMachine (obj o) (hw p)))
         (threads p).

(** No thread object is in state WAITING_FOR_TROUGH. *)
Definition never_trough (p : Process) : Prop :=
  Forall (λ o, _state (obj o) ≠ WAITING_FOR_TROUGH) (threads p).

(** The value of the last row of [rows] for [item], if there is one. *)
Fixpoint last_value {A : Type} (item : string) (rows : list (string * A))
  : option A :=
  match rows with
  | [] => None
  | (k, v) :: rest =>
      match last_value item rest with
      | Some w => Some w
      | None => if String.eqb k item then Some v else None
      end
  end.

(** The items [read_configuration] looks at. *)
Definition config_items : list string := ["state"; "mode"; "cycle"; "log"].

(** The statements of the epilogue of [run], most recent first: idle
    mode deletes its log rows (line 260), the other modes reset the
    configuration items mode and log (lines 398-403 and 574-579). *)
Definition epilogue (k : mode) : list stmt :=
  match k with
  | Idle => [DELETE_logs_fermentation_0]
  | _ => [UPDATE_config_log_0; UPDATE_config_mode_0]
  end.

(** The commands a thread with relay port [g] has given since the GPIO
    history was [G]. *)
Definition commands_since (g : Z) (G : list gpio_op) (ops : list gpio_op)
    (m : Machine) : Prop :=
  _gpio (self m) = g ∧ gpio (world m) = (ops ++ G)%list.

(** A level of a fermentation row that [_get_next_level] accepts: its
    target is a number not below 0. *)
Definition level_accepted (lv : option float * option Z) : bool :=
  match fst lv with
  | Some x => (0 <=? x)%float
  | None => false
  end.

(** A command on the heater's line, or the final [GPIO.cleanup()]. *)
Definition heater_command (op : gpio_op) : Prop :=
  op = GPIO_cleanup ∨ ∃ l : level, op = GPIO_output HEATER_GPIO l.

(** A thread object that regulates has the heater's relay port. *)
Definition on_heater_line (o : ThreadObj) : Prop :=
  kind o ≠ Idle → _gpio (obj o) = HEATER_GPIO.

(** The thread object on taking up level [lv]: the target, and the
    duration if the column holds one. *)
Definition take_level (lv : option float * option Z) (s : Thread) : Thread :=
  let s1 := match fst lv with Some x => set_target x s | None => s end in
  match snd lv with Some d => set_duration d s1 | None => s1 end.

(** ** Example data *)

Module Examples.

Definition probe : string := "28-0417a2f1e3ff".
Definition one_sensor : list (string * option Z) := [(probe, Some 1)].

(** A reading of the one sensor at time [ts], the database reachable. *)
Definition reading (x : float) (ts : Z) (row : option Fermentation) : cycle_in :=
  mkCycleIn (λ _, x) ts true row.

(** Target 20.0, no duration. *)
Definition dough : Fermentation := mkFermentation 7 "dough" [(Some 20.0%float, None)].
(** Target 20.0 for one minute. *)
Definition bread : Fermentation := mkFermentation 8 "bread" [(Some 20.0%float, Some 1)].
(** Two levels: 50.0 for 10 minutes, then 60.0 for 20 minutes. *)
Definition mash : Fermentation :=
  mkFermentation 9 "mash"
    [(Some 50.0%float, Some 10); (Some 60.0%float, Some 20);
     (None, None); (None, None); (None, None)].

(** One level only: 50.0 for 10 minutes. *)
Definition rest : Fermentation :=
  mkFermentation 10 "rest"
    [(Some 50.0%float, Some 10); (None, None); (None, None); (None, None);
     (None, None)].

Definition settings (row : Fermentation) : init_in :=
  mkInitIn true one_sensor (Some row) (Some (Value 0.5%float)) (Some (Value 10)).

(** The world as [main] leaves it before its loop: heater line HIGH. *)
Definition world0 : World := hw boot.

(** A thread object as its constructor returns it, over [world0]. *)
Definition fresh (made : exn + Thread) : Machine :=
  match made with
  | inr s => mkMachine s world0
  | inl _ => mkMachine (mkThread false 0 0 0 "" 0 0 0 0 [] 0 0) world0
  end.

Definition dough_start : Machine :=
  fresh (ConstantMode_init 7 HEATER_GPIO (settings dough)).

(** Readings 18.0, 18.5, 19.6, 19.9, 20.0, ten seconds apart. *)
Definition dough_readings : list cycle_in :=
  [ reading 18.0 1000 (Some dough); reading 18.5 1010 (Some dough);
    reading 19.6 1020 (Some dough); reading 19.9 1030 (Some dough);
    reading 20.0 1040 (Some dough) ].

(** The machine after the first [n] cycles of the dough run. *)
Definition dough_after (n : nat) : Machine :=
  machine_of (run Constant (firstn n dough_readings) dough_start).

(** The state line of table [config], then mode, cycle and log. *)
Definition config_on (m id : Z) : list (string * cell Z) :=
  [("state", Value FPI_STATE_ON); ("mode", Value m); ("cycle", Value 10);
   ("log", Value id)].
Definition config_off (m id : Z) : list (string * cell Z) :=
  [("state", Value FPI_STATE_OFF); ("mode", Value m); ("cycle", Value 10);
   ("log", Value id)].

(** The operator switches a constant-mode fermentation on, the thread
    heats for one cycle, the operator switches the controller off, the
    thread leaves its loop and main joins it. *)
Definition switched_off_while_heating : list ev :=
  [ MainStep (mkPollIn true (config_on FPI_MODE_CONSTANT 8) (settings bread));
    ThreadStep 0 (reading 18.0 1000 (Some bread));
    MainStep (mkPollIn true (config_off FPI_MODE_CONSTANT 8) (settings bread));
    ThreadStep 0 (reading 18.2 1010 (Some bread));
    MainStep (mkPollIn true (config_off FPI_MODE_CONSTANT 8) (settings bread)) ].

(** Then the operator switches the same fermentation on again; by now
    the sensor reads 20.5, one minute later 21.0. *)
Definition switched_on_again : list ev :=
  switched_off_while_heating ++
  [ MainStep (mkPollIn true (config_on FPI_MODE_CONSTANT 8) (settings bread));
    ThreadStep 1 (reading 20.5 2000 (Some bread));
    ThreadStep 1 (reading 21.0 2060 (Some bread)) ].

(** The dough thread after its first cycle: it has read 18.0 and switched
    the heater on. *)
Definition heating_at_target : Machine := dough_after 1.

(** A gradual-mode thread on [mash] whose first reading, 50.1 at time
    1000, is already above the first target 50.0: it holds level 0 (50.0
    for 10 minutes) since 1000 with the heater off; its second reading is
    50.2. *)
Definition holding_first_level : Machine :=
  machine_of
    (run Gradual [reading 50.1 1000 (Some mash); reading 50.2 1010 (Some mash)]
       (fresh (GradualMode_init 9 HEATER_GPIO (settings mash)))).

(** A constant-mode thread on [dough] whose first reading, 20.0 at time
    1000, meets the target: it holds 20.0 since 1000 with the heater off;
    its second reading is 19.95. *)
Definition holding_target : Machine :=
  machine_of
    (run Constant [reading 20.0 1000 (Some dough); reading 19.95 1010 (Some dough)]
       (fresh (ConstantMode_init 7 HEATER_GPIO (settings dough)))).

(** The dough process: the operator switches the fermentation on, the
    thread heats at 18.0 and dies of the NameError at 19.6. *)
Definition died_heating : list ev :=
  [ MainStep (mkPollIn true (config_on FPI_MODE_CONSTANT 7) (settings dough));
    ThreadStep 0 (reading 18.0 1000 (Some dough));
    ThreadStep 0 (reading 19.6 1010 (Some dough)) ].

(** A signal arrives while the dough thread heats; the thread leaves its
    loop and the handler finishes. *)
Definition interrupted_while_heating : list ev :=
  [ MainStep (mkPollIn true (config_on FPI_MODE_CONSTANT 7) (settings dough));
    ThreadStep 0 (reading 18.0 1000 (Some dough));
    Signal;
    ThreadStep 0 (reading 18.2 1010 (Some dough));
    MainStep (mkPollIn true (config_on FPI_MODE_CONSTANT 7) (settings dough)) ].

End Examples.

(** * Properties *)

(** ** Unfolding the monad *)

Lemma bind_Ok {A B : Type} (c : M A) (f : A → M B) (m m' : Machine) (a : A) :
  c m = Ok a m' → (c ≫= f) m = f a m'.
Proof. intros H. unfold mbind, M_bind. now rewrite H. Qed.

Lemma bind_Raise {A B : Type} (c : M A) (f : A → M B) (m m' : Machine) (e : exn) :
  c m = Raise e m' → (c ≫= f) m = Raise e m'.
Proof. intros H. unfold mbind, M_bind. now rewrite H. Qed.

Ltac unfold_monad :=
  unfold mbind, M_bind, mret, M_ret, raise, get_self, update_self, update_world,
    GPIO_output_call, event_wait in *.

(** ** The heater methods *)

Lemma HEATER_OFF_is_not_global : load_global "HEATER_OFF" = None.
Proof. reflexivity. Qed.

Lemma sefl_is_not_global : load_global "sefl" = None.
Proof. reflexivity. Qed.

Lemma heater_on_result (m : Machine) :
  _heater_on m =
  Ok tt (mkMachine (set_heater HEATER_ON (self m))
                   (gpio_do (GPIO_output (_gpio (self m)) LOW) (world m))).
Proof. reflexivity. Qed.

Lemma heater_off_result (m : Machine) :
  _heater_off m =
  Raise (NameError "HEATER_OFF")
        (mkMachine (self m) (gpio_do (GPIO_output (_gpio (self m)) HIGH) (world m))).
Proof. reflexivity. Qed.

Lemma pin_after_output (port : Z) (l : level) (w : World) :
  pin port (gpio_do (GPIO_output port l) w) = Some l.
Proof. unfold pin, gpio_do. simpl. now rewrite Z.eqb_refl. Qed.

(** C10: every call of [_heater_off] drives the heater line HIGH and then
    raises NameError for the name HEATER_OFF; it never returns normally,
    and it leaves the stored heater state (and the rest of the thread
    object) as it was. *)
Theorem heater_off_sets_line_then_raises (m : Machine) :
  ∃ m' : Machine,
    _heater_off m = Raise (NameError "HEATER_OFF") m'
    ∧ gpio (world m') = GPIO_output (_gpio (self m)) HIGH :: gpio (world m)
    ∧ pin (_gpio (self m)) (world m') = Some HIGH
    ∧ self m' = self m
    ∧ _heater (self m') = _heater (self m)
    ∧ (∀ (u : unit) (m'' : Machine), _heater_off m ≠ Ok u m'').
Proof.
  rewrite heater_off_result. eexists. split; [reflexivity|].
  simpl. repeat split.
  - apply pin_after_output.
  - intros u m'' H. discriminate H.
Qed.

(** ** The start of a cycle: reading and logging *)

Lemma read_and_logged_sensor0 (i : cycle_in) (m : Machine) (s0 : Sensor) rest :
  _sensors (self m) = s0 :: rest →
  ∃ rest', _sensors (self (read_and_logged i m)) =
           mkSensor (s_id s0) (s_sid s0) (get_temperature i (s_id s0)) (s_cur s0) :: rest'.
Proof. intros H. unfold read_and_logged. simpl. rewrite H. simpl. eauto. Qed.

Lemma read_and_logged_frame (i : cycle_in) (m : Machine) :
  let m1 := read_and_logged i m in
  event (self m1) = event (self m) ∧ _gpio (self m1) = _gpio (self m)
  ∧ _heater (self m1) = _heater (self m) ∧ _target (self m1) = _target (self m)
  ∧ _duration (self m1) = _duration (self m) ∧ _overshoot (self m1) = _overshoot (self m)
  ∧ _state (self m1) = _state (self m) ∧ _timestamp (self m1) = _timestamp (self m)
  ∧ gpio (world m1) = gpio (world m).
Proof. simpl. repeat split. Qed.

Lemma constant_cycle_unfold (i : cycle_in) (m : Machine) :
  db_up i = true →
  ConstantMode.cycle i m =
  (fl ← (if _timestamp (self m) =? 0 then heat_up (now i);; mret Next
         else ConstantMode.maintain (now i));
   match fl with
   | Break => mret Break
   | Next => s' ← get_self; event_wait (_cycle s');; mret Next
   end) (read_and_logged i m).
Proof.
  intros Hdb. unfold ConstantMode.cycle, _read_temperatures, _log_temperatures.
  rewrite Hdb. reflexivity.
Qed.

Lemma gradual_cycle_unfold (i : cycle_in) (m : Machine) :
  db_up i = true →
  GradualMode.cycle i m =
  (fl ← (if _timestamp (self m) =? 0 then heat_up (now i);; mret Next
         else GradualMode.maintain (now i) i);
   match fl with
   | Break => mret Break
   | Next => s' ← get_self; event_wait (_cycle s');; mret Next
   end) (read_and_logged i m).
Proof.
  intros Hdb. unfold GradualMode.cycle, _read_temperatures, _log_temperatures.
  rewrite Hdb. reflexivity.
Qed.

(** ** The climb phase *)

Lemma heat_up_below_band (ts : Z) (m : Machine) (s0 : Sensor) rest :
  _sensors (self m) = s0 :: rest →
  (s_cur s0 <? _target (self m) - _overshoot (self m))%float = true →
  _heater (self m) = HEATER_ON ∨ _heater (self m) = HEATER_OFF →
  ∃ m', heat_up ts m = Ok tt m'
        ∧ _heater (self m') = HEATER_ON
        ∧ _gpio (self m') = _gpio (self m)
        ∧ (_heater (self m) = HEATER_OFF →
           gpio (world m') = GPIO_output (_gpio (self m)) LOW :: gpio (world m))
        ∧ (_heater (self m) = HEATER_ON → gpio (world m') = gpio (world m)).
Proof.
  intros Hs Hlt Hh. destruct m as [s w]. simpl in *.
  unfold heat_up, sensor0. unfold_monad. simpl. rewrite Hs. simpl. rewrite Hlt.
  destruct Hh as [Hh | Hh]; rewrite Hh; simpl;
    destruct (_target s <=? s_cur s0)%float; simpl;
    eexists; (split; [reflexivity|]); simpl; repeat split; try congruence;
    intros; try discriminate.
Qed.

Lemma climb_cycle_is_heat_up (k : mode) (i : cycle_in) (m m' : Machine) :
  k = Constant ∨ k = Gradual →
  db_up i = true →
  _timestamp (self m) = 0 →
  heat_up (now i) (read_and_logged i m) = Ok tt m' →
  cycle k i m = Ok Next m'.
Proof.
  intros Hk Hdb Hts Hup.
  destruct Hk as [-> | ->]; simpl;
    [rewrite constant_cycle_unfold by assumption
    |rewrite gradual_cycle_unfold by assumption];
    rewrite Hts; simpl;
    unfold mbind at 1; unfold M_bind;
    unfold mbind at 1; unfold M_bind;
    rewrite Hup; reflexivity.
Qed.

(** C4: in a climb-phase cycle (attained-timestamp still 0) of constant or
    gradual mode whose fresh primary reading is below target - overshoot,
    the cycle completes with the heater ON, whether the heater was ON or
    OFF before: the stored heater state is HEATER_ON and the relay line is
    LOW.  The cycle is one in which the decision step is reached (the
    reading could be logged), and a heater that was ON before means a
    line that was LOW. *)
Theorem climb_cycle_below_band_heater_on
    (k : mode) (i : cycle_in) (m : Machine) (s0 : Sensor) (rest : list Sensor) :
  k = Constant ∨ k = Gradual →
  db_up i = true →
  _timestamp (self m) = 0 →
  _sensors (self m) = s0 :: rest →
  (get_temperature i (s_id s0) <? _target (self m) - _overshoot (self m))%float = true →
  _heater (self m) = HEATER_ON ∨ _heater (self m) = HEATER_OFF →
  (_heater (self m) = HEATER_ON → pin (_gpio (self m)) (world m) = Some LOW) →
  ∃ m' : Machine,
    cycle k i m = Ok Next m'
    ∧ _heater (self m') = HEATER_ON
    ∧ pin (_gpio (self m')) (world m') = Some LOW.
Proof.
  intros Hk Hdb Hts Hs Hlt Hh Hpin.
  destruct (read_and_logged_sensor0 i m s0 rest Hs) as [rest' Hs1].
  destruct (read_and_logged_frame i m)
    as (_ & Hg & Hheat & Htgt & _ & Hov & _ & _ & Hgpio).
  destruct (heat_up_below_band (now i) (read_and_logged i m) _ rest' Hs1)
    as (m' & Hup & Hon & Hport & Hoff_case & Hon_case).
  - simpl s_cur. rewrite Htgt, Hov. exact Hlt.
  - rewrite Hheat. exact Hh.
  - exists m'. split; [now apply climb_cycle_is_heat_up|]. split; [exact Hon|].
    rewrite Hport, Hg. unfold pin.
    destruct Hh as [Hh | Hh].
    + rewrite Hon_case by now rewrite Hheat. rewrite Hgpio. now apply Hpin.
    + rewrite Hoff_case by now rewrite Hheat.
      rewrite Hg. simpl. now rewrite Z.eqb_refl.
Qed.

(** Witness of C4: the dough run after its first cycle (heater on, line
    LOW) reads 18.5, still below 19.5: the second cycle too ends with the
    heater on. *)
Lemma climb_cycle_below_band_heater_on_witness :
  ∃ m' : Machine,
    cycle Constant (Examples.reading 18.5 1010 (Some Examples.dough))
          (Examples.dough_after 1)
      = Ok Next m'
    ∧ _heater (self m') = HEATER_ON
    ∧ pin (_gpio (self m')) (world m') = Some LOW.
Proof.
  apply (climb_cycle_below_band_heater_on Constant
           (Examples.reading 18.5 1010 (Some Examples.dough))
           (Examples.dough_after 1)
           (mkSensor Examples.probe 1 18.0 0) []).
  - left; reflexivity.
  - reflexivity.
  - reflexivity.
  - reflexivity.
  - reflexivity.
  - left; reflexivity.
  - intros _; reflexivity.
Defined.

(** ** The worked example: target 20.0, overshoot 0.5, no duration *)

Lemma dough_start_is_as_configured :
  _target (self Examples.dough_start) = 20.0%float
  ∧ _overshoot (self Examples.dough_start) = 0.5%float
  ∧ _duration (self Examples.dough_start) = 0
  ∧ _heater (self Examples.dough_start) = HEATER_OFF
  ∧ _timestamp (self Examples.dough_start) = 0
  ∧ heater_powered (world Examples.dough_start) = false.
Proof. repeat split. Qed.

(** C7, as stated, fails: over the readings 18.0, 18.5, 19.6, 19.9, 20.0
    the heater is not ON at the end of each of the first four cycles, to
    be set OFF with the attained-timestamp on the fifth. *)
Lemma dough_run_not_on_for_four_cycles :
  ¬ ((∀ n : nat, (1 ≤ n ≤ 4)%nat →
        heater_powered (world (Examples.dough_after n)) = true)
     ∧ _timestamp (self (Examples.dough_after 5)) = 1040
     ∧ heater_powered (world (Examples.dough_after 5)) = false).
Proof.
  intros [Hon _].
  assert (H3 : heater_powered (world (Examples.dough_after 3)) = true)
    by (apply Hon; lia).
  vm_compute in H3. discriminate H3.
Qed.

(** C7, amended: over the same run the heater is ON at the end of the
    first and of the second cycle (readings 18.0 and 18.5, below
    20.0 - 0.5), and the third cycle, whose reading 19.6 is the first not
    below 19.5, commands the heater OFF: its last GPIO command drives the
    heater line HIGH. *)
Theorem dough_run_on_for_two_cycles_then_off :
  (∃ m1 : Machine,
     run Constant (firstn 1 Examples.dough_readings) Examples.dough_start = Ok Running m1
     ∧ _heater (self m1) = HEATER_ON
     ∧ heater_powered (world m1) = true)
  ∧ (∃ m2 : Machine,
       run Constant (firstn 2 Examples.dough_readings) Examples.dough_start = Ok Running m2
       ∧ _heater (self m2) = HEATER_ON
       ∧ heater_powered (world m2) = true)
  ∧ gpio (world (Examples.dough_after 3))
    = GPIO_output HEATER_GPIO HIGH :: gpio (world (Examples.dough_after 2))
  ∧ heater_powered (world (Examples.dough_after 3)) = false.
Proof.
  split; [|split; [|split]].
  - eexists. split; [vm_compute; reflexivity|]. split; reflexivity.
  - eexists. split; [vm_compute; reflexivity|]. split; reflexivity.
  - vm_compute. reflexivity.
  - vm_compute. reflexivity.
Qed.

(** ** What a statement keeps *)

Section Keeps.

Context (P : Thread → Prop).

Lemma keeps_ret {A : Type} (a : A) : keeps P (mret a).
Proof. intros m H. exact H. Qed.

Lemma keeps_raise {A : Type} (e : exn) : keeps P (@raise A e).
Proof. intros m H. exact H. Qed.

Lemma keeps_bind {A B : Type} (c : M A) (f : A → M B) :
  keeps P c → (∀ a, keeps P (f a)) → keeps P (c ≫= f).
Proof.
  intros Hc Hf m H. unfold mbind, M_bind.
  specialize (Hc m H). destruct (c m) as [a m'|e m']; simpl in *.
  - now apply Hf.
  - exact Hc.
Qed.

Lemma keeps_get_self : keeps P get_self.
Proof. intros m H. exact H. Qed.

Lemma keeps_update_world (f : World → World) : keeps P (update_world f).
Proof. intros m H. exact H. Qed.

Lemma keeps_update_self (f : Thread → Thread) :
  (∀ s, P s → P (f s)) → keeps P (update_self f).
Proof. intros Hf m H. simpl. now apply Hf. Qed.

Lemma keeps_GPIO_output (port : Z) (l : level) : keeps P (GPIO_output_call port l).
Proof. apply keeps_update_world. Qed.

Lemma keeps_event_wait (n : Z) : keeps P (event_wait n).
Proof. apply keeps_ret. Qed.

Lemma keeps_sensor0 : keeps P sensor0.
Proof. intros m H. unfold sensor0. now destruct (_sensors (self m)). Qed.

Lemma keeps_sefl_state_assign : keeps P sefl_state_assign.
Proof. apply keeps_raise. Qed.

Lemma keeps_heater_off : keeps P _heater_off.
Proof. intros m H. rewrite heater_off_result. exact H. Qed.

Lemma keeps_reset_configuration (i : cycle_in) : keeps P (reset_configuration i).
Proof.
  unfold reset_configuration. destruct (db_up i).
  - apply keeps_bind; [apply keeps_update_world|intros _; apply keeps_update_world].
  - apply keeps_raise.
Qed.

Lemma keeps_delete_idle_logs (i : cycle_in) : keeps P (IdleMode.delete_idle_logs i).
Proof.
  unfold IdleMode.delete_idle_logs. destruct (db_up i).
  - apply keeps_update_world.
  - apply keeps_raise.
Qed.

End Keeps.

Create HintDb keeps.
#[local] Hint Resolve keeps_ret keeps_raise keeps_get_self keeps_update_world
  keeps_GPIO_output keeps_event_wait keeps_sensor0 keeps_sefl_state_assign
  keeps_heater_off keeps_reset_configuration keeps_delete_idle_logs : keeps.

(** Splits a [keeps] goal along the statement it is about; what is left
    are the assignments to the thread object. *)
Ltac keeps_step :=
  match goal with
  | |- keeps _ (_ ≫= _) => apply keeps_bind; [|intros ?]
  | |- keeps _ (if ?b then _ else _) => destruct b
  | |- keeps _ (match ?x with _ => _ end) => destruct x
  | |- keeps _ (let _ := _ in _) => cbv zeta
  | |- keeps _ _ => solve [auto with keeps]
  end.
Ltac keeps_auto := repeat keeps_step.

(** A property of the thread object that no assignment of the run loops
    disturbs is kept by every step of every mode. *)
Section RunKeeps.

Context (P : Thread → Prop).
Hypothesis P_sensors : ∀ l s, P s → P (set_sensors l s).
Hypothesis P_heater_on : ∀ s, P s → P (set_heater HEATER_ON s).
Hypothesis P_heating : ∀ s, P s → P (set_state HEATING s).
Hypothesis P_peak : ∀ s, P s → P (set_state WAITING_FOR_PEAK s).
Hypothesis P_timestamp : ∀ t s, P s → P (set_timestamp t s).
Hypothesis P_target : ∀ x s, P s → P (set_target x s).
Hypothesis P_duration : ∀ d s, P s → P (set_duration d s).

Ltac run_keeps :=
  repeat first
    [ keeps_step
    | apply keeps_update_self; intros; simpl;
      first [ apply P_sensors | apply P_heater_on | apply P_heating | apply P_peak
            | apply P_timestamp | apply P_target | apply P_duration ];
      assumption ].

Lemma keeps_read_temperatures (i : cycle_in) : keeps P (_read_temperatures i).
Proof. unfold _read_temperatures. run_keeps. Qed.

Lemma keeps_log_temperatures (ts : Z) (i : cycle_in) : keeps P (_log_temperatures ts i).
Proof. unfold _log_temperatures. run_keeps. Qed.

Lemma keeps_heater_on : keeps P _heater_on.
Proof. unfold _heater_on. run_keeps. Qed.

Lemma keeps_heat_up (ts : Z) : keeps P (heat_up ts).
Proof. pose proof keeps_heater_on. unfold heat_up. run_keeps. Qed.

Lemma keeps_keep_on_going : keeps P keep_on_going.
Proof. pose proof keeps_heater_on. unfold keep_on_going. run_keeps. Qed.

Lemma keeps_scan_levels (n : nat) (i : Z) (row : Fermentation) :
  keeps P (GradualMode.scan_levels n i row).
Proof.
  revert i. induction n as [|n IH]; intros i; simpl; run_keeps; apply IH.
Qed.

Lemma keeps_get_next_level (i : cycle_in) : keeps P (GradualMode._get_next_level i).
Proof.
  pose proof keeps_scan_levels. unfold GradualMode._get_next_level. run_keeps.
Qed.

Lemma keeps_constant_cycle (i : cycle_in) : keeps P (ConstantMode.cycle i).
Proof.
  pose proof keeps_read_temperatures. pose proof keeps_log_temperatures.
  pose proof keeps_heat_up. pose proof keeps_keep_on_going.
  unfold ConstantMode.cycle, ConstantMode.maintain. run_keeps.
Qed.

Lemma keeps_gradual_cycle (i : cycle_in) : keeps P (GradualMode.cycle i).
Proof.
  pose proof keeps_read_temperatures. pose proof keeps_log_temperatures.
  pose proof keeps_heat_up. pose proof keeps_keep_on_going.
  pose proof keeps_get_next_level.
  unfold GradualMode.cycle, GradualMode.maintain. run_keeps.
Qed.

Lemma keeps_idle_cycle (i : cycle_in) : keeps P (IdleMode.cycle i).
Proof.
  pose proof keeps_read_temperatures. pose proof keeps_log_temperatures.
  unfold IdleMode.cycle. run_keeps.
Qed.

Lemma keeps_cycle (k : mode) (i : cycle_in) : keeps P (cycle k i).
Proof.
  destruct k; simpl;
    [apply keeps_idle_cycle | apply keeps_constant_cycle | apply keeps_gradual_cycle].
Qed.

Lemma keeps_run_step (k : mode) (i : cycle_in) : keeps P (run_step k i).
Proof.
  pose proof keeps_idle_cycle. pose proof keeps_constant_cycle.
  pose proof keeps_gradual_cycle.
  destruct k; simpl;
    unfold IdleMode.run_step, ConstantMode.run_step, GradualMode.run_step;
    run_keeps.
Qed.

End RunKeeps.

(** ** The maintain phase *)

(** The duration limit is not reached in a cycle at time [ts]. *)
Lemma not_expired_test (d t0 ts : Z) :
  d ≤ 0 ∨ (ts - t0) / 60 < d →
  (if 0 <? d then (if d <=? (ts - t0) / 60 then true else false) else false) = false.
Proof.
  intros [H | H].
  - destruct (Z.ltb_spec 0 d); [lia | reflexivity].
  - destruct (0 <? d); [|reflexivity].
    destruct (Z.leb_spec d ((ts - t0) / 60)); [lia | reflexivity].
Qed.

Lemma constant_maintain_not_expired (ts : Z) (m : Machine) :
  _duration (self m) ≤ 0 ∨ (ts - _timestamp (self m)) / 60 < _duration (self m) →
  ConstantMode.maintain ts m = (keep_on_going;; mret Next) m.
Proof.
  intros H. apply not_expired_test in H.
  unfold ConstantMode.maintain. unfold mbind at 1 2. unfold M_bind, get_self.
  destruct (0 <? _duration (self m)); [|reflexivity].
  cbv zeta. destruct (_duration (self m) <=? (ts - _timestamp (self m)) / 60);
    [discriminate H | reflexivity].
Qed.

Lemma gradual_maintain_not_expired (ts : Z) (i : cycle_in) (m : Machine) :
  _duration (self m) ≤ 0 ∨ (ts - _timestamp (self m)) / 60 < _duration (self m) →
  GradualMode.maintain ts i m = (keep_on_going;; mret Next) m.
Proof.
  intros H. apply not_expired_test in H.
  unfold GradualMode.maintain. unfold mbind at 1 2. unfold M_bind, get_self.
  destruct (0 <? _duration (self m)); [|reflexivity].
  cbv zeta. destruct (_duration (self m) <=? (ts - _timestamp (self m)) / 60);
    [discriminate H | reflexivity].
Qed.

(** The re-arm pulse of lines 376-383: on, settle, off. *)
Lemma keep_on_going_pulse (m : Machine) (s0 : Sensor) rest :
  _sensors (self m) = s0 :: rest →
  (s_cur s0 <=? _target (self m) - 0.10)%float = true →
  (s_cur s0 <? s_prev s0)%float = true →
  keep_on_going m =
  Raise (NameError "HEATER_OFF")
    (mkMachine (set_heater HEATER_ON (self m))
       (gpio_do (GPIO_output (_gpio (self m)) HIGH)
          (gpio_do (GPIO_output (_gpio (self m)) LOW) (world m)))).
Proof.
  intros Hs Hle Hlt. destruct m as [s w]. simpl in *.
  unfold keep_on_going, sensor0. unfold_monad. simpl. rewrite Hs. simpl.
  rewrite Hle, Hlt. reflexivity.
Qed.

Lemma maintain_cycle_is_keep_on_going (k : mode) (i : cycle_in) (m : Machine) :
  k = Constant ∨ k = Gradual →
  db_up i = true →
  _timestamp (self m) ≠ 0 →
  _duration (self m) ≤ 0
  ∨ (now i - _timestamp (self m)) / 60 < _duration (self m) →
  cycle k i m =
  (keep_on_going;; s' ← get_self; event_wait (_cycle s');; mret Next)
    (read_and_logged i m).
Proof.
  intros Hk Hdb Hts Hd.
  apply Z.eqb_neq in Hts.
  destruct Hk as [-> | ->]; simpl;
    [rewrite constant_cycle_unfold by assumption
    |rewrite gradual_cycle_unfold by assumption];
    rewrite Hts; unfold mbind at 1; unfold M_bind;
    [rewrite constant_maintain_not_expired by exact Hd
    |rewrite gradual_maintain_not_expired by exact Hd];
    unfold mbind, M_bind;
    destruct (keep_on_going (read_and_logged i m)); reflexivity.
Qed.

Lemma state_not_trough_kept (k : mode) (i : cycle_in) :
  keeps (λ s, _state s ≠ WAITING_FOR_TROUGH) (cycle k i).
Proof. apply keeps_cycle; intros; simpl; try assumption; discriminate. Qed.

(** ** The supervisor *)

Lemma set_pc_same (p : Process) : set_pc (pc p) p = p.
Proof. now destruct p. Qed.

Lemma leave_try_effect (e : exn) (p : Process) : main_effect p (leave_try e p).
Proof. destruct e; simpl; unfold except_mdb_Error; apply eff_stop. Qed.

Lemma sleep_cycle_effect (config : gmap string Z) (p : Process) :
  sleep_cycle config p = p
  ∨ sleep_cycle config p = set_pc (Stopped (KeyError "cycle")) p
  ∨ sleep_cycle config p = set_pc (Stopped IOError) p.
Proof.
  unfold sleep_cycle. destruct (config !! "cycle") as [c|]; [|auto].
  destruct (c <? 0); auto.
Qed.

Lemma base_init_constructed (id port : Z) (e : init_in) (s : Thread) :
  FermentationThread_init id port e = inr s → constructed s.
Proof.
  unfold FermentationThread_init. destruct (init_db_up e); [|discriminate].
  destruct (init_sensors _ _); [discriminate|].
  intros H. injection H as <-. repeat split.
Qed.

Lemma load_settings_constructed (e : init_in) (s s' : Thread) :
  constructed s → load_settings e s = inr s' → constructed s'.
Proof.
  intros Hs. unfold load_settings.
  destruct (init_fermentation e) as [row|].
  - destruct (f_levels row !! 0%nat) as [[tgt dur]|]; [|discriminate].
    destruct (config_overshoot e) as [[o| |]|], (config_cycle e) as [[c| |]|];
      simpl; intros H; try discriminate H; injection H as <-;
      destruct tgt, dur; exact Hs.
  - destruct (config_overshoot e) as [[o| |]|], (config_cycle e) as [[c| |]|];
      simpl; intros H; try discriminate H; injection H as <-; exact Hs.
Qed.

Lemma mode_init_constructed (id port : Z) (e : init_in) (s : Thread) :
  IdleMode_init id port e = inr s
  ∨ ConstantMode_init id port e = inr s
  ∨ GradualMode_init id port e = inr s →
  constructed s.
Proof.
  unfold IdleMode_init, ConstantMode_init, GradualMode_init.
  intros [H | [H | H]].
  - now apply base_init_constructed in H.
  - destruct (FermentationThread_init id port e) as [|s1] eqn:H1; [discriminate|].
    apply base_init_constructed in H1. now apply (load_settings_constructed e s1).
  - destruct (FermentationThread_init id port e) as [|s1] eqn:H1; [discriminate|].
    apply base_init_constructed in H1. now apply (load_settings_constructed e s1).
Qed.

Lemma start_thread_effect (k : mode) (made : exn + Thread) (config : gmap string Z)
    (p : Process) :
  (∀ s, made = inr s → constructed s) →
  thread p = None → pc p = Polling →
  main_effect p (start_thread k made config p).
Proof.
  intros Hnew Hnone Hpc. unfold start_thread. destruct made as [e|s].
  - apply leave_try_effect.
  - specialize (Hnew s eq_refl).
    destruct (sleep_cycle_effect config (started k s p)) as [-> | [-> | ->]].
    + now apply eff_start.
    + now apply eff_start_stop.
    + now apply eff_start_stop.
Qed.

Lemma poll_effect (i : poll_in) (p : Process) :
  pc p = Polling → main_effect p (poll i p).
Proof.
  intros Hpc. unfold poll.
  destruct (read_configuration i) as [e|config]; [apply leave_try_effect|].
  destruct (config !! "state") as [state|]; [|apply leave_try_effect].
  assert (Hsleep : main_effect p (sleep_cycle config p)).
  { destruct (sleep_cycle_effect config p) as [-> | [-> | ->]]; constructor. }
  destruct (state =? FPI_STATE_OFF).
  { destruct (thread p) as [t|] eqn:Ht; [now apply eff_cancel | exact Hsleep]. }
  destruct (state =? FPI_STATE_ON); [|exact Hsleep].
  destruct (thread p) as [t|] eqn:Ht; [exact Hsleep|].
  destruct (config !! "mode") as [m|]; [|apply leave_try_effect].
  destruct (m =? FPI_MODE_IDLE).
  { apply start_thread_effect; try assumption.
    intros s Hs. apply (mode_init_constructed 0 0 (ctor i)). now left. }
  destruct (m =? FPI_MODE_CONSTANT).
  { destruct (config !! "log") as [id|]; [|apply leave_try_effect].
    apply start_thread_effect; try assumption.
    intros s Hs. apply (mode_init_constructed id HEATER_GPIO (ctor i)). auto. }
  destruct (m =? FPI_MODE_GRADUAL); [|exact Hsleep].
  destruct (config !! "log") as [id|]; [|apply leave_try_effect].
  apply start_thread_effect; try assumption.
  intros s Hs. apply (mode_init_constructed id HEATER_GPIO (ctor i)). auto.
Qed.

Lemma main_step_effect (i : poll_in) (p : Process) : main_effect p (main_step i p).
Proof.
  unfold main_step. destruct (pc p) eqn:Hpc.
  - now apply poll_effect.
  - unfold join_loop. destruct (thread p) as [t|] eqn:Ht.
    + destruct (thread_alive t p) eqn:Ha; [apply eff_none|].
      apply eff_joined; [exact Hpc|]. intros t' Ht'. congruence.
    + apply eff_joined; [exact Hpc|]. intros t' Ht'. congruence.
  - unfold on_exit_finish. destruct (thread p) as [t|] eqn:Ht.
    + destruct (thread_alive t p) eqn:Ha; [apply eff_none|].
      apply eff_quit; [exact Hpc|]. intros t' Ht'. congruence.
    + apply eff_quit; [exact Hpc|]. intros t' Ht'. congruence.
  - apply eff_none.
Qed.

(** *** Which threads are alive after a step *)

Lemma thread_alive_lt (t : nat) (p : Process) :
  thread_alive t p = true → (t < length (threads p))%nat.
Proof.
  unfold thread_alive. destruct (threads p !! t) eqn:H; [|discriminate].
  intros _. now apply lookup_lt_Some in H.
Qed.

Lemma thread_alive_event_set (t t' : nat) (p : Process) :
  thread_alive t (event_set t' p) = thread_alive t p.
Proof.
  unfold event_set. destruct (threads p !! t') as [o|] eqn:Ho; [|reflexivity].
  unfold thread_alive. simpl. destruct (decide (t' = t)) as [->|Hne].
  - rewrite list_lookup_insert_eq by now apply lookup_lt_Some in Ho.
    now rewrite Ho.
  - now rewrite list_lookup_insert_ne.
Qed.

Lemma length_threads_event_set (t : nat) (p : Process) :
  length (threads (event_set t p)) = length (threads p).
Proof.
  unfold event_set. destruct (threads p !! t); [|reflexivity].
  simpl. apply length_insert.
Qed.

Lemma thread_event_set (t : nat) (p : Process) :
  thread (event_set t p) = thread p.
Proof. unfold event_set. now destruct (threads p !! t). Qed.

Lemma event_set_sets (t : nat) (p : Process) :
  (t < length (threads p))%nat → event_is_set t (event_set t p).
Proof.
  intros Hlt. unfold event_is_set, event_set.
  destruct (lookup_lt_is_Some_2 (threads p) t Hlt) as [o Ho]. rewrite Ho. simpl.
  eexists. split; [now apply list_lookup_insert_eq|]. reflexivity.
Qed.

Lemma thread_alive_started (k : mode) (s : Thread) (t : nat) (p : Process) :
  thread_alive t (started k s p) = true →
  thread_alive t p = true ∨ t = length (threads p).
Proof.
  unfold thread_alive, started. simpl. intros H.
  destruct (decide (t < length (threads p))%nat) as [Hlt|Hge].
  - rewrite lookup_app_l in H by exact Hlt. now left.
  - right. destruct (decide (t = length (threads p))) as [->|Hne]; [reflexivity|].
    rewrite lookup_ge_None_2 in H; [discriminate|].
    rewrite length_app. simpl. lia.
Qed.

(** A thread that is alive after a step of some thread was alive before. *)
Lemma thread_alive_thread_step (t u : nat) (i : cycle_in) (p : Process) :
  thread_alive u (thread_step t i p) = true → thread_alive u p = true.
Proof.
  unfold thread_step. destruct (threads p !! t) as [o|] eqn:Ho; [|trivial].
  destruct (is_alive o) eqn:Ha; [|trivial].
  assert (Hlt : (t < length (threads p))%nat) by now apply lookup_lt_Some in Ho.
  assert (Hu : ∀ q : Process, thread_alive u q = true →
               (u = t ∨ threads q !! u = threads p !! u) → thread_alive u p = true).
  { intros q Hq [-> | Heq].
    - unfold thread_alive. now rewrite Ho.
    - unfold thread_alive in *. now rewrite <- Heq. }
  destruct (run_step (kind o) i _) as [[|] m'|e m']; intros H;
    apply (Hu _ H); simpl;
    (destruct (decide (u = t)); [now left|right; now apply list_lookup_insert_ne]).
Qed.

Lemma thread_step_frame (t : nat) (i : cycle_in) (p : Process) :
  thread (thread_step t i p) = thread p
  ∧ pc (thread_step t i p) = pc p
  ∧ length (threads (thread_step t i p)) = length (threads p).
Proof.
  unfold thread_step. destruct (threads p !! t) as [o|]; [|auto].
  destruct (is_alive o); [|auto].
  destruct (run_step (kind o) i _) as [[|] m'|e m']; simpl;
    rewrite ?length_insert; auto.
Qed.

Lemma event_kept (k : mode) (i : cycle_in) :
  keeps (λ s, event s = true) (run_step k i).
Proof. apply keeps_run_step; intros; assumption. Qed.

Lemma event_is_set_thread_step (t u : nat) (i : cycle_in) (p : Process) :
  event_is_set u p → event_is_set u (thread_step t i p).
Proof.
  intros (ou & Hou & Hev). unfold thread_step.
  destruct (threads p !! t) as [o|] eqn:Ho; [|now exists ou].
  destruct (is_alive o) eqn:Ha; [|now exists ou].
  assert (Hlt : (t < length (threads p))%nat) by now apply lookup_lt_Some in Ho.
  pose proof (event_kept (kind o) i (mkMachine (obj o) (hw p))) as Hk. simpl in Hk.
  destruct (decide (u = t)) as [->|Hne].
  - assert (Heq : ou = o) by congruence. subst ou. specialize (Hk Hev).
    destruct (run_step (kind o) i _) as [[|] m'|e m']; simpl in *;
      (eexists; split; [now apply list_lookup_insert_eq|exact Hk]).
  - destruct (run_step (kind o) i _) as [[|] m'|e m'];
      unfold event_is_set; cbn [threads];
      (exists ou; split; [|exact Hev]);
      rewrite list_lookup_insert_ne by congruence; exact Hou.
Qed.

(** *** The invariant *)

Lemma supervised_boot : supervised boot.
Proof.
  repeat split.
  - intros t H. unfold thread_alive in H. simpl in H. discriminate H.
  - intros t H. discriminate H.
  - intros [H | H]; discriminate H.
Qed.

Lemma supervised_main_effect (p q : Process) :
  main_effect p q → supervised p → supervised q.
Proof.
  intros Heff (Href & Hval & Hjoin).
  destruct Heff as [|e|t Ht|k s Hnew Hnone Hpc|k s e Hnew Hnone|Hpc Hdead|Hpc Hdead].
  - repeat split; assumption.
  - repeat split; try assumption. intros [H | H]; discriminate H.
  - repeat split.
    + intros u Hu. simpl. rewrite thread_event_set.
      change (thread_alive u (event_set t p) = true) in Hu.
      rewrite thread_alive_event_set in Hu. now apply Href.
    + intros u Hu. simpl in *. rewrite thread_event_set in Hu.
      rewrite length_threads_event_set. now apply Hval.
    + intros _ u Hu. simpl in Hu. rewrite thread_event_set in Hu.
      assert (u = t) by congruence. subst u.
      destruct (event_set_sets t p (Hval t Ht)) as (o & Ho & He).
      exists o. split; assumption.
  - repeat split.
    + intros u Hu. apply thread_alive_started in Hu. destruct Hu as [Hu | ->].
      * apply Href in Hu. congruence.
      * reflexivity.
    + intros u Hu. simpl in *. injection Hu as <-. rewrite length_app. simpl. lia.
    + intros [H | H]; simpl in H; congruence.
  - repeat split.
    + intros u Hu. change (thread_alive u (started k s p) = true) in Hu.
      apply thread_alive_started in Hu. destruct Hu as [Hu | ->].
      * apply Href in Hu. congruence.
      * reflexivity.
    + intros u Hu. simpl in *. injection Hu as <-. rewrite length_app. simpl. lia.
    + intros [H | H]; discriminate H.
  - repeat split.
    + intros u Hu. change (thread_alive u p = true) in Hu.
      pose proof (Href u Hu) as Hr. rewrite (Hdead u Hr) in Hu. discriminate Hu.
    + intros u Hu. discriminate Hu.
    + intros [H | H]; discriminate H.
  - repeat split.
    + intros u Hu. change (thread_alive u p = true) in Hu.
      pose proof (Href u Hu) as Hr. rewrite (Hdead u Hr) in Hu. discriminate Hu.
    + intros u Hu. discriminate Hu.
    + intros [H | H]; discriminate H.
Qed.

Lemma supervised_thread_step (t : nat) (i : cycle_in) (p : Process) :
  supervised p → supervised (thread_step t i p).
Proof.
  intros (Href & Hval & Hjoin).
  destruct (thread_step_frame t i p) as (Hth & Hpc & Hlen).
  repeat split.
  - intros u Hu. rewrite Hth. apply Href. now apply thread_alive_thread_step in Hu.
  - intros u Hu. rewrite Hth in Hu. rewrite Hlen. now apply Hval.
  - intros Hj u Hu. rewrite Hpc in Hj. rewrite Hth in Hu.
    apply event_is_set_thread_step. now apply Hjoin.
Qed.

Lemma supervised_signal (p : Process) : supervised p → supervised (signal p).
Proof.
  intros (Href & Hval & Hjoin). unfold signal.
  assert (Hkeep : supervised p) by (repeat split; assumption).
  assert (Hhandler :
    supervised match thread p with
               | Some t => set_pc InHandler (event_set t p)
               | None => set_pc InHandler p
               end).
  { destruct (thread p) as [t|] eqn:Ht.
    - repeat split.
      + intros u Hu. simpl. rewrite thread_event_set.
        change (thread_alive u (event_set t p) = true) in Hu.
        rewrite thread_alive_event_set in Hu. now apply Href.
      + intros u Hu. simpl in *. rewrite thread_event_set in Hu.
        rewrite length_threads_event_set. now apply Hval.
      + intros _ u Hu. simpl in Hu. rewrite thread_event_set in Hu.
        assert (u = t) by congruence. subst u.
        destruct (event_set_sets t p (Hval t Ht)) as (o & Ho & He).
        exists o. split; assumption.
    - repeat split.
      + intros u Hu. simpl. rewrite Ht. apply Href in Hu. congruence.
      + intros u Hu. simpl in Hu. congruence.
      + intros _ u Hu. simpl in Hu. congruence. }
  destruct (pc p); assumption.
Qed.

Lemma supervised_step (e : ev) (p : Process) : supervised p → supervised (step e p).
Proof.
  destruct e as [i|t i|]; simpl.
  - apply supervised_main_effect, main_step_effect.
  - apply supervised_thread_step.
  - apply supervised_signal.
Qed.

Lemma supervised_exec (es : list ev) (p : Process) :
  supervised p → supervised (exec es p).
Proof.
  revert p. induction es as [|e es IH]; intros p Hp; simpl.
  - exact Hp.
  - apply IH. now apply supervised_step.
Qed.

(** *** Counting the running threads *)

Lemma filter_alive_nil (l : list ThreadObj) :
  (∀ j o, l !! j = Some o → is_alive o = false) →
  filter (λ o, is_alive o = true) l = [].
Proof.
  induction l as [|x l IH]; intros H; [reflexivity|].
  rewrite filter_cons. destruct (decide (is_alive x = true)) as [Hx|Hx].
  - rewrite (H 0%nat x eq_refl) in Hx. discriminate Hx.
  - apply IH. intros j o Hj. apply (H (S j) o Hj).
Qed.

Lemma filter_alive_at_most_one (l : list ThreadObj) :
  (∀ i j oi oj, l !! i = Some oi → l !! j = Some oj →
                is_alive oi = true → is_alive oj = true → i = j) →
  (length (filter (λ o, is_alive o = true) l) ≤ 1)%nat.
Proof.
  induction l as [|x l IH]; intros H; [simpl; lia|].
  rewrite filter_cons. destruct (decide (is_alive x = true)) as [Hx|Hx].
  - rewrite filter_alive_nil; [simpl; lia|].
    intros j o Hj. destruct (is_alive o) eqn:Ho; [|reflexivity].
    specialize (H 0%nat (S j) x o eq_refl Hj Hx Ho). discriminate H.
  - apply IH. intros i j oi oj Hi Hj Hai Haj.
    specialize (H (S i) (S j) oi oj Hi Hj Hai Haj). now injection H.
Qed.

Lemma referenced_running (p : Process) : referenced p → (running p ≤ 1)%nat.
Proof.
  intros Href. unfold running. apply filter_alive_at_most_one.
  intros i j oi oj Hi Hj Hai Haj.
  assert (Ti : thread p = Some i) by (apply Href; unfold thread_alive; now rewrite Hi).
  assert (Tj : thread p = Some j) by (apply Href; unfold thread_alive; now rewrite Hj).
  congruence.
Qed.

Lemma unreferenced_none_running (p : Process) :
  referenced p → thread p = None → running p = 0%nat.
Proof.
  intros Href Hnone. unfold running. rewrite filter_alive_nil; [reflexivity|].
  intros j o Hj. destruct (is_alive o) eqn:Ho; [|reflexivity].
  assert (T : thread p = Some j) by (apply Href; unfold thread_alive; now rewrite Hj).
  congruence.
Qed.

(** *** Starting and stopping *)

Lemma length_threads_signal (p : Process) :
  length (threads (signal p)) = length (threads p)
  ∧ thread (signal p) = thread p.
Proof.
  unfold signal. destruct (pc p); auto;
    (destruct (thread p) eqn:Ht; simpl;
     rewrite ?length_threads_event_set, ?thread_event_set; auto).
Qed.

(** Only a start makes the list of thread objects longer, and a start
    finds the global [thread] empty. *)
Lemma step_grows (e : ev) (p : Process) :
  (length (threads p) < length (threads (step e p)))%nat → thread p = None.
Proof.
  destruct e as [i|t i|]; simpl.
  - destruct (main_step_effect i p) as [|e|t Ht|k s Hnew Hnone Hpc|k s e Hnew Hnone|Hpc Hdead|Hpc Hdead];
      simpl; rewrite ?length_threads_event_set; intros H; solve [lia | assumption].
  - destruct (thread_step_frame t i p) as (_ & _ & ->). lia.
  - destruct (length_threads_signal p) as [-> _]. lia.
Qed.

(** The global [thread] is emptied only after a join, in the main loop or
    in the signal handler. *)
Lemma step_clears (e : ev) (p : Process) (t : nat) :
  thread p = Some t → thread (step e p) = None →
  (pc p = Joining ∨ pc p = InHandler) ∧ thread_alive t p = false.
Proof.
  intros Ht. destruct e as [i|u i|]; simpl.
  - destruct (main_step_effect i p) as [|e|t' Ht'|k s Hnew Hnone Hpc|k s e Hnew Hnone|Hpc Hdead|Hpc Hdead];
      simpl; rewrite ?thread_event_set; intros H; try congruence.
    + split; [now left | now apply Hdead].
    + split; [now right | now apply Hdead].
  - destruct (thread_step_frame u i p) as (-> & _ & _). congruence.
  - destruct (length_threads_signal p) as [_ ->]. congruence.
Qed.

(** A pass of the main loop that reads state OFF while a thread is
    referenced sets that thread's event and goes on to join it. *)
Lemma poll_off (i : poll_in) (p : Process) (t : nat) (config : gmap string Z) :
  thread p = Some t →
  read_configuration i = inr config →
  config !! "state" = Some FPI_STATE_OFF →
  poll i p = set_pc Joining (event_set t p).
Proof.
  intros Ht Hcfg Hstate. unfold poll. rewrite Hcfg, Hstate, Ht. reflexivity.
Qed.

(** The invariant is not an empty one: after the first pass of the main
    loop of the run of C1 and one cycle of the thread, one thread runs. *)
Lemma one_thread_running_example :
  running (exec (firstn 2 Examples.switched_off_while_heating) boot) = 1%nat
  ∧ thread (exec (firstn 2 Examples.switched_off_while_heating) boot) = Some 0%nat.
Proof. split; vm_compute; reflexivity. Qed.

(** C8: in every state the process reaches from its start, whatever the
    main thread, the mode threads and signals do and in whatever order, at
    most one thread is running, and a running thread is the one the global
    [thread] refers to.  A thread is started only when that reference is
    empty (and then none is running); a pass that reads state OFF with a
    thread referenced sets the thread's event and goes on to join it, the
    reference still in place; and the reference is emptied only when the
    referenced thread, its event set, is no longer alive. *)
Theorem at_most_one_thread_running (es : list ev) :
  let p := exec es boot in
  (running p ≤ 1)%nat
  ∧ (∀ t : nat, thread_alive t p = true → thread p = Some t)
  ∧ (∀ e : ev, (length (threads p) < length (threads (step e p)))%nat →
       thread p = None ∧ running p = 0%nat)
  ∧ (∀ (i : poll_in) (t : nat) (config : gmap string Z),
       pc p = Polling → thread p = Some t →
       read_configuration i = inr config →
       config !! "state" = Some FPI_STATE_OFF →
       thread (step (MainStep i) p) = Some t
       ∧ pc (step (MainStep i) p) = Joining
       ∧ event_is_set t (step (MainStep i) p))
  ∧ (∀ (e : ev) (t : nat), thread p = Some t → thread (step e p) = None →
       thread_alive t p = false ∧ event_is_set t p).
Proof.
  cbv zeta.
  destruct (supervised_exec es boot supervised_boot) as (Href & Hval & Hjoin).
  split; [now apply referenced_running|].
  split; [exact Href|].
  split; [|split].
  - intros e Hlen. apply step_grows in Hlen. split; [exact Hlen|].
    now apply unreferenced_none_running.
  - intros i t config Hpc Ht Hcfg Hstate. simpl. unfold main_step. rewrite Hpc.
    rewrite (poll_off i _ t config Ht Hcfg Hstate). simpl.
    rewrite thread_event_set. split; [exact Ht|]. split; [reflexivity|].
    destruct (event_set_sets t _ (Hval t Ht)) as (o & Ho & He).
    exists o. split; assumption.
  - intros e t Ht Hclear. destruct (step_clears e _ t Ht Hclear) as [Hpc Hdead].
    split; [exact Hdead|]. now apply Hjoin.
Qed.

(** *** A failing database *)

(** C9 fails on the code: when [read_configuration] raises [mdb.Error]
    (here: the connection cannot be made), the handler's [if conn:] reads
    a local that was never bound, the UnboundLocalError leaves [main], and
    no later pass polls again; the threads and the heater stay as they
    were. *)
Theorem database_error_stops_supervisor
    (rows : list (string * cell Z)) (c : init_in)
    (th : option nat) (ths : list ThreadObj) (w : World) :
  let p := mkProcess th ths w Polling in
  let q := main_step (mkPollIn false rows c) p in
  read_configuration (mkPollIn false rows c) = inl MdbError
  ∧ q = mkProcess th ths w (Stopped (UnboundLocalError "conn"))
  ∧ ∀ i : poll_in, main_step i q = q.
Proof. cbv zeta. repeat split. Qed.

(** The same end when the database fails in a constructor. *)
Lemma database_error_in_constructor_stops_supervisor
    (c : init_in) (th : option nat) (ths : list ThreadObj) (w : World) (id : Z) :
  init_db_up c = false →
  thread (mkProcess None ths w Polling) = None →
  main_step (mkPollIn true (Examples.config_on FPI_MODE_CONSTANT id) c)
            (mkProcess None ths w Polling)
  = mkProcess None ths w (Stopped (UnboundLocalError "conn")).
Proof.
  intros Hdb _. unfold main_step, poll. simpl.
  unfold ConstantMode_init, FermentationThread_init. rewrite Hdb. reflexivity.
Qed.

(** ** Leaving the run loop *)

(** A thread whose event is set leaves its loop without a GPIO command. *)
Lemma cancelled_exit_leaves_gpio (k : mode) (i : cycle_in) (m : Machine) :
  event (self m) = true →
  gpio (world (machine_of (run_step k i m))) = gpio (world m).
Proof.
  intros He. destruct m as [s w]. simpl in He.
  destruct k; simpl;
    unfold IdleMode.run_step, ConstantMode.run_step, GradualMode.run_step,
      IdleMode.delete_idle_logs, reset_configuration;
    unfold_monad; simpl; rewrite He; destruct (db_up i); reflexivity.
Qed.

(** C1 fails on the code.  The operator switches a constant-mode
    fermentation on, the thread reads 18.0 and switches the heater on, the
    operator switches the controller off: the thread leaves its loop
    through the stop event and returns, main joins it and empties the
    reference, and the heater line is still LOW, the heater powered. *)
Theorem cancelled_thread_leaves_heater_on :
  let p := exec Examples.switched_off_while_heating boot in
  thread p = None
  ∧ pc p = Polling
  ∧ running p = 0%nat
  ∧ (∃ o : ThreadObj,
       threads p = [o] ∧ kind o = Constant ∧ lives o = Returned
       ∧ event (obj o) = true ∧ _heater (obj o) = HEATER_ON)
  ∧ pin HEATER_GPIO (hw p) = Some LOW
  ∧ heater_powered (hw p) = true.
Proof.
  cbv zeta. split; [vm_compute; reflexivity|]. split; [vm_compute; reflexivity|].
  split; [vm_compute; reflexivity|]. split.
  - eexists. split; [vm_compute; reflexivity|]. repeat split.
  - split; vm_compute; reflexivity.
Qed.

(** When the limit is reached while the stored heater state is ON, the
    cycle ends in the NameError of [_heater_off]: the loop is not left by
    [break] and the configuration is not reset. *)
Lemma constant_expiry_heater_on_raises (i : cycle_in) (m : Machine) :
  db_up i = true →
  event (self m) = false →
  _timestamp (self m) ≠ 0 →
  0 < _duration (self m) →
  _duration (self m) ≤ (now i - _timestamp (self m)) / 60 →
  _heater (self m) = HEATER_ON →
  ∃ m', run_step Constant i m = Raise (NameError "HEATER_OFF") m'
        ∧ sql (world m') = sql (world (read_and_logged i m))
        ∧ pin (_gpio (self m)) (world m') = Some HIGH.
Proof.
  intros Hdb He Hts Hd Hm Hh. apply Z.eqb_neq in Hts.
  apply Z.ltb_lt in Hd. apply Z.leb_le in Hm.
  destruct m as [s w]. simpl in *.
  unfold ConstantMode.run_step, ConstantMode.cycle, ConstantMode.maintain,
    _read_temperatures, _log_temperatures, _heater_off.
  unfold_monad. simpl. rewrite He, Hdb. simpl. rewrite Hts. simpl.
  rewrite Hd. simpl. rewrite Hm, Hh. simpl.
  eexists. split; [reflexivity|]. split; [reflexivity|].
  unfold pin. simpl. now rewrite Z.eqb_refl.
Qed.

(** The limit reached with the stored heater state OFF: the loop is left
    by [break], the configuration reset, and no GPIO command is given. *)
Lemma constant_expiry_heater_off_breaks (i : cycle_in) (m : Machine) :
  db_up i = true →
  event (self m) = false →
  _timestamp (self m) ≠ 0 →
  0 < _duration (self m) →
  _duration (self m) ≤ (now i - _timestamp (self m)) / 60 →
  _heater (self m) = HEATER_OFF →
  ∃ m', run_step Constant i m = Ok Finished m'
        ∧ sql (world m')
          = UPDATE_config_log_0 :: UPDATE_config_mode_0
              :: sql (world (read_and_logged i m))
        ∧ gpio (world m') = gpio (world m).
Proof.
  intros Hdb He Hts Hd Hm Hh. apply Z.eqb_neq in Hts.
  apply Z.ltb_lt in Hd. apply Z.leb_le in Hm.
  destruct m as [s w]. simpl in *.
  unfold ConstantMode.run_step, ConstantMode.cycle, ConstantMode.maintain,
    _read_temperatures, _log_temperatures, reset_configuration.
  unfold_monad. simpl. rewrite He, Hdb. simpl. rewrite Hts. simpl.
  rewrite Hd. simpl. rewrite Hm, Hh. simpl.
  eexists. split; [reflexivity|]. split; reflexivity.
Qed.

(** C3 fails on the code.  After the run of C1 the operator switches the
    fermentation (20.0 for one minute) on again.  The new thread reads
    20.5, sets the attained-timestamp 2000, and at 2060, the minute over,
    leaves its loop by [break] and resets the configuration; its stored
    heater state is OFF, so it gives no GPIO command, and the heater line
    is still LOW when it returns. *)
Theorem expired_thread_leaves_heater_on :
  let p := exec Examples.switched_on_again boot in
  (∃ o : ThreadObj,
     threads p !! 1%nat = Some o ∧ kind o = Constant ∧ lives o = Returned
     ∧ _duration (obj o) = 1 ∧ _timestamp (obj o) = 2000
     ∧ _heater (obj o) = HEATER_OFF)
  ∧ running p = 0%nat
  ∧ gpio (hw p) = gpio (hw (exec Examples.switched_off_while_heating boot))
  ∧ pin HEATER_GPIO (hw p) = Some LOW
  ∧ heater_powered (hw p) = true.
Proof.
  cbv zeta. split.
  - eexists. split; [vm_compute; reflexivity|]. repeat split.
  - repeat split; vm_compute; reflexivity.
Qed.

(** ** Level progression *)

(** The bound on the iterations of the level search is never what ends
    it: any bound that reaches index 11 gives the same result. *)
Lemma scan_levels_fuel (n n' : nat) (i : Z) (row : Fermentation) (m : Machine) :
  11 ≤ i + 2 * Z.of_nat n → 11 ≤ i + 2 * Z.of_nat n' →
  GradualMode.scan_levels n i row m = GradualMode.scan_levels n' i row m.
Proof.
  revert n' i m. induction n as [|n IH]; intros n' i m Hn Hn'.
  - destruct n' as [|n']; [reflexivity|]. simpl.
    destruct (Z.ltb_spec i 11); [lia | reflexivity].
  - destruct n' as [|n']; simpl.
    + destruct (Z.ltb_spec i 11); [lia | reflexivity].
    + destruct (i <? 11); [|reflexivity].
      destruct (level_columns row i) as [[tgt dur]|]; [|reflexivity].
      cbv [mbind M_bind get_self].
      destruct tgt as [x|]; [destruct (_target (self m) <=? x)%float|];
        first [apply IH; lia | reflexivity].
Qed.

(** Whatever level the thread holds, [_get_next_level] selects level 0 of
    the row when its target is a number not below zero: the search starts
    from the working target just reset to 0. *)
Lemma next_level_is_first_level
    (i : cycle_in) (m : Machine) (row : Fermentation)
    (x : float) (d : option Z) (others : list (option float * option Z)) :
  db_up i = true →
  fetch_fermentation i = Some row →
  f_levels row = (Some x, d) :: others →
  (0 <=? x)%float = true →
  ∃ m', GradualMode._get_next_level i m = Ok true m'
        ∧ _target (self m') = x
        ∧ _duration (self m') = match d with Some n => n | None => 0 end
        ∧ _timestamp (self m') = 0
        ∧ world m' = world m.
Proof.
  intros Hdb Hrow Hlv Hx. destruct m as [s w].
  unfold GradualMode._get_next_level. unfold_monad. simpl.
  rewrite Hdb, Hrow. simpl. unfold level_columns. rewrite Hlv. simpl.
  unfold_monad. simpl. rewrite Hx. simpl.
  destruct d; simpl; eexists; (split; [reflexivity|]); repeat split.
Qed.

(** C2 fails on the code.  A gradual-mode thread holds level 0 of a
    two-level table (50.0 for 10 minutes, then 60.0 for 20 minutes) since
    time 1000.  At time 1600 the limit is reached and [_get_next_level]
    selects level 0 again: target 50.0, duration 10, although the further
    level 60.0 exists; the cycle goes on with the level already consumed.
    With a table of that one level only, no further entry exists, and
    still the thread neither commands the heater nor ends: it holds level
    0 once more. *)
Theorem next_level_reselects_consumed_level :
  let m := Examples.holding_first_level in
  let i := Examples.reading 50.2 1600 (Some Examples.mash) in
  let j := Examples.reading 50.2 1600 (Some Examples.rest) in
  (_target (self m) = 50.0%float ∧ _duration (self m) = 10
   ∧ _duration (self m) ≤ (now i - _timestamp (self m)) / 60
   ∧ level_columns Examples.mash 4 = Some (Some 60.0%float, Some 20))
  ∧ (∃ m', GradualMode._get_next_level i (read_and_logged i m) = Ok true m'
           ∧ _target (self m') = 50.0%float ∧ _duration (self m') = 10)
  ∧ (∃ m', run_step Gradual i m = Ok Running m'
           ∧ _target (self m') = 50.0%float ∧ _duration (self m') = 10
           ∧ _timestamp (self m') = 0)
  ∧ (level_columns Examples.rest 4 = Some (None, None)
     ∧ ∃ m', run_step Gradual j m = Ok Running m'
             ∧ _target (self m') = 50.0%float
             ∧ gpio (world m') = gpio (world m)).
Proof.
  cbv zeta. split; [|split; [|split]].
  - repeat split. vm_compute. discriminate.
  - eexists. split; [vm_compute; reflexivity|]. split; reflexivity.
  - eexists. split; [vm_compute; reflexivity|]. repeat split.
  - split; [reflexivity|].
    eexists. split; [vm_compute; reflexivity|]. split; reflexivity.
Qed.

(** ** The attained-timestamp *)

Lemma heat_up_switch_off (ts : Z) (m : Machine) (s0 : Sensor) rest :
  _sensors (self m) = s0 :: rest →
  (s_cur s0 <? _target (self m) - _overshoot (self m))%float = false →
  (s_cur s0 <? s_prev s0)%float = false →
  _heater (self m) = HEATER_ON →
  heat_up ts m =
  Raise (NameError "HEATER_OFF")
    (mkMachine (self m) (gpio_do (GPIO_output (_gpio (self m)) HIGH) (world m))).
Proof.
  intros Hs Hband Hfall Hh. destruct m as [s w]. simpl in *.
  unfold heat_up, sensor0, _heater_off. unfold_monad. simpl. rewrite Hs. simpl.
  rewrite Hband, Hfall, Hh. reflexivity.
Qed.

(** A climb-phase cycle that finds the heater on and a reading neither
    below target - overshoot nor below the previous reading ends in the
    NameError of [_heater_off], before line 354 is reached: the
    attained-timestamp stays 0 whatever the reading. *)
Lemma climb_switch_off_raises
    (k : mode) (i : cycle_in) (m : Machine) (s0 : Sensor) (rest : list Sensor) :
  k = Constant ∨ k = Gradual →
  db_up i = true →
  _timestamp (self m) = 0 →
  _sensors (self m) = s0 :: rest →
  (get_temperature i (s_id s0) <? _target (self m) - _overshoot (self m))%float = false →
  (get_temperature i (s_id s0) <? s_cur s0)%float = false →
  _heater (self m) = HEATER_ON →
  ∃ m', cycle k i m = Raise (NameError "HEATER_OFF") m'
        ∧ _timestamp (self m') = 0
        ∧ pin (_gpio (self m)) (world m') = Some HIGH.
Proof.
  intros Hk Hdb Hts Hs Hband Hfall Hh.
  destruct (read_and_logged_sensor0 i m s0 rest Hs) as [rest' Hs1].
  destruct (read_and_logged_frame i m)
    as (_ & Hg & Hheat & Htgt & _ & Hov & _ & Hstamp & Hgpio).
  pose proof (heat_up_switch_off (now i) (read_and_logged i m) _ rest' Hs1) as Hup.
  simpl s_cur in Hup. simpl s_prev in Hup. rewrite Htgt, Hov, Hheat in Hup.
  specialize (Hup Hband Hfall Hh).
  eexists. split.
  - destruct Hk as [-> | ->]; simpl;
      [rewrite constant_cycle_unfold by assumption
      |rewrite gradual_cycle_unfold by assumption];
      rewrite Hts; simpl;
      unfold mbind at 1; unfold M_bind;
      unfold mbind at 1; unfold M_bind;
      rewrite Hup; reflexivity.
  - cbn [self world]. split; [now rewrite Hstamp|].
    rewrite Hg. apply pin_after_output.
Qed.

(** C5 fails on the code.  A constant-mode thread (target 20.0, overshoot
    0.5) has switched the heater on at reading 18.0; the next reading is
    20.0, the first at or above the target.  The cycle ends in NameError
    and the attained-timestamp is still 0: it did not become the cycle's
    timestamp 1010. *)
Theorem timestamp_not_set_on_reaching_target :
  let m := Examples.heating_at_target in
  let i := Examples.reading 20.0 1010 (Some Examples.dough) in
  (_timestamp (self m) = 0 ∧ _heater (self m) = HEATER_ON
   ∧ (_target (self m) <=? 20.0)%float = true)
  ∧ ∃ m', run_step Constant i m = Raise (NameError "HEATER_OFF") m'
          ∧ _timestamp (self m') = 0
          ∧ _timestamp (self m') ≠ now i.
Proof.
  cbv zeta. split; [repeat split|].
  eexists. split; [vm_compute; reflexivity|]. split; [reflexivity|].
  vm_compute. discriminate.
Qed.

(** ** The state after a switch-off *)

(** A climb-phase cycle that switches the heater off ends in the NameError
    of [_heater_off] with the state as it was: line 352, which would
    follow, is a comparison ([==]) and is not reached either. *)
Lemma climb_switch_off_keeps_state
    (k : mode) (i : cycle_in) (m : Machine) (s0 : Sensor) (rest : list Sensor) :
  k = Constant ∨ k = Gradual →
  db_up i = true →
  _timestamp (self m) = 0 →
  _sensors (self m) = s0 :: rest →
  (get_temperature i (s_id s0) <? _target (self m) - _overshoot (self m))%float = false →
  (get_temperature i (s_id s0) <? s_cur s0)%float = false →
  _heater (self m) = HEATER_ON →
  ∃ m', cycle k i m = Raise (NameError "HEATER_OFF") m'
        ∧ _state (self m') = _state (self m)
        ∧ gpio (world m')
          = GPIO_output (_gpio (self m)) HIGH :: gpio (world m).
Proof.
  intros Hk Hdb Hts Hs Hband Hfall Hh.
  destruct (read_and_logged_sensor0 i m s0 rest Hs) as [rest' Hs1].
  destruct (read_and_logged_frame i m)
    as (_ & Hg & Hheat & Htgt & _ & Hov & Hstate & _ & Hgpio).
  pose proof (heat_up_switch_off (now i) (read_and_logged i m) _ rest' Hs1) as Hup.
  simpl s_cur in Hup. simpl s_prev in Hup. rewrite Htgt, Hov, Hheat in Hup.
  specialize (Hup Hband Hfall Hh).
  eexists. split.
  - destruct Hk as [-> | ->]; simpl;
      [rewrite constant_cycle_unfold by assumption
      |rewrite gradual_cycle_unfold by assumption];
      rewrite Hts; simpl;
      unfold mbind at 1; unfold M_bind;
      unfold mbind at 1; unfold M_bind;
      rewrite Hup; reflexivity.
  - cbn [self world gpio gpio_do]. split; [exact Hstate|]. now rewrite Hg, Hgpio.
Qed.

(** A maintain-phase cycle that gives the re-arm pulse ends in the
    NameError of [_heater_off] with the state as it was: the assignment of
    line 383 (559) is not reached. *)
Lemma rearm_pulse_keeps_state
    (k : mode) (i : cycle_in) (m : Machine) (s0 : Sensor) (rest : list Sensor) :
  k = Constant ∨ k = Gradual →
  db_up i = true →
  _timestamp (self m) ≠ 0 →
  _duration (self m) ≤ 0
  ∨ (now i - _timestamp (self m)) / 60 < _duration (self m) →
  _sensors (self m) = s0 :: rest →
  (get_temperature i (s_id s0) <=? _target (self m) - 0.10)%float = true →
  (get_temperature i (s_id s0) <? s_cur s0)%float = true →
  ∃ m', cycle k i m = Raise (NameError "HEATER_OFF") m'
        ∧ _state (self m') = _state (self m)
        ∧ gpio (world m')
          = GPIO_output (_gpio (self m)) HIGH :: GPIO_output (_gpio (self m)) LOW
              :: gpio (world m).
Proof.
  intros Hk Hdb Hts Hd Hs Hle Hlt.
  rewrite maintain_cycle_is_keep_on_going by assumption.
  destruct (read_and_logged_sensor0 i m s0 rest Hs) as [rest' Hs1].
  eexists. split.
  - erewrite bind_Raise; [reflexivity|].
    apply (keep_on_going_pulse _ _ rest' Hs1); assumption.
  - split; reflexivity.
Qed.

(** C6 fails on the code, on both counts.  In the dough run the third
    cycle switches the heater off in the climb phase (reading 19.6 is
    neither below 19.5 nor below the previous 18.5, the heater is on): the
    line goes HIGH, [_heater_off] raises NameError, and the state is still
    HEATING, not WAITING_FOR_PEAK.  A thread holding 20.0 whose reading
    falls from 19.95 to 19.8 gives the re-arm pulse: the line goes LOW,
    then HIGH, [_heater_off] raises NameError, and the state is still
    IDLE, not WAITING_FOR_TROUGH.  In both cases the thread is dead. *)
Theorem switch_off_and_pulse_miss_their_states :
  (let m := Examples.dough_after 2 in
   let i := Examples.reading 19.6 1020 (Some Examples.dough) in
   (_timestamp (self m) = 0 ∧ _heater (self m) = HEATER_ON
    ∧ _state (self m) = HEATING)
   ∧ ∃ m', run_step Constant i m = Raise (NameError "HEATER_OFF") m'
           ∧ gpio (world m') = GPIO_output HEATER_GPIO HIGH :: gpio (world m)
           ∧ _state (self m') = HEATING
           ∧ _state (self m') ≠ WAITING_FOR_PEAK)
  ∧ (let m := Examples.holding_target in
     let i := Examples.reading 19.8 1020 (Some Examples.dough) in
     (_timestamp (self m) = 1000 ∧ _heater (self m) = HEATER_OFF
      ∧ _state (self m) = IDLE)
     ∧ ∃ m', run_step Constant i m = Raise (NameError "HEATER_OFF") m'
             ∧ gpio (world m')
               = GPIO_output HEATER_GPIO HIGH :: GPIO_output HEATER_GPIO LOW
                   :: gpio (world m)
             ∧ _state (self m') = IDLE
             ∧ _state (self m') ≠ WAITING_FOR_TROUGH).
Proof.
  cbv zeta. split.
  - split; [repeat split; vm_compute; reflexivity|].
    eexists. split; [vm_compute; reflexivity|].
    split; [vm_compute; reflexivity|]. split; [reflexivity|]. discriminate.
  - split; [repeat split; vm_compute; reflexivity|].
    eexists. split; [vm_compute; reflexivity|].
    split; [vm_compute; reflexivity|]. split; [reflexivity|]. discriminate.
Qed.

(** ** The stored heater state *)

Section HandsOn.

Context (I : Machine → Prop).

Lemma hands_on_ret {A : Type} (a : A) : hands_on I (mret a).
Proof. intros m b m' H E. injection E as _ <-. exact H. Qed.

Lemma hands_on_raise {A : Type} (e : exn) : hands_on I (@raise A e).
Proof. intros m b m' H E. discriminate E. Qed.

Lemma hands_on_bind {A B : Type} (c : M A) (f : A → M B) :
  hands_on I c → (∀ a, hands_on I (f a)) → hands_on I (c ≫= f).
Proof.
  intros Hc Hf m b m' H E. unfold mbind, M_bind in E.
  destruct (c m) as [a m1|e m1] eqn:Ec; [|discriminate E].
  apply (Hf a m1 b m'); [|exact E]. now apply (Hc m a m1).
Qed.

Lemma hands_on_get_self : hands_on I get_self.
Proof. intros m b m' H E. injection E as _ <-. exact H. Qed.

Lemma hands_on_sensor0 : hands_on I sensor0.
Proof.
  intros m b m' H E. unfold sensor0 in E.
  destruct (_sensors (self m)); [discriminate E|]. injection E as _ <-. exact H.
Qed.

Lemma hands_on_heater_off : hands_on I _heater_off.
Proof. intros m b m' H E. rewrite heater_off_result in E. discriminate E. Qed.

Lemma hands_on_sefl_state_assign : hands_on I sefl_state_assign.
Proof. apply hands_on_raise. Qed.

Lemma hands_on_event_wait (n : Z) : hands_on I (event_wait n).
Proof. apply hands_on_ret. Qed.

End HandsOn.

Create HintDb hands.
#[local] Hint Resolve hands_on_ret hands_on_raise hands_on_get_self hands_on_sensor0
  hands_on_heater_off hands_on_sefl_state_assign hands_on_event_wait : hands.

Ltac hands_step :=
  match goal with
  | |- hands_on _ (_ ≫= _) => apply hands_on_bind; [|intros ?]
  | |- hands_on _ (if ?b then _ else _) => destruct b
  | |- hands_on _ (match ?x with _ => _ end) => destruct x
  | |- hands_on _ (let _ := _ in _) => cbv zeta
  | |- hands_on _ _ => solve [auto with hands]
  end.
Ltac hands_auto := repeat hands_step.

(** Assignments other than to [_heater] and [_gpio], and SQL statements,
    do not touch what [heater_state_sound] speaks of. *)
Lemma sound_update_self (f : Thread → Thread) :
  (∀ s, _heater (f s) = _heater s ∧ _gpio (f s) = _gpio s) →
  hands_on heater_state_sound (update_self f).
Proof.
  intros Hf m b m' H E. injection E as _ <-.
  unfold heater_state_sound in *. simpl.
  destruct (Hf (self m)) as [-> ->]. exact H.
Qed.

Lemma sound_update_sql (f : World → World) :
  (∀ w, gpio (f w) = gpio w) →
  hands_on heater_state_sound (update_world f).
Proof.
  intros Hf m b m' H E. injection E as _ <-.
  unfold heater_state_sound, pin in *. simpl. rewrite Hf. exact H.
Qed.

Lemma sound_heater_on : hands_on heater_state_sound _heater_on.
Proof.
  intros m b m' _ E. rewrite heater_on_result in E. injection E as _ <-.
  intros _. simpl. apply pin_after_output.
Qed.

#[local] Hint Resolve sound_heater_on : hands.

Ltac sound_auto :=
  repeat first
    [ hands_step
    | apply sound_update_self; intros; split; reflexivity
    | apply sound_update_sql; intros; reflexivity ].

Lemma sound_read_temperatures (i : cycle_in) :
  hands_on heater_state_sound (_read_temperatures i).
Proof. unfold _read_temperatures. sound_auto. Qed.

Lemma sound_log_temperatures (ts : Z) (i : cycle_in) :
  hands_on heater_state_sound (_log_temperatures ts i).
Proof. unfold _log_temperatures. sound_auto. Qed.

Lemma sound_heat_up (ts : Z) : hands_on heater_state_sound (heat_up ts).
Proof. unfold heat_up. sound_auto. Qed.

Lemma sound_keep_on_going : hands_on heater_state_sound keep_on_going.
Proof. unfold keep_on_going. sound_auto. Qed.

Lemma sound_reset_configuration (i : cycle_in) :
  hands_on heater_state_sound (reset_configuration i).
Proof. unfold reset_configuration. sound_auto. Qed.

Lemma sound_scan_levels (n : nat) (i : Z) (row : Fermentation) :
  hands_on heater_state_sound (GradualMode.scan_levels n i row).
Proof.
  revert i. induction n as [|n IH]; intros i; simpl; sound_auto; apply IH.
Qed.

#[local] Hint Resolve sound_read_temperatures sound_log_temperatures sound_heat_up
  sound_keep_on_going sound_reset_configuration sound_scan_levels : hands.

Lemma sound_get_next_level (i : cycle_in) :
  hands_on heater_state_sound (GradualMode._get_next_level i).
Proof. unfold GradualMode._get_next_level. sound_auto. Qed.

#[local] Hint Resolve sound_get_next_level : hands.

Lemma sound_run_step (k : mode) (i : cycle_in) :
  hands_on heater_state_sound (run_step k i).
Proof.
  destruct k; simpl;
    unfold IdleMode.run_step, ConstantMode.run_step, GradualMode.run_step,
      IdleMode.cycle, ConstantMode.cycle, GradualMode.cycle,
      ConstantMode.maintain, GradualMode.maintain, IdleMode.delete_idle_logs;
    sound_auto.
Qed.

(** *** Over the whole process *)

Lemma alive_is_referenced (p : Process) (t : nat) (o : ThreadObj) :
  referenced p → threads p !! t = Some o → is_alive o = true → thread p = Some t.
Proof. intros Href Ho Ha. apply Href. unfold thread_alive. now rewrite Ho. Qed.

Lemma threads_sound_thread_step (t : nat) (i : cycle_in) (p : Process) :
  referenced p → threads_sound p → threads_sound (thread_step t i p).
Proof.
  intros Href Hs. unfold thread_step.
  destruct (threads p !! t) as [o|] eqn:Ho; [|exact Hs].
  destruct (is_alive o) eqn:Ha; [|exact Hs].
  pose proof (alive_is_referenced p t o Href Ho Ha) as Ht.
  assert (Hlt : (t < length (threads p))%nat) by now apply lookup_lt_Some in Ho.
  assert (Hothers : ∀ u ou, u ≠ t → threads p !! u = Some ou → is_alive ou = false).
  { intros u ou Hne Hu. destruct (is_alive ou) eqn:Hau; [|reflexivity].
    pose proof (alive_is_referenced p u ou Href Hu Hau). congruence. }
  assert (Hso : heater_state_sound (mkMachine (obj o) (hw p))).
  { unfold threads_sound in Hs. rewrite Forall_lookup in Hs. now apply (Hs t o). }
  pose proof (sound_run_step (kind o) i (mkMachine (obj o) (hw p))) as Hrun.
  unfold threads_sound.
  destruct (run_step (kind o) i _) as [[|] m'|e m'] eqn:Er; simpl;
    apply Forall_lookup; intros u ou Hu Hau;
    (destruct (decide (u = t)) as [->|Hne];
     [ rewrite list_lookup_insert_eq in Hu by exact Hlt; injection Hu as <-;
       simpl in *; first [discriminate Hau | now apply (Hrun Running m')]
     | rewrite list_lookup_insert_ne in Hu by congruence;
       rewrite (Hothers u ou Hne Hu) in Hau; discriminate Hau ]).
Qed.

Lemma never_trough_thread_step (t : nat) (i : cycle_in) (p : Process) :
  never_trough p → never_trough (thread_step t i p).
Proof.
  intros Hs. unfold thread_step.
  destruct (threads p !! t) as [o|] eqn:Ho; [|exact Hs].
  destruct (is_alive o) eqn:Ha; [|exact Hs].
  assert (Hst : _state (obj o) ≠ WAITING_FOR_TROUGH).
  { unfold never_trough in Hs. rewrite Forall_lookup in Hs. now apply (Hs t o). }
  assert (Hk : keeps (λ s, _state s ≠ WAITING_FOR_TROUGH) (run_step (kind o) i)).
  { apply keeps_run_step; intros; simpl; try assumption; discriminate. }
  specialize (Hk (mkMachine (obj o) (hw p)) Hst).
  unfold never_trough.
  destruct (run_step (kind o) i _) as [[|] m'|e m']; simpl in *;
    apply Forall_insert; assumption.
Qed.

Lemma sound_set_event (b : bool) (s : Thread) (w : World) :
  heater_state_sound (mkMachine s w) → heater_state_sound (mkMachine (set_event b s) w).
Proof. intros H. exact H. Qed.

Lemma threads_sound_event_set (t : nat) (p : Process) :
  threads_sound p → threads_sound (event_set t p).
Proof.
  intros Hs. unfold event_set. destruct (threads p !! t) as [o|] eqn:Ho; [|exact Hs].
  unfold threads_sound in *. simpl. apply Forall_insert; [exact Hs|].
  simpl. rewrite Forall_lookup in Hs. intros Ha. now apply (Hs t o).
Qed.

Lemma never_trough_event_set (t : nat) (p : Process) :
  never_trough p → never_trough (event_set t p).
Proof.
  intros Hs. unfold event_set. destruct (threads p !! t) as [o|] eqn:Ho; [|exact Hs].
  unfold never_trough in *. simpl. apply Forall_insert; [exact Hs|].
  simpl. rewrite Forall_lookup in Hs. now apply (Hs t o).
Qed.

Lemma threads_sound_main_effect (p q : Process) :
  main_effect p q → referenced p → threads_sound p → threads_sound q.
Proof.
  intros Heff Href Hs.
  destruct Heff as [|e|t Ht|k s Hnew Hnone Hpc|k s e Hnew Hnone|Hpc Hdead|Hpc Hdead].
  - exact Hs.
  - exact Hs.
  - now apply (threads_sound_event_set t p).
  - unfold threads_sound, started. simpl. apply Forall_app. split; [exact Hs|].
    constructor; [|constructor]. intros _ Hon. simpl in Hon.
    destruct Hnew as (_ & Hoff & _). rewrite Hoff in Hon. discriminate Hon.
  - unfold threads_sound, started. simpl. apply Forall_app. split; [exact Hs|].
    constructor; [|constructor]. intros _ Hon. simpl in Hon.
    destruct Hnew as (_ & Hoff & _). rewrite Hoff in Hon. discriminate Hon.
  - exact Hs.
  - unfold threads_sound, quit. simpl. apply Forall_lookup. intros u ou Hu Hau.
    pose proof (alive_is_referenced p u ou Href Hu Hau) as Hr.
    specialize (Hdead u Hr). unfold thread_alive in Hdead. rewrite Hu in Hdead.
    congruence.
Qed.

Lemma never_trough_main_effect (p q : Process) :
  main_effect p q → never_trough p → never_trough q.
Proof.
  intros Heff Hs.
  destruct Heff as [|e|t Ht|k s Hnew Hnone Hpc|k s e Hnew Hnone|Hpc Hdead|Hpc Hdead];
    try exact Hs.
  - now apply (never_trough_event_set t p).
  - unfold never_trough, started. simpl. apply Forall_app. split; [exact Hs|].
    constructor; [|constructor]. simpl.
    destruct Hnew as (_ & _ & -> & _). discriminate.
  - unfold never_trough, started. simpl. apply Forall_app. split; [exact Hs|].
    constructor; [|constructor]. simpl.
    destruct Hnew as (_ & _ & -> & _). discriminate.
Qed.

Lemma signal_cases (p : Process) :
  signal p = p
  ∨ signal p = set_pc InHandler p
  ∨ ∃ t, signal p = set_pc InHandler (event_set t p).
Proof.
  unfold signal. destruct (pc p); auto; destruct (thread p); eauto.
Qed.

(** The three invariants together, along any run of the process. *)
Lemma process_invariants (es : list ev) (p : Process) :
  supervised p ∧ threads_sound p ∧ never_trough p →
  supervised (exec es p) ∧ threads_sound (exec es p) ∧ never_trough (exec es p).
Proof.
  revert p. induction es as [|e es IH]; intros p Hp; [exact Hp|].
  simpl. apply IH. destruct Hp as (Hsup & Hsound & Htr).
  split; [now apply supervised_step|].
  pose proof Hsup as (Href & _ & _).
  destruct e as [i|t i|]; simpl.
  - pose proof (main_step_effect i p) as Heff. split.
    + now apply (threads_sound_main_effect p).
    + now apply (never_trough_main_effect p).
  - split; [now apply threads_sound_thread_step|now apply never_trough_thread_step].
  - destruct (signal_cases p) as [-> | [-> | [t ->]]]; split; try assumption.
    + now apply (threads_sound_event_set t p).
    + now apply (never_trough_event_set t p).
Qed.

Lemma boot_invariants : supervised boot ∧ threads_sound boot ∧ never_trough boot.
Proof. split; [apply supervised_boot|]. split; constructor. Qed.

(** X1: in every state the process reaches, a running thread whose stored
    heater state is ON has its relay line LOW: what the thread believes
    about the heater it has switched on is true of the hardware. *)
Theorem stored_heater_state_is_sound (es : list ev) :
  Forall (λ o : ThreadObj,
            is_alive o = true → _heater (obj o) = HEATER_ON →
            pin (_gpio (obj o)) (hw (exec es boot)) = Some LOW)
         (threads (exec es boot)).
Proof.
  destruct (process_invariants es boot boot_invariants) as (_ & Hs & _).
  exact Hs.
Qed.

(** X2: in every state the process reaches, no thread object is in state
    WAITING_FOR_TROUGH: the constructors start in IDLE and the run loops
    assign HEATING and WAITING_FOR_PEAK only. *)
Theorem waiting_for_trough_is_never_entered (es : list ev) :
  Forall (λ o : ThreadObj, _state (obj o) ≠ WAITING_FOR_TROUGH)
         (threads (exec es boot)).
Proof.
  destruct (process_invariants es boot boot_invariants) as (_ & _ & Ht).
  exact Ht.
Qed.

(** ** Where the attained-timestamp changes *)

Lemma machine_of_bind_pure {A B : Type} (c : M A) (f : A → M B) (m : Machine) :
  (∀ a m1, machine_of (f a m1) = m1) →
  machine_of ((c ≫= f) m) = machine_of (c m).
Proof.
  intros Hf. unfold mbind, M_bind. destruct (c m) as [a m1|e m1]; simpl; auto.
Qed.

Lemma bind_establishes {A B : Type} (Q : Thread → Prop) (c : M A) (f : A → M B)
    (m : Machine) :
  Q (self (machine_of (c m))) → (∀ a, keeps Q (f a)) →
  Q (self (machine_of ((c ≫= f) m))).
Proof.
  intros Hc Hf. unfold mbind, M_bind. destruct (c m) as [a m1|e m1]; simpl in *.
  - now apply Hf.
  - exact Hc.
Qed.

(** What closes a cycle after its phase (the state log line and the cycle
    sleep) changes nothing. *)
Lemma cycle_tail_pure (fl : flow) (m1 : Machine) :
  machine_of (match fl with
              | Break => mret Break
              | Next => s' ← get_self; event_wait (_cycle s');; mret Next
              end m1) = m1.
Proof. destruct fl; reflexivity. Qed.

Lemma heat_up_timestamp (ts : Z) (m : Machine) :
  let m' := machine_of (heat_up ts m) in
  _timestamp (self m') = _timestamp (self m)
  ∨ (_timestamp (self m') = ts
     ∧ ∃ s0 rest, _sensors (self m) = s0 :: rest
                  ∧ (_target (self m) <=? s_cur s0)%float = true).
Proof.
  destruct m as [s w]. cbv zeta. unfold heat_up, sensor0, _heater_on, _heater_off.
  unfold_monad. simpl.
  destruct (_sensors s) as [|s0 rest] eqn:Hs; simpl; [now left|].
  destruct (s_cur s0 <? _target s - _overshoot s)%float; simpl.
  - destruct (_heater s =? HEATER_OFF); simpl;
      (destruct (_target s <=? s_cur s0)%float eqn:Hr; simpl; [right|now left]);
      (split; [reflexivity|eauto]).
  - destruct (s_cur s0 <? s_prev s0)%float; simpl.
    + destruct (_heater s =? HEATER_OFF); simpl;
        (destruct (_target s <=? s_cur s0)%float eqn:Hr; simpl; [right|now left]);
        (split; [reflexivity|eauto]).
    + destruct (_heater s =? HEATER_ON); simpl; [now left|].
      destruct (_target s <=? s_cur s0)%float eqn:Hr; simpl; [right|now left].
      split; [reflexivity|eauto].
Qed.

Lemma heat_up_completed (ts : Z) (m m' : Machine) (s0 : Sensor) rest :
  heat_up ts m = Ok tt m' →
  _sensors (self m) = s0 :: rest →
  (_target (self m) <=? s_cur s0)%float = true →
  _timestamp (self m') = ts.
Proof.
  destruct m as [s w]. unfold heat_up, sensor0, _heater_on, _heater_off.
  unfold_monad. simpl. intros H Hs Hr. rewrite Hs in H. simpl in H.
  destruct (s_cur s0 <? _target s - _overshoot s)%float; simpl in H.
  - destruct (_heater s =? HEATER_OFF); simpl in H; rewrite Hr in H;
      injection H as <-; reflexivity.
  - destruct (s_cur s0 <? s_prev s0)%float; simpl in H.
    + destruct (_heater s =? HEATER_OFF); simpl in H; rewrite Hr in H;
        injection H as <-; reflexivity.
    + destruct (_heater s =? HEATER_ON); simpl in H; [discriminate H|].
      rewrite Hr in H. injection H as <-. reflexivity.
Qed.

Lemma timestamp_kept_by_keep_on_going (t0 : Z) :
  keeps (λ s, _timestamp s = t0) keep_on_going.
Proof. apply keeps_keep_on_going; intros; assumption. Qed.

Lemma timestamp_kept_by_constant_maintain (t0 ts : Z) :
  keeps (λ s, _timestamp s = t0) (ConstantMode.maintain ts).
Proof.
  pose proof (timestamp_kept_by_keep_on_going t0).
  unfold ConstantMode.maintain. keeps_auto.
Qed.

Lemma get_next_level_clears_timestamp (i : cycle_in) (m : Machine) :
  _timestamp (self (machine_of (GradualMode._get_next_level i m))) = 0.
Proof.
  assert (Hscan : ∀ n j row, keeps (λ s, _timestamp s = 0) (GradualMode.scan_levels n j row)).
  { intros. apply keeps_scan_levels; intros; assumption. }
  assert (Hrest : keeps (λ s, _timestamp s = 0)
                    (if db_up i
                     then match fetch_fermentation i with
                          | Some row => GradualMode.scan_levels 5 2 row
                          | None => mret false
                          end
                     else raise MdbError)).
  { keeps_auto. }
  unfold GradualMode._get_next_level.
  unfold mbind at 1 2 3. unfold M_bind, update_self.
  now apply Hrest.
Qed.

Lemma gradual_maintain_timestamp (ts : Z) (i : cycle_in) (m : Machine) :
  let t1 := _timestamp (self (machine_of (GradualMode.maintain ts i m))) in
  t1 = _timestamp (self m)
  ∨ (0 < _duration (self m)
     ∧ _duration (self m) ≤ (ts - _timestamp (self m)) / 60
     ∧ t1 = 0).
Proof.
  cbv zeta.
  destruct (Z.ltb_spec 0 (_duration (self m))) as [Hd|Hd];
    [destruct (Z.leb_spec (_duration (self m)) ((ts - _timestamp (self m)) / 60))
       as [Hm|Hm]|].
  - right. split; [exact Hd|]. split; [exact Hm|].
    apply Z.ltb_lt in Hd. apply Z.leb_le in Hm.
    unfold GradualMode.maintain. unfold mbind at 1. unfold M_bind, get_self.
    rewrite Hd. cbv zeta. rewrite Hm.
    pose proof (timestamp_kept_by_keep_on_going 0).
    apply (bind_establishes (λ s, _timestamp s = 0)).
    + apply (bind_establishes (λ s, _timestamp s = 0)).
      * apply get_next_level_clears_timestamp.
      * intros more. keeps_auto.
    + intros expired. keeps_auto.
  - left. rewrite gradual_maintain_not_expired by (right; exact Hm).
    rewrite machine_of_bind_pure by reflexivity.
    now apply (timestamp_kept_by_keep_on_going (_timestamp (self m)) m).
  - left. rewrite gradual_maintain_not_expired by (left; lia).
    rewrite machine_of_bind_pure by reflexivity.
    now apply (timestamp_kept_by_keep_on_going (_timestamp (self m)) m).
Qed.

(** A cycle that cannot log ends after the reading, the timestamp as it
    was. *)
Lemma cycle_db_down (k : mode) (i : cycle_in) (m : Machine) :
  db_up i = false →
  _timestamp (self (machine_of (cycle k i m))) = _timestamp (self m).
Proof.
  intros Hdb. destruct m as [s w].
  destruct k; simpl;
    unfold IdleMode.cycle, ConstantMode.cycle, GradualMode.cycle,
      _read_temperatures, _log_temperatures;
    unfold_monad; simpl; rewrite Hdb; reflexivity.
Qed.

Lemma idle_cycle_timestamp (i : cycle_in) (m : Machine) :
  _timestamp (self (machine_of (IdleMode.cycle i m))) = _timestamp (self m).
Proof.
  destruct m as [s w].
  unfold IdleMode.cycle, _read_temperatures, _log_temperatures.
  unfold_monad. simpl. destruct (db_up i); reflexivity.
Qed.

Lemma cycle_db_down_raises (k : mode) (i : cycle_in) (m : Machine) :
  db_up i = false → ∃ m1, cycle k i m = Raise MdbError m1.
Proof.
  intros Hdb. destruct m as [s w].
  destruct k; simpl;
    unfold IdleMode.cycle, ConstantMode.cycle, GradualMode.cycle,
      _read_temperatures, _log_temperatures;
    unfold_monad; simpl; rewrite Hdb; eauto.
Qed.

(** A climb-phase cycle is [heat_up] on the machine read and logged. *)
Lemma climb_cycle_unfold (k : mode) (i : cycle_in) (m : Machine) :
  k = Constant ∨ k = Gradual →
  db_up i = true →
  _timestamp (self m) = 0 →
  cycle k i m =
  match heat_up (now i) (read_and_logged i m) with
  | Ok _ m' => Ok Next m'
  | Raise e m' => Raise e m'
  end.
Proof.
  intros Hk Hdb Hts.
  destruct Hk as [-> | ->]; simpl;
    [rewrite constant_cycle_unfold by assumption
    |rewrite gradual_cycle_unfold by assumption];
    rewrite Hts; simpl;
    unfold mbind at 1; unfold M_bind;
    unfold mbind at 1; unfold M_bind;
    destruct (heat_up (now i) (read_and_logged i m)); reflexivity.
Qed.

(** A maintain-phase cycle ends where its maintain phase ends. *)
Lemma maintain_cycle_machine (k : mode) (i : cycle_in) (m : Machine) :
  db_up i = true →
  _timestamp (self m) ≠ 0 →
  machine_of (cycle k i m) =
  match k with
  | Idle => machine_of (IdleMode.cycle i m)
  | Constant => machine_of (ConstantMode.maintain (now i) (read_and_logged i m))
  | Gradual => machine_of (GradualMode.maintain (now i) i (read_and_logged i m))
  end.
Proof.
  intros Hdb Hts. apply Z.eqb_neq in Hts.
  destruct k; simpl; [reflexivity| |].
  - rewrite constant_cycle_unfold by assumption. rewrite Hts.
    apply machine_of_bind_pure. apply cycle_tail_pure.
  - rewrite gradual_cycle_unfold by assumption. rewrite Hts.
    apply machine_of_bind_pure. apply cycle_tail_pure.
Qed.

(** X3: where the attained-timestamp changes.  Over one cycle of any
    mode, however the cycle ends: a timestamp that was 0 stays 0 or becomes
    the cycle's own timestamp, the latter only when the fresh primary
    reading is at or above the target; a timestamp that was set stays as
    it was, unless duration expiry in gradual mode calls the level advance,
    which leaves it 0.  And a climb-phase cycle of constant or gradual
    mode that completes with the reading at or above the target has set
    it. *)
Theorem timestamp_changes_only_as_described (k : mode) (i : cycle_in) (m : Machine) :
  let t0 := _timestamp (self m) in
  let t1 := _timestamp (self (machine_of (cycle k i m))) in
  let reached :=
    ∃ s0 rest, _sensors (self (read_and_logged i m)) = s0 :: rest
               ∧ (_target (self m) <=? s_cur s0)%float = true in
  let advance :=
    k = Gradual ∧ 0 < _duration (self m)
    ∧ _duration (self m) ≤ (now i - t0) / 60 in
  (t0 = 0 → t1 = 0 ∨ (t1 = now i ∧ reached))
  ∧ (t0 ≠ 0 → t1 = t0 ∨ (advance ∧ t1 = 0))
  ∧ (k ≠ Idle → t0 = 0 → reached →
     ∀ m', cycle k i m = Ok Next m' → _timestamp (self m') = now i).
Proof.
  cbv zeta.
  destruct (read_and_logged_frame i m)
    as (_ & _ & _ & Htgt & Hdur & _ & _ & Hstamp & _).
  destruct (db_up i) eqn:Hdb.
  2:{ pose proof (cycle_db_down k i m Hdb) as Hsame.
      destruct (cycle_db_down_raises k i m Hdb) as [m1 Hr].
      split; [intros H0; left; congruence|]. split; [intros _; now left|].
      intros _ _ _ m' H. rewrite Hr in H. discriminate H. }
  assert (Hk : k = Idle ∨ (k = Constant ∨ k = Gradual)) by (destruct k; auto).
  split; [|split].
  - intros H0. destruct Hk as [-> | Hk].
    + left. simpl. rewrite idle_cycle_timestamp. exact H0.
    + rewrite (climb_cycle_unfold k i m Hk Hdb H0).
      pose proof (heat_up_timestamp (now i) (read_and_logged i m)) as Hup.
      cbv zeta in Hup. rewrite Hstamp, Htgt in Hup.
      destruct (heat_up (now i) (read_and_logged i m)) as [u m'|e m']; simpl in *;
        (destruct Hup as [Hup | [Hup Hreach]]; [left; congruence|right; now split]).
  - intros H0. rewrite (maintain_cycle_machine k i m Hdb H0).
    destruct k.
    + left. apply idle_cycle_timestamp.
    + left.
      pose proof (timestamp_kept_by_constant_maintain (_timestamp (self m)) (now i)
                    (read_and_logged i m) Hstamp) as Hkeep.
      exact Hkeep.
    + pose proof (gradual_maintain_timestamp (now i) i (read_and_logged i m)) as Hg.
      cbv zeta in Hg. rewrite Hstamp, Hdur in Hg.
      destruct Hg as [Hg | (Hd & Hm & Hz)]; [now left|right].
      repeat split; assumption.
  - intros Hne H0 (s0 & rest & Hs & Hr) m' Hrun.
    destruct Hk as [-> | Hk]; [congruence|].
    rewrite (climb_cycle_unfold k i m Hk Hdb H0) in Hrun.
    destruct (heat_up (now i) (read_and_logged i m)) as [[] m2|e m2] eqn:Hup;
      [|discriminate Hrun].
    injection Hrun as <-.
    apply (heat_up_completed (now i) (read_and_logged i m) m2 s0 rest Hup Hs).
    rewrite Htgt. exact Hr.
Qed.

(** ** Idle mode *)

Lemma idle_step_leaves_gpio (i : cycle_in) (m : Machine) :
  gpio (world (machine_of (run_step Idle i m))) = gpio (world m).
Proof.
  destruct m as [s w]. simpl.
  unfold IdleMode.run_step, IdleMode.cycle, IdleMode.delete_idle_logs,
    _read_temperatures, _log_temperatures.
  unfold_monad. simpl. destruct (event s); destruct (db_up i); reflexivity.
Qed.

(** X4: an idle-mode thread never commands the heater: over any number
    of iterations of its run, however it ends, the GPIO commands issued so
    far are those issued before it started. *)
Theorem idle_mode_never_commands_heater (ins : list cycle_in) (m : Machine) :
  gpio (world (machine_of (run Idle ins m))) = gpio (world m).
Proof.
  revert m. induction ins as [|i ins IH]; intros m; [reflexivity|].
  cbn [run]. pose proof (idle_step_leaves_gpio i m) as Hstep.
  destruct (run_step Idle i m) as [[|] m'|e m']; simpl in Hstep.
  - rewrite IH. exact Hstep.
  - exact Hstep.
  - exact Hstep.
Qed.

(** ** Reading the configuration *)

Lemma state_is_item : "state" ∈ config_items.
Proof. unfold config_items. repeat first [apply list_elem_of_here | apply list_elem_of_further]. Qed.

Lemma mode_is_item : "mode" ∈ config_items.
Proof. unfold config_items. repeat first [apply list_elem_of_here | apply list_elem_of_further]. Qed.

Lemma cycle_is_item : "cycle" ∈ config_items.
Proof. unfold config_items. repeat first [apply list_elem_of_here | apply list_elem_of_further]. Qed.

Lemma log_is_item : "log" ∈ config_items.
Proof. unfold config_items. repeat first [apply list_elem_of_here | apply list_elem_of_further]. Qed.

Lemma config_item_cases (k : string) :
  k ∈ config_items → k = "state" ∨ k = "mode" ∨ k = "cycle" ∨ k = "log".
Proof.
  unfold config_items. intros Hk.
  repeat (apply elem_of_cons in Hk as [->|Hk]; [auto|]).
  now apply elem_of_nil in Hk.
Qed.

Lemma bad_row_found (item : string) (value : cell Z) (rows : list (string * cell Z))
    (e e' : exn) :
  item ∈ config_items → convert value = inl e' → e' = e →
  ∃ it, it ∈ config_items
        ∧ ((e = ValueError ∧ (it, Malformed) ∈ (item, value) :: rows)
           ∨ (e = TypeError ∧ (it, Null) ∈ (item, value) :: rows)).
Proof.
  intros Hit Hc <-. exists item. split; [exact Hit|].
  destruct value as [v| |]; simpl in Hc; [discriminate| |]; injection Hc as <-;
    [left|right]; (split; [reflexivity|apply list_elem_of_here]).
Qed.

(** [read_configuration] raises only where a row of one of its four items
    holds a value that [int] refuses. *)
Lemma read_rows_error (rows : list (string * cell Z)) (c : gmap string Z) (e : exn) :
  read_rows rows c = inl e →
  ∃ it, it ∈ config_items
        ∧ ((e = ValueError ∧ (it, Malformed) ∈ rows)
           ∨ (e = TypeError ∧ (it, Null) ∈ rows)).
Proof.
  revert c. induction rows as [|[item value] rows IH]; intros c; [discriminate|].
  assert (Hrest : ∀ c', read_rows rows c' = inl e →
            ∃ it, it ∈ config_items
                  ∧ ((e = ValueError ∧ (it, Malformed) ∈ (item, value) :: rows)
                     ∨ (e = TypeError ∧ (it, Null) ∈ (item, value) :: rows))).
  { intros c' H. destruct (IH c' H) as (it & Hit & [[-> Hin] | [-> Hin]]);
      exists it; (split; [exact Hit|]); [left|right];
      (split; [reflexivity|now apply list_elem_of_further]). }
  cbn [read_rows].
  destruct (String.eqb_spec item "state") as [->|Hs].
  { destruct value as [v| |]; cbn [convert].
    - cbv zeta. destruct (v =? FPI_STATE_OFF); [discriminate|]. apply Hrest.
    - intros H. injection H as H.
      exact (bad_row_found "state" Malformed rows e _ state_is_item eq_refl H).
    - intros H. injection H as H.
      exact (bad_row_found "state" Null rows e _ state_is_item eq_refl H). }
  destruct (String.eqb_spec item "mode") as [->|Hm].
  { destruct value as [v| |]; cbn [convert]; [apply Hrest| |]; intros H;
      injection H as H;
      [exact (bad_row_found "mode" Malformed rows e _ mode_is_item eq_refl H)
      |exact (bad_row_found "mode" Null rows e _ mode_is_item eq_refl H)]. }
  destruct (String.eqb_spec item "cycle") as [->|Hc].
  { destruct value as [v| |]; cbn [convert]; [apply Hrest| |]; intros H;
      injection H as H;
      [exact (bad_row_found "cycle" Malformed rows e _ cycle_is_item eq_refl H)
      |exact (bad_row_found "cycle" Null rows e _ cycle_is_item eq_refl H)]. }
  destruct (String.eqb_spec item "log") as [->|Hl].
  { destruct value as [v| |]; cbn [convert]; [apply Hrest| |]; intros H;
      injection H as H;
      [exact (bad_row_found "log" Malformed rows e _ log_is_item eq_refl H)
      |exact (bad_row_found "log" Null rows e _ log_is_item eq_refl H)]. }
  apply Hrest.
Qed.

Lemma read_rows_other_item (rows : list (string * cell Z)) (c config : gmap string Z)
    (k : string) :
  read_rows rows c = inr config → k ∉ config_items → config !! k = c !! k.
Proof.
  intros Hcfg Hk.
  assert (Hs : k ≠ "state") by (intros ->; apply Hk, state_is_item).
  assert (Hm : k ≠ "mode") by (intros ->; apply Hk, mode_is_item).
  assert (Hc : k ≠ "cycle") by (intros ->; apply Hk, cycle_is_item).
  assert (Hl : k ≠ "log") by (intros ->; apply Hk, log_is_item).
  revert c Hcfg. induction rows as [|[item value] rows IH]; intros c; cbn [read_rows].
  { intros H. now injection H as <-. }
  destruct (String.eqb item "state").
  { destruct value as [v| |]; cbn [convert]; [|discriminate|discriminate].
    cbv zeta. destruct (v =? FPI_STATE_OFF).
    - intros H. injection H as <-. now rewrite !lookup_insert_ne by congruence.
    - intros H. rewrite (IH _ H). now rewrite lookup_insert_ne by congruence. }
  destruct (String.eqb item "mode").
  { destruct value as [v| |]; cbn [convert]; [|discriminate|discriminate].
    intros H. rewrite (IH _ H). now rewrite lookup_insert_ne by congruence. }
  destruct (String.eqb item "cycle").
  { destruct value as [v| |]; cbn [convert]; [|discriminate|discriminate].
    intros H. rewrite (IH _ H). now rewrite lookup_insert_ne by congruence. }
  destruct (String.eqb item "log").
  { destruct value as [v| |]; cbn [convert]; [|discriminate|discriminate].
    intros H. rewrite (IH _ H). now rewrite lookup_insert_ne by congruence. }
  apply IH.
Qed.

Lemma read_rows_last_value (rows : list (string * cell Z)) (c config : gmap string Z)
    (k : string) :
  read_rows rows c = inr config →
  Forall (λ r, r ≠ ("state", Value FPI_STATE_OFF)) rows →
  k ∈ config_items →
  Value <$> config !! k =
  match last_value k rows with
  | Some cl => Some cl
  | None => Value <$> c !! k
  end.
Proof.
  intros Hcfg Hrows Hk. revert c Hcfg.
  induction rows as [|[item value] rows IH]; intros c Hcfg.
  { cbn [read_rows] in Hcfg. now injection Hcfg as <-. }
  apply Forall_cons in Hrows as [Hrow Hrows]. specialize (IH Hrows).
  assert (Hins : ∀ v, read_rows rows (<[item := v]> c) = inr config →
            Value <$> config !! k =
            match last_value k ((item, Value v) :: rows) with
            | Some cl => Some cl
            | None => Value <$> c !! k
            end).
  { intros v H. rewrite (IH _ H). cbn [last_value].
    destruct (last_value k rows); [reflexivity|].
    destruct (String.eqb_spec item k) as [->|Hne].
    - now rewrite lookup_insert_eq.
    - now rewrite lookup_insert_ne. }
  cbn [read_rows] in Hcfg.
  destruct (String.eqb_spec item "state") as [->|Hs].
  { destruct value as [v| |]; cbn [convert] in Hcfg; try discriminate Hcfg.
    cbv zeta in Hcfg.
    destruct (Z.eqb_spec v FPI_STATE_OFF) as [->|Hv]; [now destruct Hrow|].
    now apply Hins. }
  destruct (String.eqb_spec item "mode") as [->|Hm].
  { destruct value as [v| |]; cbn [convert] in Hcfg; try discriminate Hcfg.
    now apply Hins. }
  destruct (String.eqb_spec item "cycle") as [->|Hc].
  { destruct value as [v| |]; cbn [convert] in Hcfg; try discriminate Hcfg.
    now apply Hins. }
  destruct (String.eqb_spec item "log") as [->|Hl].
  { destruct value as [v| |]; cbn [convert] in Hcfg; try discriminate Hcfg.
    now apply Hins. }
  rewrite (IH _ Hcfg). cbn [last_value].
  destruct (last_value k rows); [reflexivity|].
  destruct (String.eqb_spec item k) as [->|Hne]; [|reflexivity].
  exfalso. destruct (config_item_cases k Hk) as [H | [H | [H | H]]]; congruence.
Qed.

(** X5: what [read_configuration] returns, the database reachable.  The
    dict has no entry for an item other than state, mode, cycle and log,
    whatever rows the table holds for it; and when no row says state OFF,
    each of the four items has the value of the last row of that item, and
    no entry when the table has no such row.  The function raises only
    where a row of one of the four items holds a value that [int] refuses:
    ValueError for a text that is no integer, TypeError for NULL. *)
Theorem read_configuration_last_row_wins
    (rows : list (string * cell Z)) (c : init_in) (k : string) :
  match read_configuration (mkPollIn true rows c) with
  | inr config =>
      (k ∉ config_items → config !! k = None)
      ∧ (Forall (λ r, r ≠ ("state", Value FPI_STATE_OFF)) rows →
         k ∈ config_items →
         Value <$> config !! k = last_value k rows)
  | inl e =>
      ∃ it, it ∈ config_items
            ∧ ((e = ValueError ∧ (it, Malformed) ∈ rows)
               ∨ (e = TypeError ∧ (it, Null) ∈ rows))
  end.
Proof.
  unfold read_configuration. cbn [poll_db_up config_rows].
  destruct (read_rows rows ∅) as [e|config] eqn:Hcfg.
  - now apply (read_rows_error rows ∅).
  - split.
    + intros Hk. now rewrite (read_rows_other_item rows ∅ config k Hcfg Hk).
    + intros Hrows Hk. rewrite (read_rows_last_value rows ∅ config k Hcfg Hrows Hk).
      now destruct (last_value k rows).
Qed.

Lemma read_rows_state_off (rows : list (string * cell Z)) (c config : gmap string Z) :
  c !! "state" ≠ Some FPI_STATE_OFF →
  read_rows rows c = inr config →
  config !! "state" = Some FPI_STATE_OFF →
  config !! "mode" = Some FPI_MODE_IDLE
  ∧ config !! "cycle" = Some 10
  ∧ config !! "log" = Some 0.
Proof.
  revert c. induction rows as [|[item value] rows IH]; intros c Hc; cbn [read_rows].
  { intros H. injection H as <-. congruence. }
  destruct (String.eqb_spec item "state") as [->|Hs].
  { destruct value as [v| |]; cbn [convert]; [|discriminate|discriminate].
    cbv zeta. destruct (Z.eqb_spec v FPI_STATE_OFF) as [->|Hv].
    - intros H _. injection H as <-. split; [|split].
      + rewrite !lookup_insert_ne by discriminate. apply lookup_insert_eq.
      + rewrite lookup_insert_ne by discriminate. apply lookup_insert_eq.
      + apply lookup_insert_eq.
    - apply IH. rewrite lookup_insert_eq. congruence. }
  destruct (String.eqb_spec item "mode") as [->|Hm].
  { destruct value as [v| |]; cbn [convert]; [|discriminate|discriminate].
    apply IH. now rewrite lookup_insert_ne by discriminate. }
  destruct (String.eqb_spec item "cycle") as [->|Hcy].
  { destruct value as [v| |]; cbn [convert]; [|discriminate|discriminate].
    apply IH. now rewrite lookup_insert_ne by discriminate. }
  destruct (String.eqb_spec item "log") as [->|Hl].
  { destruct value as [v| |]; cbn [convert]; [|discriminate|discriminate].
    apply IH. now rewrite lookup_insert_ne by discriminate. }
  now apply IH.
Qed.

(** X6: a configuration read as state OFF is always the idle one: mode
    IDLE, cycle 10 and log 0, whatever the table's other rows say, before
    or after the state row.  And [read_configuration] raises [mdb.Error]
    exactly when the database is unreachable; with the database reachable
    it raises nothing but the ValueError or TypeError of [int]. *)
Theorem read_configuration_off_is_idle (i : poll_in) :
  match read_configuration i with
  | inr config =>
      poll_db_up i = true
      ∧ match config !! "state" with
        | Some state =>
            if state =? FPI_STATE_OFF then
              config !! "mode" = Some FPI_MODE_IDLE
              ∧ config !! "cycle" = Some 10
              ∧ config !! "log" = Some 0
            else True
        | None => True
        end
  | inl e =>
      (e = MdbError ∧ poll_db_up i = false)
      ∨ ((e = ValueError ∨ e = TypeError) ∧ poll_db_up i = true)
  end.
Proof.
  unfold read_configuration. destruct (poll_db_up i); [|left; now split].
  destruct (read_rows (config_rows i) ∅) as [e|config] eqn:Hcfg.
  - right. split; [|reflexivity].
    destruct (read_rows_error _ _ _ Hcfg) as (it & _ & [[-> _] | [-> _]]); auto.
  - split; [reflexivity|].
    destruct (config !! "state") as [state|] eqn:Hst; [|exact I].
    destruct (Z.eqb_spec state FPI_STATE_OFF) as [->|Hne]; [|exact I].
    apply (read_rows_state_off (config_rows i) ∅ config); [|exact Hcfg|exact Hst].
    rewrite lookup_empty. discriminate.
Qed.

(** ** Passes of the main loop *)

Lemma main_step_polling (i : poll_in) (p : Process) :
  pc p = Polling → main_step i p = poll i p.
Proof. intros H. unfold main_step. now rewrite H. Qed.

Lemma running_started (k : mode) (s : Thread) (p : Process) :
  running (started k s p) = S (running p).
Proof.
  unfold running, started. cbn [threads]. rewrite filter_app, length_app.
  simpl. lia.
Qed.

Lemma running_sleep_cycle (config : gmap string Z) (p : Process) :
  running (sleep_cycle config p) = running p.
Proof.
  destruct (sleep_cycle_effect config p) as [-> | [-> | ->]]; reflexivity.
Qed.

(** X7: a pass of the main loop whose configuration lacks a key it reads
    ends [main] with KeyError: item state when the table has no state row;
    item mode, or log for constant and gradual mode, when a thread is to
    be started.  And a pass that starts a thread, of whichever mode,
    leaves one more thread running and goes on to the final [sleep]:
    there [main] ends with KeyError when item cycle is missing, and with
    the error of [sleep] when the cycle is negative -- the thread just
    started runs on with [main] gone. *)
Theorem main_pass_missing_key
    (i : poll_in) (config : gmap string Z) (p : Process) :
  pc p = Polling →
  read_configuration i = inr config →
  (config !! "state" = None →
   main_step i p = set_pc (Stopped (KeyError "state")) p)
  ∧ (config !! "state" = Some FPI_STATE_ON → thread p = None →
     config !! "mode" = None →
     main_step i p = set_pc (Stopped (KeyError "mode")) p)
  ∧ (config !! "state" = Some FPI_STATE_ON → thread p = None →
     config !! "mode" = Some FPI_MODE_CONSTANT
     ∨ config !! "mode" = Some FPI_MODE_GRADUAL →
     config !! "log" = None →
     main_step i p = set_pc (Stopped (KeyError "log")) p)
  ∧ (∀ (k : mode) (s : Thread),
       config !! "state" = Some FPI_STATE_ON → thread p = None →
       (k = Idle ∧ config !! "mode" = Some FPI_MODE_IDLE
        ∧ IdleMode_init 0 0 (ctor i) = inr s)
       ∨ (k = Constant ∧ config !! "mode" = Some FPI_MODE_CONSTANT
          ∧ ∃ id, config !! "log" = Some id
                  ∧ ConstantMode_init id HEATER_GPIO (ctor i) = inr s)
       ∨ (k = Gradual ∧ config !! "mode" = Some FPI_MODE_GRADUAL
          ∧ ∃ id, config !! "log" = Some id
                  ∧ GradualMode_init id HEATER_GPIO (ctor i) = inr s) →
       running (main_step i p) = S (running p)
       ∧ main_step i p
         = match config !! "cycle" with
           | None => set_pc (Stopped (KeyError "cycle")) (started k s p)
           | Some c =>
               if c <? 0 then set_pc (Stopped IOError) (started k s p)
               else started k s p
           end).
Proof.
  intros Hpc Hcfg. rewrite (main_step_polling i p Hpc). unfold poll. rewrite Hcfg.
  split; [|split; [|split]].
  - intros ->. reflexivity.
  - intros -> -> ->. reflexivity.
  - intros -> -> [-> | ->] ->; reflexivity.
  - intros k s -> -> Hk.
    assert (Hstart : ∀ made, made = inr s →
              running (start_thread k made config p) = S (running p)
              ∧ start_thread k made config p
                = match config !! "cycle" with
                  | None => set_pc (Stopped (KeyError "cycle")) (started k s p)
                  | Some c =>
                      if c <? 0 then set_pc (Stopped IOError) (started k s p)
                      else started k s p
                  end).
    { intros made ->. unfold start_thread. split.
      - now rewrite running_sleep_cycle, running_started.
      - reflexivity. }
    destruct Hk as [(-> & -> & Hs) | [(-> & -> & id & -> & Hs)
                                     | (-> & -> & id & -> & Hs)]];
      simpl; now apply Hstart.
Qed.

(** Witness of X7: the table switches constant mode on and holds no cycle
    row; the thread is started and [main] ends at the [sleep]. *)
Lemma main_pass_missing_key_witness :
  let i := mkPollIn true
             [("state", Value FPI_STATE_ON); ("mode", Value FPI_MODE_CONSTANT);
              ("log", Value 7)]
             (Examples.settings Examples.dough) in
  running (main_step i boot) = 1%nat
  ∧ main_step i boot
    = set_pc (Stopped (KeyError "cycle"))
        (started Constant (self Examples.dough_start) boot).
Proof.
  cbv zeta.
  destruct (main_pass_missing_key
              (mkPollIn true
                 [("state", Value FPI_STATE_ON); ("mode", Value FPI_MODE_CONSTANT);
                  ("log", Value 7)]
                 (Examples.settings Examples.dough))
              (<["log" := 7]> (<["mode" := FPI_MODE_CONSTANT]>
                                 (<["state" := FPI_STATE_ON]> ∅)))
              boot eq_refl eq_refl) as (_ & _ & _ & H).
  apply (H Constant (self Examples.dough_start)); [reflexivity|reflexivity|].
  right. left. split; [reflexivity|]. split; [reflexivity|].
  exists 7. split; reflexivity.
Defined.

(** X8: the passes of the main loop that start and stop nothing.  Given
    the configuration holds a cycle, a pass leaves the process as it is,
    or, when that cycle is negative, only ends [main] with the error of
    the final [sleep], in each of these cases: a state that is neither OFF
    nor ON; state OFF with no thread referenced; state ON with a mode that
    is none of the three; and state ON while a thread is referenced, alive
    or not, so that a thread that has died or returned on its own is not
    replaced before the state has been OFF. *)
Theorem main_pass_without_effect
    (i : poll_in) (config : gmap string Z) (c : Z) (p : Process) :
  pc p = Polling →
  read_configuration i = inr config →
  config !! "cycle" = Some c →
  let after := if c <? 0 then set_pc (Stopped IOError) p else p in
  (∀ state, config !! "state" = Some state →
            state ≠ FPI_STATE_OFF → state ≠ FPI_STATE_ON →
            main_step i p = after)
  ∧ (config !! "state" = Some FPI_STATE_OFF → thread p = None →
     main_step i p = after)
  ∧ (∀ m, config !! "state" = Some FPI_STATE_ON → thread p = None →
          config !! "mode" = Some m →
          m ≠ FPI_MODE_IDLE → m ≠ FPI_MODE_CONSTANT → m ≠ FPI_MODE_GRADUAL →
          main_step i p = after)
  ∧ (config !! "state" = Some FPI_STATE_ON → is_Some (thread p) →
     main_step i p = after).
Proof.
  intros Hpc Hcfg Hcy. cbv zeta. rewrite (main_step_polling i p Hpc).
  unfold poll. rewrite Hcfg.
  assert (Hsleep : sleep_cycle config p
                   = if c <? 0 then set_pc (Stopped IOError) p else p)
    by (unfold sleep_cycle; now rewrite Hcy).
  split; [|split; [|split]].
  - intros state -> Hoff Hon.
    apply Z.eqb_neq in Hoff, Hon. now rewrite Hoff, Hon.
  - intros -> ->. exact Hsleep.
  - intros m -> -> -> Hi Hc Hg.
    apply Z.eqb_neq in Hi, Hc, Hg. simpl. now rewrite Hi, Hc, Hg.
  - intros -> [t ->]. exact Hsleep.
Qed.

(** Witness of X8: the dough thread has died of the NameError; the next
    pass, the state still ON, leaves everything as it is. *)
Lemma main_pass_without_effect_witness :
  let p := exec Examples.died_heating boot in
  let i := mkPollIn true (Examples.config_on FPI_MODE_CONSTANT 7)
             (Examples.settings Examples.dough) in
  (running p = 0%nat ∧ thread p = Some 0%nat)
  ∧ main_step i p = p.
Proof.
  cbv zeta. split; [split; vm_compute; reflexivity|].
  destruct (main_pass_without_effect
              (mkPollIn true (Examples.config_on FPI_MODE_CONSTANT 7)
                 (Examples.settings Examples.dough))
              (<["log" := 7]> (<["cycle" := 10]>
                 (<["mode" := FPI_MODE_CONSTANT]> (<["state" := FPI_STATE_ON]> ∅))))
              10
              (exec Examples.died_heating boot)
              ltac:(vm_compute; reflexivity) eq_refl eq_refl) as (_ & _ & _ & H).
  apply H; [reflexivity|]. exists 0%nat. vm_compute. reflexivity.
Defined.

(** A cycle value that [int] refuses ends [main] with ValueError, raised
    in [read_configuration] inside the [try], which catches [mdb.Error]
    only; a negative cycle ends it at the [sleep]; and a value of config
    item cycle that the constructor cannot convert ends it in the
    constructor. *)
Lemma bad_cycle_stops_main :
  main_step (mkPollIn true [("state", Value FPI_STATE_ON); ("cycle", Malformed)]
               (Examples.settings Examples.dough)) boot
  = set_pc (Stopped ValueError) boot
  ∧ main_step (mkPollIn true [("state", Value 7); ("cycle", Value (-1))]
                 (Examples.settings Examples.dough)) boot
    = set_pc (Stopped IOError) boot
  ∧ main_step (mkPollIn true (Examples.config_on FPI_MODE_CONSTANT 7)
                 (mkInitIn true Examples.one_sensor (Some Examples.dough)
                    (Some (Value 0.5%float)) (Some Malformed))) boot
    = set_pc (Stopped ValueError) boot.
Proof. repeat split. Qed.

(** ** The main thread and the hardware *)

Lemma hw_event_set (t : nat) (p : Process) : hw (event_set t p) = hw p.
Proof. unfold event_set. now destruct (threads p !! t). Qed.

(** X9: the main loop itself commands nothing: a step of the main thread
    outside the signal handler leaves the GPIO commands and the SQL
    statements issued so far as they are, and so does the arrival of a
    signal; in the handler a step adds no SQL statement and at most
    [heater_off()] and [GPIO.cleanup()]. *)
Theorem main_loop_commands_nothing (i : poll_in) (p : Process) :
  (pc p ≠ InHandler → hw (main_step i p) = hw p)
  ∧ hw (signal p) = hw p
  ∧ sql (hw (main_step i p)) = sql (hw p)
  ∧ (gpio (hw (main_step i p)) = gpio (hw p)
     ∨ gpio (hw (main_step i p))
       = GPIO_cleanup :: GPIO_output HEATER_GPIO HIGH :: gpio (hw p)).
Proof.
  assert (Hsig : hw (signal p) = hw p).
  { destruct (signal_cases p) as [-> | [-> | [t ->]]];
      [reflexivity|reflexivity|]. simpl. apply hw_event_set. }
  destruct (main_step_effect i p)
    as [|e|t Ht|k s Hnew Hnone Hpc|k s e Hnew Hnone|Hpc Hdead|Hpc Hdead];
    simpl; rewrite ?hw_event_set; auto.
  split; [intros H; congruence|]. auto.
Qed.

(** *** Shutdown by signal *)

Lemma init_sensors_error (avail : list (string * option Z)) (acc : list Sensor) (e : exn) :
  init_sensors avail acc = inl e → e = TypeError.
Proof.
  revert acc. induction avail as [|[name [sid|]] avail IH]; intros acc; simpl.
  - discriminate.
  - apply IH.
  - intros H. now injection H as <-.
Qed.

Lemma mode_init_error (id port : Z) (x : init_in) (e : exn) :
  IdleMode_init id port x = inl e
  ∨ ConstantMode_init id port x = inl e
  ∨ GradualMode_init id port x = inl e →
  e = MdbError ∨ e = TypeError ∨ e = IndexError ∨ e = ValueError.
Proof.
  assert (Hbase : ∀ e', FermentationThread_init id port x = inl e' →
                        e' = MdbError ∨ e' = TypeError).
  { intros e'. unfold FermentationThread_init.
    destruct (init_db_up x); [|intros H; injection H as <-; now left].
    destruct (init_sensors _ _) eqn:Hs; [|discriminate].
    intros H. injection H as <-. right. now apply init_sensors_error in Hs. }
  assert (Hload : ∀ s e', load_settings x s = inl e' →
                          e' = TypeError ∨ e' = IndexError ∨ e' = ValueError).
  { intros s e'. unfold load_settings.
    destruct (init_fermentation x) as [row|];
      [destruct (f_levels row !! 0%nat) as [[tgt dur]|]|];
      destruct (config_overshoot x) as [[o| |]|], (config_cycle x) as [[c| |]|];
      simpl; intros H; try discriminate H; injection H as <-; auto. }
  unfold IdleMode_init, ConstantMode_init, GradualMode_init.
  intros [H | [H | H]].
  - destruct (Hbase e H); auto.
  - destruct (FermentationThread_init id port x) as [e'|s] eqn:Hb.
    + injection H as <-. destruct (Hbase e' eq_refl); auto.
    + apply Hload in H. destruct H as [-> | [-> | ->]]; auto.
  - destruct (FermentationThread_init id port x) as [e'|s] eqn:Hb.
    + injection H as <-. destruct (Hbase e' eq_refl); auto.
    + apply Hload in H. destruct H as [-> | [-> | ->]]; auto.
Qed.

Lemma poll_never_exits (i : poll_in) (p : Process) (code : Z) :
  pc p = Polling → pc (poll i p) ≠ Stopped (SystemExit code).
Proof.
  intros Hpc.
  assert (Hleave : ∀ e, (∀ c, e ≠ SystemExit c) →
                        pc (leave_try e p) ≠ Stopped (SystemExit code)).
  { intros e He. destruct e; simpl; try discriminate. intros H. now apply (He code0). }
  assert (Hsleep : ∀ config q, pc q = Polling →
                               pc (sleep_cycle config q) ≠ Stopped (SystemExit code)).
  { intros config q Hq.
    destruct (sleep_cycle_effect config q) as [-> | [-> | ->]];
      [rewrite Hq| |]; discriminate. }
  assert (Hstart : ∀ k made config,
            (∀ e, made = inl e →
                  e = MdbError ∨ e = TypeError ∨ e = IndexError ∨ e = ValueError) →
            pc (start_thread k made config p) ≠ Stopped (SystemExit code)).
  { intros k made config Hmade. unfold start_thread. destruct made as [e|s].
    - apply Hleave. intros c ->.
      destruct (Hmade _ eq_refl) as [H | [H | [H | H]]]; discriminate H.
    - apply Hsleep. exact Hpc. }
  unfold poll.
  destruct (read_configuration i) as [e|config] eqn:Hcfg.
  { apply Hleave. intros c ->.
    unfold read_configuration in Hcfg. destruct (poll_db_up i); [|discriminate].
    destruct (read_rows_error _ _ _ Hcfg) as (it & _ & [[H _] | [H _]]);
      discriminate H. }
  destruct (config !! "state") as [state|]; [|apply Hleave; discriminate].
  destruct (state =? FPI_STATE_OFF).
  { destruct (thread p); [simpl; discriminate|now apply Hsleep]. }
  destruct (state =? FPI_STATE_ON); [|now apply Hsleep].
  destruct (thread p); [now apply Hsleep|].
  destruct (config !! "mode") as [m|]; [|apply Hleave; discriminate].
  destruct (m =? FPI_MODE_IDLE).
  { apply Hstart. intros e He. apply (mode_init_error 0 0 (ctor i)). auto. }
  destruct (m =? FPI_MODE_CONSTANT).
  { destruct (config !! "log") as [id|]; [|apply Hleave; discriminate].
    apply Hstart. intros e He. apply (mode_init_error id HEATER_GPIO (ctor i)). auto. }
  destruct (m =? FPI_MODE_GRADUAL); [|now apply Hsleep].
  destruct (config !! "log") as [id|]; [|apply Hleave; discriminate].
  apply Hstart. intros e He. apply (mode_init_error id HEATER_GPIO (ctor i)). auto.
Qed.

Lemma running_zero_iff (p : Process) :
  running p = 0%nat ↔ ∀ t, thread_alive t p = false.
Proof.
  unfold running, thread_alive. split.
  - intros H t. destruct (threads p !! t) as [o|] eqn:Ho; [|reflexivity].
    destruct (is_alive o) eqn:Ha; [|reflexivity].
    apply length_zero_iff_nil in H.
    assert (Hin : o ∈ filter (λ o, is_alive o = true) (threads p)).
    { apply list_elem_of_filter. split; [exact Ha|].
      apply list_elem_of_lookup. eauto. }
    rewrite H in Hin. now apply not_elem_of_nil in Hin.
  - intros H. rewrite filter_alive_nil; [reflexivity|].
    intros j o Hj. specialize (H j). now rewrite Hj in H.
Qed.

Lemma thread_step_none_alive (t : nat) (i : cycle_in) (p : Process) :
  (∀ u, thread_alive u p = false) → thread_step t i p = p.
Proof.
  intros H. unfold thread_step. specialize (H t). unfold thread_alive in H.
  destruct (threads p !! t) as [o|]; [|reflexivity]. now rewrite H.
Qed.

Lemma running_quit (p : Process) : running (quit p) = running p.
Proof. reflexivity. Qed.

Lemma handler_finishes (p : Process) :
  supervised p → pc p = InHandler →
  on_exit_finish p = if Nat.eqb (running p) 0 then quit p else p.
Proof.
  intros (Href & _ & _) Hpc. unfold on_exit_finish.
  destruct (thread p) as [t|] eqn:Ht.
  - destruct (thread_alive t p) eqn:Ha.
    + destruct (Nat.eqb (running p) 0) eqn:Hr; [|reflexivity].
      apply Nat.eqb_eq in Hr.
      pose proof (proj1 (running_zero_iff p) Hr t) as Hd. congruence.
    + rewrite (proj2 (running_zero_iff p)); [reflexivity|].
      intros u. destruct (thread_alive u p) eqn:Hu; [|reflexivity].
      pose proof (Href u Hu) as Hu'. congruence.
  - now rewrite (unreferenced_none_running p Href Ht).
Qed.

(** The process after [sys.exit(0)]: the reference is empty, no thread
    runs, and the last two GPIO commands were [heater_off()] and
    [GPIO.cleanup()]. *)
Lemma exit_invariant (es : list ev) (p : Process) :
  supervised p →
  (∀ code, pc p = Stopped (SystemExit code) →
           code = 0 ∧ thread p = None ∧ running p = 0%nat
           ∧ ∃ ops, gpio (hw p) = GPIO_cleanup :: GPIO_output HEATER_GPIO HIGH :: ops) →
  ∀ code, pc (exec es p) = Stopped (SystemExit code) →
          code = 0 ∧ thread (exec es p) = None ∧ running (exec es p) = 0%nat
          ∧ ∃ ops, gpio (hw (exec es p))
                   = GPIO_cleanup :: GPIO_output HEATER_GPIO HIGH :: ops.
Proof.
  revert p. induction es as [|e es IH]; intros p Hsup Hp; [exact Hp|].
  simpl. apply IH; [now apply supervised_step|].
  intros code Hpc. destruct e as [i|t i|]; simpl in *.
  - unfold main_step in *. destruct (pc p) eqn:Hq.
    + now apply poll_never_exits in Hpc.
    + unfold join_loop in *. destruct (thread p) as [t|].
      * destruct (thread_alive t p); [congruence|discriminate Hpc].
      * discriminate Hpc.
    + rewrite (handler_finishes p Hsup Hq) in *.
      destruct (Nat.eqb (running p) 0) eqn:Hr; [|congruence].
      apply Nat.eqb_eq in Hr. simpl in Hpc. injection Hpc as <-.
      rewrite running_quit. repeat split; [exact Hr|]. simpl. eauto.
    + apply Hp. congruence.
  - destruct (thread_step_frame t i p) as (_ & Hpc' & _). rewrite Hpc' in Hpc.
    destruct (Hp code Hpc) as (Hc & Ht & Hr & Hg).
    rewrite thread_step_none_alive; [auto|]. now apply running_zero_iff.
  - unfold signal in *. destruct (pc p) eqn:Hq;
      try (destruct (thread p); discriminate Hpc).
    apply Hp. congruence.
Qed.

(** X10: shutdown by signal.  Along any run of the process from the start
    of [main]: while the main thread is in [on_exit], its next step
    finishes the handler exactly when no thread runs any more, and
    otherwise waits; and once the process has left by [SystemExit] the
    exit code is 0, the global [thread] is [None], no thread runs, the
    last two GPIO commands are [heater_off()] and [GPIO.cleanup()] --
    nothing has touched the lines since -- and nothing that happens
    afterwards changes the process. *)
Theorem signal_handler_shuts_down (es : list ev) :
  match pc (exec es boot) with
  | InHandler =>
      ∀ i, main_step i (exec es boot)
           = if Nat.eqb (running (exec es boot)) 0
             then quit (exec es boot) else exec es boot
  | Stopped (SystemExit code) =>
      code = 0 ∧ thread (exec es boot) = None ∧ running (exec es boot) = 0%nat
      ∧ (∃ ops, gpio (hw (exec es boot))
                = GPIO_cleanup :: GPIO_output HEATER_GPIO HIGH :: ops)
      ∧ ∀ e, step e (exec es boot) = exec es boot
  | _ => True
  end.
Proof.
  pose proof (supervised_exec es boot supervised_boot) as Hsup.
  pose proof (exit_invariant es boot supervised_boot) as Hexit.
  destruct (pc (exec es boot)) as [| | |e] eqn:Hpc; try exact I.
  - intros i. unfold main_step. rewrite Hpc. now apply handler_finishes.
  - destruct e; try exact I.
    destruct (Hexit ltac:(intros c H; discriminate H) code eq_refl)
      as (Hc & Ht & Hr & Hg).
    repeat split; try assumption.
    intros [i|t i|]; simpl.
    + unfold main_step. now rewrite Hpc.
    + apply thread_step_none_alive. now apply running_zero_iff.
    + unfold signal. now rewrite Hpc.
Qed.

(** ** A thread during a database outage *)

(** X11: a step of [run] while the database is unreachable.  In every
    mode the step raises [mdb.Error]: in the loop at [_log_temperatures],
    right after the sensors were read, and in the epilogue of a cancelled
    thread at its [mdb.connect].  No handler is in [run], so the thread
    dies; it has given no GPIO command and issued no SQL statement, and
    but for the sensor readings the thread object is as it was: a heater
    that was on stays on. *)
Theorem outage_kills_thread (k : mode) (get : string → float) (ts : Z)
    (row : option Fermentation) (m : Machine) :
  let i := mkCycleIn get ts false row in
  run_step k i m
  = Raise MdbError (if event (self m) then m else machine_of (_read_temperatures i m))
  ∧ world (machine_of (run_step k i m)) = world m
  ∧ _heater (self (machine_of (run_step k i m))) = _heater (self m)
  ∧ _timestamp (self (machine_of (run_step k i m))) = _timestamp (self m).
Proof.
  destruct m as [s w]. cbv zeta.
  destruct k; simpl;
    unfold IdleMode.run_step, ConstantMode.run_step, GradualMode.run_step,
      IdleMode.cycle, ConstantMode.cycle, GradualMode.cycle,
      IdleMode.delete_idle_logs, reset_configuration,
      _read_temperatures, _log_temperatures;
    unfold_monad; simpl; destruct (event s); simpl; repeat split; reflexivity.
Qed.

(** ** How a statement ends *)

Section Ends.

Context (I : Machine → Prop) (E : exn → Machine → Prop).

Lemma ends_in_ret {A : Type} (a : A) : ends_in I E (mret a).
Proof. intros m H. exact H. Qed.

Lemma ends_in_raise {A : Type} (e : exn) :
  (∀ m, I m → E e m) → ends_in I E (@raise A e).
Proof. intros He m H. now apply He. Qed.

Lemma ends_in_bind {A B : Type} (c : M A) (f : A → M B) :
  ends_in I E c → (∀ a, ends_in I E (f a)) → ends_in I E (c ≫= f).
Proof.
  intros Hc Hf m H. unfold mbind, M_bind.
  specialize (Hc m H). destruct (c m) as [a m'|e m'].
  - now apply Hf.
  - exact Hc.
Qed.

Lemma ends_in_get_self : ends_in I E get_self.
Proof. intros m H. exact H. Qed.

Lemma ends_in_event_wait (n : Z) : ends_in I E (event_wait n).
Proof. apply ends_in_ret. Qed.

Lemma ends_in_update_self (f : Thread → Thread) :
  (∀ m, I m → I (mkMachine (f (self m)) (world m))) → ends_in I E (update_self f).
Proof. intros Hf m H. now apply Hf. Qed.

Lemma ends_in_update_world (f : World → World) :
  (∀ m, I m → I (mkMachine (self m) (f (world m)))) → ends_in I E (update_world f).
Proof. intros Hf m H. now apply Hf. Qed.

End Ends.

Create HintDb ends.
#[local] Hint Resolve ends_in_ret ends_in_get_self ends_in_event_wait : ends.

Ltac ends_step :=
  match goal with
  | |- ends_in _ _ (_ ≫= _) => apply ends_in_bind; [|intros ?]
  | |- ends_in _ _ (if ?b then _ else _) => destruct b
  | |- ends_in _ _ (match ?x with _ => _ end) => destruct x
  | |- ends_in _ _ (let _ := _ in _) => cbv zeta
  | |- ends_in _ _ _ => solve [auto with ends]
  end.

(** What holds of the reading, the logging, the two heater methods, the
    assignments of the run loops and the epilogues, holds of every step of
    every mode and of every run. *)
Section RunEnds.

Context (I : Machine → Prop) (E : exn → Machine → Prop).
Hypothesis E_other : ∀ e m, I m → e ≠ NameError "HEATER_OFF" → E e m.
Hypothesis I_read : ∀ i, ends_in I E (_read_temperatures i).
Hypothesis I_log : ∀ ts i, ends_in I E (_log_temperatures ts i).
Hypothesis I_on : ends_in I E _heater_on.
Hypothesis I_off : ends_in I E _heater_off.
Hypothesis I_state : ∀ x m, I m → I (mkMachine (set_state x (self m)) (world m)).
Hypothesis I_timestamp : ∀ x m, I m → I (mkMachine (set_timestamp x (self m)) (world m)).
Hypothesis I_target : ∀ x m, I m → I (mkMachine (set_target x (self m)) (world m)).
Hypothesis I_duration : ∀ x m, I m → I (mkMachine (set_duration x (self m)) (world m)).
Hypothesis I_reset : ∀ i, ends_in I E (reset_configuration i).
Hypothesis I_delete : ∀ i, ends_in I E (IdleMode.delete_idle_logs i).

Ltac run_ends :=
  repeat first
    [ ends_step
    | assumption
    | apply ends_in_update_self; intros;
      first [ apply I_state | apply I_timestamp | apply I_target | apply I_duration ];
      assumption
    | apply ends_in_raise; intros; apply E_other; [assumption|discriminate] ].

Lemma ends_sensor0 : ends_in I E sensor0.
Proof.
  intros m H. unfold sensor0. destruct (_sensors (self m)); [|exact H].
  apply E_other; [exact H|discriminate].
Qed.

Lemma ends_sefl_state_assign : ends_in I E sefl_state_assign.
Proof. intros m H. apply E_other; [exact H|discriminate]. Qed.

Lemma ends_heat_up (ts : Z) : ends_in I E (heat_up ts).
Proof. pose proof ends_sensor0. unfold heat_up. run_ends. Qed.

Lemma ends_keep_on_going : ends_in I E keep_on_going.
Proof. pose proof ends_sensor0. unfold keep_on_going. run_ends. Qed.

Lemma ends_scan_levels (n : nat) (i : Z) (row : Fermentation) :
  ends_in I E (GradualMode.scan_levels n i row).
Proof.
  revert i. induction n as [|n IH]; intros i; simpl; run_ends; apply IH.
Qed.

Lemma ends_get_next_level (i : cycle_in) :
  ends_in I E (GradualMode._get_next_level i).
Proof.
  pose proof ends_scan_levels. unfold GradualMode._get_next_level. run_ends.
Qed.

Lemma ends_constant_maintain (ts : Z) : ends_in I E (ConstantMode.maintain ts).
Proof.
  pose proof ends_keep_on_going. pose proof ends_sefl_state_assign.
  unfold ConstantMode.maintain. run_ends.
Qed.

Lemma ends_gradual_maintain (ts : Z) (i : cycle_in) :
  ends_in I E (GradualMode.maintain ts i).
Proof.
  pose proof ends_keep_on_going. pose proof ends_sefl_state_assign.
  pose proof ends_get_next_level.
  unfold GradualMode.maintain. run_ends.
Qed.

Lemma ends_run_step (k : mode) (i : cycle_in) : ends_in I E (run_step k i).
Proof.
  pose proof ends_heat_up. pose proof ends_constant_maintain.
  pose proof ends_gradual_maintain.
  destruct k; simpl;
    unfold IdleMode.run_step, ConstantMode.run_step, GradualMode.run_step,
      IdleMode.cycle, ConstantMode.cycle, GradualMode.cycle;
    run_ends.
Qed.

End RunEnds.

Lemma ends_run (I : Machine → Prop) (E : exn → Machine → Prop) (k : mode)
    (ins : list cycle_in) :
  (∀ i, ends_in I E (run_step k i)) → ends_in I E (run k ins).
Proof.
  intros Hstep. induction ins as [|i ins IH]; intros m H; simpl; [exact H|].
  specialize (Hstep i m H).
  destruct (run_step k i m) as [[|] m'|e m']; [now apply IH|exact Hstep|exact Hstep].
Qed.

(** ** The GPIO commands of a thread *)

Lemma step_commands (k : mode) (i : cycle_in) (g : Z) (G : list gpio_op) :
  ends_in
    (λ m, ∃ n, commands_since g G (repeat (GPIO_output g LOW) n) m)
    (λ e m, ∃ n,
       (e ≠ NameError "HEATER_OFF"
        ∧ commands_since g G (repeat (GPIO_output g LOW) n) m)
       ∨ (e = NameError "HEATER_OFF"
          ∧ commands_since g G
              (GPIO_output g HIGH :: repeat (GPIO_output g LOW) n) m))
    (run_step k i).
Proof.
  apply ends_run_step.
  - intros e m [n H] He. exists n. now left.
  - intros j m [n H]. now exists n.
  - intros ts j m [n H]. unfold _log_temperatures. destruct (db_up j).
    + now exists n.
    + exists n. left. split; [discriminate|exact H].
  - intros m [n [Hg Hw]]. rewrite heater_on_result. exists (S n).
    split; simpl; [exact Hg|]. now rewrite Hg, Hw.
  - intros m [n [Hg Hw]]. rewrite heater_off_result. exists n. right.
    split; [reflexivity|]. split; simpl; [exact Hg|]. now rewrite Hg, Hw.
  - intros x m [n H]. now exists n.
  - intros x m [n H]. now exists n.
  - intros x m [n H]. now exists n.
  - intros x m [n H]. now exists n.
  - intros j m [n H]. unfold reset_configuration. destruct (db_up j).
    + now exists n.
    + exists n. left. split; [discriminate|exact H].
  - intros j m [n H]. unfold IdleMode.delete_idle_logs. destruct (db_up j).
    + now exists n.
    + exists n. left. split; [discriminate|exact H].
Qed.

(** X12: a thread does not survive switching its heater off.  Over a whole
    run of a thread of any mode, from any state: as long as the thread
    lives, and when its [run] returns, every GPIO command it has given
    drove its own relay line LOW (heater on); and when it dies, either it
    had given only such commands, or its last command drove the line HIGH
    and the exception is the NameError of [_heater_off].  So the pulse of
    the maintain phase and the switch-off of the climb phase each end the
    thread. *)
Theorem thread_dies_switching_off (k : mode) (ins : list cycle_in) (m : Machine) :
  let on := GPIO_output (_gpio (self m)) LOW in
  let off := GPIO_output (_gpio (self m)) HIGH in
  match run k ins m with
  | Ok _ m' => ∃ n, gpio (world m') = (repeat on n ++ gpio (world m))%list
  | Raise e m' =>
      ∃ n, (e ≠ NameError "HEATER_OFF"
            ∧ gpio (world m') = (repeat on n ++ gpio (world m))%list)
           ∨ (e = NameError "HEATER_OFF"
              ∧ gpio (world m') = (off :: repeat on n ++ gpio (world m))%list)
  end.
Proof.
  cbv zeta.
  pose proof (ends_run _ _ k ins
                (λ i, step_commands k i (_gpio (self m)) (gpio (world m))) m) as H.
  simpl in H. specialize (H (ex_intro _ 0%nat (conj eq_refl eq_refl))).
  destruct (run k ins m) as [st m'|e m'].
  - destruct H as [n [_ H]]. now exists n.
  - destruct H as [n [[He [_ H]] | [He [_ H]]]]; exists n; [left|right]; now split.
Qed.

(** *** Over the whole process *)

Lemma Forall_repeat {A : Type} (P : A → Prop) (x : A) (n : nat) :
  P x → Forall P (repeat x n).
Proof. intros H. induction n; simpl; constructor; assumption. Qed.

Lemma step_own_line (k : mode) (i : cycle_in) (m : Machine) :
  ∃ ops, gpio (world (machine_of (run_step k i m))) = (ops ++ gpio (world m))%list
         ∧ Forall (λ op, ∃ l, op = GPIO_output (_gpio (self m)) l) ops.
Proof.
  pose proof (step_commands k i (_gpio (self m)) (gpio (world m)) m
                (ex_intro _ 0%nat (conj eq_refl eq_refl))) as H.
  destruct (run_step k i m) as [st m'|e m']; simpl.
  - destruct H as [n [_ H]]. eexists. split; [exact H|].
    apply Forall_repeat. eauto.
  - destruct H as [n [[_ [_ H]] | [_ [_ H]]]]; eexists; (split; [exact H|]).
    + apply Forall_repeat. eauto.
    + constructor; [eauto|]. apply Forall_repeat. eauto.
Qed.

Lemma load_settings_frame (e : init_in) (s s' : Thread) :
  load_settings e s = inr s' → _gpio s' = _gpio s ∧ _sensors s' = _sensors s.
Proof.
  unfold load_settings. destruct (init_fermentation e) as [row|].
  - destruct (f_levels row !! 0%nat) as [[tgt dur]|]; [|discriminate].
    destruct (config_overshoot e) as [[o| |]|], (config_cycle e) as [[c| |]|];
      simpl; intros H; try discriminate H; injection H as <-;
      destruct tgt, dur; split; reflexivity.
  - destruct (config_overshoot e) as [[o| |]|], (config_cycle e) as [[c| |]|];
      simpl; intros H; try discriminate H; injection H as <-; split; reflexivity.
Qed.

Lemma base_init_gpio (id port : Z) (e : init_in) (s : Thread) :
  FermentationThread_init id port e = inr s → _gpio s = port.
Proof.
  unfold FermentationThread_init. destruct (init_db_up e); [|discriminate].
  destruct (init_sensors _ _); [discriminate|].
  intros H. now injection H as <-.
Qed.

Lemma mode_init_gpio (id port : Z) (e : init_in) (s : Thread) :
  ConstantMode_init id port e = inr s ∨ GradualMode_init id port e = inr s →
  _gpio s = port.
Proof.
  unfold ConstantMode_init, GradualMode_init.
  destruct (FermentationThread_init id port e) as [|s1] eqn:H1;
    [intros [H | H]; discriminate H|].
  apply base_init_gpio in H1.
  intros [H | H]; apply load_settings_frame in H as [-> _]; exact H1.
Qed.

Lemma on_heater_line_event_set (t : nat) (p : Process) :
  Forall on_heater_line (threads p) → Forall on_heater_line (threads (event_set t p)).
Proof.
  intros Hs. unfold event_set. destruct (threads p !! t) as [o|] eqn:Ho; [|exact Hs].
  simpl. apply Forall_insert; [exact Hs|].
  rewrite Forall_lookup in Hs. exact (Hs t o Ho).
Qed.

Lemma threads_leave_try (e : exn) (p : Process) : threads (leave_try e p) = threads p.
Proof. now destruct e. Qed.

Lemma threads_sleep_cycle (config : gmap string Z) (p : Process) :
  threads (sleep_cycle config p) = threads p.
Proof.
  destruct (sleep_cycle_effect config p) as [-> | [-> | ->]]; reflexivity.
Qed.

Lemma on_heater_line_start (k : mode) (made : exn + Thread) (config : gmap string Z)
    (p : Process) :
  (∀ s, made = inr s → k ≠ Idle → _gpio s = HEATER_GPIO) →
  Forall on_heater_line (threads p) →
  Forall on_heater_line (threads (start_thread k made config p)).
Proof.
  intros Hmade Hs. unfold start_thread. destruct made as [e|s].
  - now rewrite threads_leave_try.
  - rewrite threads_sleep_cycle. unfold started. simpl.
    apply Forall_app. split; [exact Hs|].
    constructor; [|constructor]. intros Hk. now apply Hmade.
Qed.

Lemma on_heater_line_poll (i : poll_in) (p : Process) :
  Forall on_heater_line (threads p) → Forall on_heater_line (threads (poll i p)).
Proof.
  intros Hs. unfold poll.
  destruct (read_configuration i) as [e|config]; [now rewrite threads_leave_try|].
  destruct (config !! "state") as [state|]; [|now rewrite threads_leave_try].
  destruct (state =? FPI_STATE_OFF).
  { destruct (thread p) as [t|]; [|now rewrite threads_sleep_cycle].
    now apply (on_heater_line_event_set t p). }
  destruct (state =? FPI_STATE_ON); [|now rewrite threads_sleep_cycle].
  destruct (thread p); [now rewrite threads_sleep_cycle|].
  destruct (config !! "mode") as [m|]; [|now rewrite threads_leave_try].
  destruct (m =? FPI_MODE_IDLE).
  { apply on_heater_line_start; [|exact Hs]. intros s _ Hk. now destruct Hk. }
  destruct (m =? FPI_MODE_CONSTANT).
  { destruct (config !! "log") as [id|]; [|now rewrite threads_leave_try].
    apply on_heater_line_start; [|exact Hs].
    intros s Hmade _. apply (mode_init_gpio id HEATER_GPIO (ctor i)). now left. }
  destruct (m =? FPI_MODE_GRADUAL); [|now rewrite threads_sleep_cycle].
  destruct (config !! "log") as [id|]; [|now rewrite threads_leave_try].
  apply on_heater_line_start; [|exact Hs].
  intros s Hmade _. apply (mode_init_gpio id HEATER_GPIO (ctor i)). now right.
Qed.

Lemma on_heater_line_main_step (i : poll_in) (p : Process) :
  Forall on_heater_line (threads p) → Forall on_heater_line (threads (main_step i p)).
Proof.
  intros Hs. unfold main_step. destruct (pc p).
  - now apply on_heater_line_poll.
  - unfold join_loop. destruct (thread p) as [t|]; [|exact Hs].
    now destruct (thread_alive t p).
  - unfold on_exit_finish. destruct (thread p) as [t|]; [|exact Hs].
    now destruct (thread_alive t p).
  - exact Hs.
Qed.

Lemma main_step_hw (i : poll_in) (p : Process) :
  hw (main_step i p) = hw p
  ∨ hw (main_step i p) = gpio_do GPIO_cleanup (heater_off (hw p)).
Proof.
  destruct (main_step_effect i p)
    as [|e|t Ht|k s Hnew Hnone Hpc|k s e Hnew Hnone|Hpc Hdead|Hpc Hdead];
    simpl; rewrite ?hw_event_set; auto.
Qed.

Lemma heater_line_thread_step (t : nat) (i : cycle_in) (p : Process) :
  Forall on_heater_line (threads p) →
  Forall on_heater_line (threads (thread_step t i p))
  ∧ ∃ ops, gpio (hw (thread_step t i p)) = (ops ++ gpio (hw p))%list
           ∧ Forall heater_command ops.
Proof.
  intros Hs.
  assert (Hnone : ∃ ops, gpio (hw p) = (ops ++ gpio (hw p))%list
                         ∧ Forall heater_command ops).
  { exists []. split; [reflexivity|constructor]. }
  unfold thread_step.
  destruct (threads p !! t) as [o|] eqn:Ho; [|now split].
  destruct (is_alive o) eqn:Ha; [|now split].
  assert (Hline : on_heater_line o).
  { rewrite Forall_lookup in Hs. exact (Hs t o Ho). }
  assert (Hg : _gpio (self (machine_of (run_step (kind o) i (mkMachine (obj o) (hw p)))))
               = _gpio (obj o)).
  { apply (keeps_run_step (λ s, _gpio s = _gpio (obj o)));
      intros; simpl; try assumption. reflexivity. }
  assert (Hc : ∃ ops, gpio (world (machine_of (run_step (kind o) i
                                                 (mkMachine (obj o) (hw p)))))
                      = (ops ++ gpio (hw p))%list
                      ∧ Forall heater_command ops).
  { destruct (step_own_line (kind o) i (mkMachine (obj o) (hw p))) as [ops [H1 H2]].
    destruct (kind o) eqn:Hk.
    - exists []. split; [apply idle_step_leaves_gpio|constructor].
    - exists ops. split; [exact H1|].
      assert (Hp : _gpio (obj o) = HEATER_GPIO) by (apply Hline; congruence).
      eapply Forall_impl; [exact H2|]. intros op [l ->]. right. exists l.
      simpl. now rewrite Hp.
    - exists ops. split; [exact H1|].
      assert (Hp : _gpio (obj o) = HEATER_GPIO) by (apply Hline; congruence).
      eapply Forall_impl; [exact H2|]. intros op [l ->]. right. exists l.
      simpl. now rewrite Hp. }
  destruct (run_step (kind o) i _) as [[|] m'|e m']; simpl in *;
    (split; [|exact Hc]); (apply Forall_insert; [exact Hs|]);
    intros Hk; simpl in *; rewrite Hg; now apply Hline.
Qed.

Lemma heater_line_step (e : ev) (p : Process) :
  Forall on_heater_line (threads p) →
  Forall on_heater_line (threads (step e p))
  ∧ ∃ ops, gpio (hw (step e p)) = (ops ++ gpio (hw p))%list
           ∧ Forall heater_command ops.
Proof.
  intros Hs. destruct e as [i|t i|]; simpl.
  - split; [now apply on_heater_line_main_step|].
    destruct (main_step_hw i p) as [-> | ->].
    + exists []. split; [reflexivity|constructor].
    + exists [GPIO_cleanup; GPIO_output HEATER_GPIO HIGH]. split; [reflexivity|].
      constructor; [now left|]. constructor; [right; eauto|constructor].
  - now apply heater_line_thread_step.
  - assert (Hsame : ∃ ops, gpio (hw p) = (ops ++ gpio (hw p))%list
                           ∧ Forall heater_command ops).
    { exists []. split; [reflexivity|constructor]. }
    destruct (signal_cases p) as [-> | [-> | [t ->]]]; simpl;
      rewrite ?hw_event_set; (split; [|exact Hsame]); try exact Hs.
    now apply (on_heater_line_event_set t p).
Qed.

(** X13: the process commands the heater's line and no other.  In every
    state the process reaches from the start of [main], the GPIO history
    is [GPIO.setup(HEATER_GPIO)] and [heater_off()] of the start, followed
    by commands on line HEATER_GPIO and [GPIO.cleanup()] only: the
    regulating threads are constructed with HEATER_GPIO and keep it, and
    the idle thread, constructed with port 0, gives no command. *)
Theorem only_heater_line_is_commanded (es : list ev) :
  Forall on_heater_line (threads (exec es boot))
  ∧ ∃ ops, gpio (hw (exec es boot))
           = (ops ++ [GPIO_output HEATER_GPIO HIGH; GPIO_setup HEATER_GPIO])%list
           ∧ Forall heater_command ops.
Proof.
  assert (H : ∀ p, Forall on_heater_line (threads p) →
                   (∃ ops, gpio (hw p) = (ops ++ gpio (hw boot))%list
                           ∧ Forall heater_command ops) →
                   Forall on_heater_line (threads (exec es p))
                   ∧ ∃ ops, gpio (hw (exec es p)) = (ops ++ gpio (hw boot))%list
                            ∧ Forall heater_command ops).
  { induction es as [|e es IH]; intros p Hs Hops; [now split|].
    simpl. destruct (heater_line_step e p Hs) as [Hs' [ops' [Heq' Hall']]].
    destruct Hops as [ops [Heq Hall]].
    apply IH; [exact Hs'|]. exists (ops' ++ ops)%list. split.
    - rewrite Heq', Heq. apply app_assoc.
    - apply Forall_app. now split. }
  apply H; [constructor|]. exists []. split; [reflexivity|constructor].
Qed.

(** ** The sensors of a thread *)

Lemma ends_of_keeps {A : Type} (P : Thread → Prop) (c : M A) :
  keeps P c → ends_in (λ m, P (self m)) (λ _ m, P (self m)) c.
Proof. intros H m Hm. specialize (H m Hm). now destruct (c m). Qed.

Lemma ends_in_machine_of {A : Type} (I : Machine → Prop) (c : M A) (m : Machine) :
  ends_in I (λ _, I) c → I m → I (machine_of (c m)).
Proof. intros H Hm. specialize (H m Hm). now destruct (c m). Qed.

(** X14: the code reads every fourth sensor only.  Over a whole run of a
    thread of any mode, however it ends: [self._sensors] keeps its length,
    every entry keeps its sensor id and its database id, and an entry whose
    index is not a multiple of 4 is never written at all -- its two
    readings stay what they were ([range(0, len(self._sensors), 4)],
    lines 160-163). *)
Theorem only_every_fourth_sensor_is_read (k : mode) (ins : list cycle_in) (m : Machine) :
  let l := _sensors (self m) in
  let l' := _sensors (self (machine_of (run k ins m))) in
  length l' = length l
  ∧ ∀ (j : nat) (x : Sensor), l !! j = Some x →
      ∃ x', l' !! j = Some x' ∧ s_id x' = s_id x ∧ s_sid x' = s_sid x
            ∧ ((j mod 4)%nat ≠ 0%nat → x' = x).
Proof.
  cbv zeta.
  set (P := λ s : Thread,
         length (_sensors s) = length (_sensors (self m))
         ∧ ∀ (j : nat) (x : Sensor), _sensors (self m) !! j = Some x →
             ∃ x', _sensors s !! j = Some x' ∧ s_id x' = s_id x ∧ s_sid x' = s_sid x
                   ∧ ((j mod 4)%nat ≠ 0%nat → x' = x)).
  assert (Hread : ∀ i, ends_in (λ m, P (self m)) (λ _ m, P (self m))
                               (_read_temperatures i)).
  { intros i m0 [Hlen H]. unfold _read_temperatures, update_self, P.
    cbn [self set_sensors _sensors]. split.
    - now rewrite length_imap.
    - intros j x Hj. destruct (H j x Hj) as (x' & Hj' & Hid & Hsid & Hne).
      rewrite list_lookup_imap, Hj'. cbn [fmap option_fmap option_map].
      destruct (j mod 4 =? 0)%nat eqn:Hm.
      + eexists. split; [reflexivity|]. cbn [s_id s_sid].
        repeat split; try assumption.
        intros Hn. apply Nat.eqb_eq in Hm. contradiction.
      + exists x'. repeat split; assumption. }
  apply (ends_in_machine_of (λ m, P (self m))).
  - apply ends_run. intros i. apply ends_run_step; try (intros; assumption).
    + exact Hread.
    + intros ts j. apply ends_of_keeps, keeps_log_temperatures.
    + apply ends_of_keeps, keeps_heater_on. intros s Hs. exact Hs.
    + apply ends_of_keeps, keeps_heater_off.
    + intros j. apply ends_of_keeps, keeps_reset_configuration.
    + intros j. apply ends_of_keeps, keeps_delete_idle_logs.
  - split; [reflexivity|]. intros j x Hj. exists x. repeat split; assumption.
Qed.

(** *** What is logged *)

Lemma log_rows_four (id ts : Z) (x0 x1 x2 x3 : Sensor) (rest : list Sensor) :
  log_rows id ts (x0 :: x1 :: x2 :: x3 :: rest)
  = INSERT_logs id (s_sid x0) (percent_1_2f (s_cur x0)) ts :: log_rows id ts rest.
Proof.
  unfold log_rows. cbn [imap].
  change (omap (λ x, x) (Some (INSERT_logs id (s_sid x0) (percent_1_2f (s_cur x0)) ts)
                         :: None :: None :: None
                         :: imap ((λ (k : nat) (x : Sensor),
                                     if (k mod 4 =? 0)%nat
                                     then Some (INSERT_logs id (s_sid x) (percent_1_2f (s_cur x)) ts)
                                     else None) ∘ S ∘ S ∘ S ∘ S) rest)
          = INSERT_logs id (s_sid x0) (percent_1_2f (s_cur x0)) ts
            :: omap (λ x, x)
                 (imap (λ (k : nat) (x : Sensor),
                          if (k mod 4 =? 0)%nat
                          then Some (INSERT_logs id (s_sid x) (percent_1_2f (s_cur x)) ts)
                          else None) rest)).
  cbn [omap list_omap]. f_equal. f_equal. apply imap_ext. intros k x _.
  unfold compose. replace (S (S (S (S k)))) with (k + 1 * 4)%nat by lia.
  now rewrite Nat.Div0.mod_add.
Qed.

Lemma log_rows_lookup (id ts : Z) (l : list Sensor) (j : nat) :
  log_rows id ts l !! j
  = (λ x, INSERT_logs id (s_sid x) (percent_1_2f (s_cur x)) ts) <$> l !! (4 * j)%nat.
Proof.
  revert l. induction j as [|j IH]; intros l.
  - destruct l as [|x0 l]; reflexivity.
  - replace (4 * S j)%nat with (S (S (S (S (4 * j))))) by lia.
    destruct l as [|x0 [|x1 [|x2 [|x3 rest]]]]; try reflexivity.
    rewrite log_rows_four. cbn [lookup list_lookup]. apply IH.
Qed.

(** X15: what one cycle logs.  With the database reachable,
    [_read_temperatures] followed by [_log_temperatures] returns, gives no
    GPIO command, and adds to table [logs] one row per fourth sensor: the
    j-th INSERT issued carries the thread's fermentation id, the database
    id of sensor 4j, the reading just taken from that sensor as ["%1.2f"]
    renders it (two decimals, so 18.0625 is logged as 18.06), and the
    cycle's timestamp; no row is written for any other sensor. *)
Theorem every_fourth_sensor_is_logged (get : string → float) (ts : Z)
    (row : option Fermentation) (m : Machine) :
  let i := mkCycleIn get ts true row in
  ∃ (rows : list stmt) (m' : Machine),
    (_read_temperatures i;; _log_temperatures ts i) m = Ok tt m'
    ∧ gpio (world m') = gpio (world m)
    ∧ sql (world m') = (rev rows ++ sql (world m))%list
    ∧ ∀ j : nat,
        rows !! j
        = (λ x, INSERT_logs (_id (self m)) (s_sid x)
                  (percent_1_2f (get (s_id x))) ts)
            <$> _sensors (self m) !! (4 * j)%nat.
Proof.
  cbv zeta. eexists. eexists. split; [reflexivity|].
  split; [reflexivity|]. split; [reflexivity|].
  intros j. cbn [self set_sensors _sensors _id].
  rewrite log_rows_lookup, list_lookup_imap.
  destruct (_sensors (self m) !! (4 * j)%nat) as [x|]; [|reflexivity].
  cbn [fmap option_fmap option_map]. rewrite (Nat.mul_comm 4 j), Nat.Div0.mod_mul.
  reflexivity.
Qed.

(** The text of a logged temperature: 18.0625 is written as 18.06 and
    0.125 as 0.12 (ties go to the even digit), 19.6 as 19.60, and a small
    negative reading as -0.00. *)
Lemma logged_temperature_examples :
  percent_1_2f 18.0625 = Fixed false 1806
  ∧ percent_1_2f 0.125 = Fixed false 12
  ∧ percent_1_2f 19.6 = Fixed false 1960
  ∧ percent_1_2f (-0.001) = Fixed true 0
  ∧ log_rows 0 1000 [mkSensor Examples.probe 1 18.0625 0]
    = [INSERT_logs 0 1 (Fixed false 1806) 1000].
Proof. repeat split; vm_compute; reflexivity. Qed.

(** ** How a step of [run] ends *)

(** The epilogue of [run] in mode [k]. *)
Lemma run_step_unfold (k : mode) (i : cycle_in) (m : Machine) :
  run_step k i m
  = let leave : M status :=
      match k with
      | Idle => IdleMode.delete_idle_logs i
      | _ => reset_configuration i
      end;; mret Finished in
    if event (self m) then leave m
    else match cycle k i m with
         | Ok Next m' => Ok Running m'
         | Ok Break m' => leave m'
         | Raise e m' => Raise e m'
         end.
Proof.
  cbv zeta.
  destruct k; simpl;
    unfold IdleMode.run_step, ConstantMode.run_step, GradualMode.run_step;
    unfold mbind at 1; unfold M_bind at 1; unfold get_self at 1;
    (destruct (event (self m)); [reflexivity|]);
    unfold mbind at 1; unfold M_bind at 1.
  - now destruct (IdleMode.cycle i m) as [[|] m'|e m'].
  - now destruct (ConstantMode.cycle i m) as [[|] m'|e m'].
  - now destruct (GradualMode.cycle i m) as [[|] m'|e m'].
Qed.

Ltac frame_side :=
  unfold ends_in; intros; rewrite ?heater_on_result, ?heater_off_result;
  simpl; assumption.

Lemma sql_kept_by_phase (k : mode) (i : cycle_in) (S : list stmt) :
  ends_in (λ m, sql (world m) = S) (λ _ m, sql (world m) = S)
    (match k with
     | Idle => mret Next
     | Constant => ConstantMode.maintain (now i)
     | Gradual => GradualMode.maintain (now i) i
     end)
  ∧ ends_in (λ m, sql (world m) = S) (λ _ m, sql (world m) = S) (heat_up (now i)).
Proof.
  split; [destruct k; simpl|].
  - apply ends_in_ret.
  - apply ends_constant_maintain; frame_side.
  - apply ends_gradual_maintain; frame_side.
  - apply ends_heat_up; frame_side.
Qed.

Lemma cycle_sql (k : mode) (i : cycle_in) (m : Machine) :
  db_up i = true →
  sql (world (machine_of (cycle k i m))) = sql (world (read_and_logged i m)).
Proof.
  intros Hdb.
  destruct (sql_kept_by_phase k i (sql (world (read_and_logged i m)))) as [Hm Hh].
  assert (Hheat : sql (world (machine_of ((heat_up (now i);; mret Next)
                                            (read_and_logged i m))))
                  = sql (world (read_and_logged i m))).
  { rewrite machine_of_bind_pure by reflexivity.
    now apply (ends_in_machine_of (λ m, sql (world m) = _)). }
  destruct k; simpl.
  - unfold IdleMode.cycle, _read_temperatures, _log_temperatures.
    unfold_monad. simpl. now rewrite Hdb.
  - rewrite constant_cycle_unfold by assumption.
    rewrite machine_of_bind_pure by apply cycle_tail_pure.
    destruct (_timestamp (self m) =? 0); [exact Hheat|].
    now apply (ends_in_machine_of (λ m, sql (world m) = _)).
  - rewrite gradual_cycle_unfold by assumption.
    rewrite machine_of_bind_pure by apply cycle_tail_pure.
    destruct (_timestamp (self m) =? 0); [exact Hheat|].
    now apply (ends_in_machine_of (λ m, sql (world m) = _)).
Qed.

Lemma cycle_db_down_world (k : mode) (i : cycle_in) (m : Machine) :
  db_up i = false → ∃ m1, cycle k i m = Raise MdbError m1 ∧ world m1 = world m.
Proof.
  intros Hdb. destruct m as [s w].
  destruct k; simpl;
    unfold IdleMode.cycle, ConstantMode.cycle, GradualMode.cycle,
      _read_temperatures, _log_temperatures;
    unfold_monad; simpl; rewrite Hdb; eauto.
Qed.

(** X16: the SQL statements of one step of [run].  A step that leaves the
    thread running has added the log rows of its cycle and nothing else;
    the step in which [run] returns has added the epilogue on top --
    idle mode deletes its log rows, the other modes reset the
    configuration items mode and log -- after the log rows of a last
    cycle, or right away when the thread was cancelled; and a step that
    raises has added nothing, or the log rows of its cycle: a thread that
    dies never resets the configuration. *)
Theorem statements_of_a_step (k : mode) (i : cycle_in) (m : Machine) :
  let old := sql (world m) in
  let logged :=
    (rev (log_rows (_id (self m)) (now i)
            (_sensors (self (machine_of (_read_temperatures i m))))) ++ old)%list in
  match run_step k i m with
  | Ok Running m' => event (self m) = false ∧ sql (world m') = logged
  | Ok Finished m' =>
      sql (world m') = (epilogue k ++ if event (self m) then old else logged)%list
  | Raise e m' =>
      sql (world m') = old ∨ (event (self m) = false ∧ sql (world m') = logged)
  end.
Proof.
  cbv zeta. rewrite run_step_unfold. cbv zeta.
  assert (Hleave : ∀ m1 : Machine,
            match (match k with
                   | Idle => IdleMode.delete_idle_logs i
                   | _ => reset_configuration i
                   end;; mret Finished) m1 with
            | Ok st m' => st = Finished ∧ db_up i = true
                          ∧ sql (world m') = (epilogue k ++ sql (world m1))%list
            | Raise e m' => db_up i = false ∧ m' = m1
            end).
  { intros m1. destruct k; unfold IdleMode.delete_idle_logs, reset_configuration;
      unfold_monad; destruct (db_up i); simpl; auto. }
  set (leave := (_;; mret Finished)) in *.
  destruct (event (self m)) eqn:He.
  - specialize (Hleave m).
    destruct (leave m) as [st m'|e m'].
    + destruct Hleave as (-> & _ & ->). reflexivity.
    + destruct Hleave as (_ & ->). now left.
  - destruct (db_up i) eqn:Hdb.
    + pose proof (cycle_sql k i m Hdb) as Hc.
      change (sql (world (read_and_logged i m)))
        with (rev (log_rows (_id (self m)) (now i)
                     (_sensors (self (machine_of (_read_temperatures i m)))))
              ++ sql (world m))%list in Hc.
      destruct (cycle k i m) as [[|] m1|e m1]; simpl in Hc.
      * now split.
      * specialize (Hleave m1).
        destruct (leave m1) as [st m'|e m'].
        -- destruct Hleave as (-> & _ & ->). now rewrite Hc.
        -- destruct Hleave as (Hf & _). congruence.
      * right. now split.
    + destruct (cycle_db_down_world k i m Hdb) as (m1 & -> & Hw).
      left. now rewrite Hw.
Qed.

(** ** The level search *)

Lemma scan_levels_find (n idx : nat) (row : Fermentation) (s : Thread) (w : World) :
  _target s = 0%float → (n + idx = 5)%nat → (idx ≤ length (f_levels row))%nat →
  GradualMode.scan_levels n (2 + 2 * Z.of_nat idx) row (mkMachine s w)
  = match List.find level_accepted (take n (drop idx (f_levels row))) with
    | Some lv => Ok true (mkMachine (take_level lv s) w)
    | None =>
        if (length (f_levels row) <? 5)%nat then Raise IndexError (mkMachine s w)
        else Ok false (mkMachine s w)
    end.
Proof.
  intros Ht. revert idx. induction n as [|n IH]; intros idx Hn Hlen.
  - simpl. destruct (Nat.ltb_spec (length (f_levels row)) 5); [lia|reflexivity].
  - assert (Hnext : ∀ lv, f_levels row !! idx = Some lv →
              level_accepted lv = false →
              GradualMode.scan_levels n (2 + 2 * Z.of_nat idx + 2) row (mkMachine s w)
              = match List.find level_accepted
                        (take (S n) (drop idx (f_levels row))) with
                | Some lv => Ok true (mkMachine (take_level lv s) w)
                | None =>
                    if (length (f_levels row) <? 5)%nat
                    then Raise IndexError (mkMachine s w)
                    else Ok false (mkMachine s w)
                end).
    { intros lv Hl Hacc. rewrite (drop_S _ _ _ Hl). cbn [take firstn List.find].
      rewrite Hacc.
      replace (2 + 2 * Z.of_nat idx + 2) with (2 + 2 * Z.of_nat (S idx)) by lia.
      apply IH; [lia|]. apply lookup_lt_Some in Hl. lia. }
    cbn [GradualMode.scan_levels].
    destruct (Z.ltb_spec (2 + 2 * Z.of_nat idx) 11); [|lia].
    unfold level_columns.
    replace (2 + 2 * Z.of_nat idx - 2) with (Z.of_nat idx * 2) by lia.
    rewrite Z.div_mul by lia. rewrite Nat2Z.id.
    destruct (f_levels row !! idx) as [[tgt dur]|] eqn:Hl.
    + cbv [mbind M_bind get_self]. cbn [self].
      destruct tgt as [x|]; [|apply (Hnext _ eq_refl); reflexivity].
      rewrite Ht. destruct (0 <=? x)%float eqn:Hx;
        [|apply (Hnext _ eq_refl); exact Hx].
      rewrite (drop_S _ _ _ Hl). cbn [take firstn List.find].
      unfold level_accepted. cbn [fst]. rewrite Hx.
      destruct dur; reflexivity.
    + apply lookup_ge_None in Hl. rewrite drop_ge by exact Hl.
      rewrite take_nil. cbn [List.find].
      destruct (Nat.ltb_spec (length (f_levels row)) 5); [reflexivity|lia].
Qed.

(** X17: which level [_get_next_level] selects.  With the database
    reachable and the fermentation's row found, the method clears the
    working target, the duration and the attained-timestamp and then
    takes up the first of the row's five levels whose target is a number
    not below 0 -- whichever level the thread held; it returns False only
    if the row has no such level, and raises IndexError if there is none
    and the row has fewer than five levels. *)
Theorem next_level_is_first_accepted (get : string → float) (ts : Z)
    (row : Fermentation) (m : Machine) :
  let i := mkCycleIn get ts true (Some row) in
  let cleared := set_timestamp 0 (set_duration 0 (set_target 0 (self m))) in
  GradualMode._get_next_level i m
  = match List.find level_accepted (take 5 (f_levels row)) with
    | Some lv => Ok true (mkMachine (take_level lv cleared) (world m))
    | None =>
        if (length (f_levels row) <? 5)%nat
        then Raise IndexError (mkMachine cleared (world m))
        else Ok false (mkMachine cleared (world m))
    end.
Proof.
  cbv zeta. destruct m as [s w].
  pose proof (scan_levels_find 5 0 row
                (set_timestamp 0 (set_duration 0 (set_target 0 s))) w
                eq_refl eq_refl (Nat.le_0_l _)) as H.
  rewrite drop_0 in H. exact H.
Qed.

(** ** When [run] returns *)

Lemma constant_maintain_break (ts : Z) (m m' : Machine) :
  ConstantMode.maintain ts m = Ok Break m' →
  m' = m
  ∧ 0 < _duration (self m) ≤ (ts - _timestamp (self m)) / 60
  ∧ _heater (self m) ≠ HEATER_ON.
Proof.
  destruct m as [s w]. unfold ConstantMode.maintain.
  cbv [mbind M_bind get_self mret M_ret]. cbn [self].
  destruct (0 <? _duration s) eqn:Hd.
  - destruct (_duration s <=? (ts - _timestamp s) / 60) eqn:Hm.
    + destruct (_heater s =? HEATER_ON) eqn:Hh.
      * rewrite heater_off_result. discriminate.
      * intros H. injection H as <-.
        apply Z.ltb_lt in Hd. apply Z.leb_le in Hm. apply Z.eqb_neq in Hh.
        repeat split; assumption.
    + destruct (keep_on_going _); discriminate.
  - destruct (keep_on_going _); discriminate.
Qed.

Lemma gradual_maintain_break (ts : Z) (i : cycle_in) (m m' : Machine) :
  GradualMode.maintain ts i m = Ok Break m' →
  GradualMode._get_next_level i m = Ok false m'
  ∧ 0 < _duration (self m) ≤ (ts - _timestamp (self m)) / 60
  ∧ _heater (self m') ≠ HEATER_ON.
Proof.
  destruct m as [s w]. unfold GradualMode.maintain.
  cbv [mbind M_bind get_self mret M_ret]. cbn [self].
  destruct (0 <? _duration s) eqn:Hd.
  - destruct (_duration s <=? (ts - _timestamp s) / 60) eqn:Hm.
    + destruct (GradualMode._get_next_level i _) as [[|] m1|e m1].
      * destruct (keep_on_going _); discriminate.
      * destruct (_heater (self m1) =? HEATER_ON) eqn:Hh.
        -- rewrite heater_off_result. discriminate.
        -- intros H. injection H as <-.
           apply Z.ltb_lt in Hd. apply Z.leb_le in Hm. apply Z.eqb_neq in Hh.
           repeat split; assumption.
      * discriminate.
    + destruct (keep_on_going _); discriminate.
  - destruct (keep_on_going _); discriminate.
Qed.

Lemma heater_kept_by_get_next_level (i : cycle_in) (m : Machine) :
  let m' := machine_of (GradualMode._get_next_level i m) in
  _heater (self m') = _heater (self m) ∧ world m' = world m.
Proof.
  cbv zeta. split.
  - apply (keeps_get_next_level (λ s, _heater s = _heater (self m)));
      intros; simpl; try assumption. reflexivity.
  - apply (ends_in_machine_of (λ m0, world m0 = world m));
      [|reflexivity]. apply ends_get_next_level; frame_side.
Qed.

(** The phase of a cycle after reading and logging never leaves the loop
    in the climb phase. *)
Lemma climb_never_breaks (ts : Z) (m m' : Machine) :
  (heat_up ts;; mret Next) m ≠ Ok Break m'.
Proof.
  cbv [mbind M_bind mret M_ret]. destruct (heat_up ts m); discriminate.
Qed.

Lemma cycle_break (k : mode) (i : cycle_in) (m m1 : Machine) :
  cycle k i m = Ok Break m1 →
  k ≠ Idle
  ∧ _timestamp (self m) ≠ 0
  ∧ 0 < _duration (self m) ≤ (now i - _timestamp (self m)) / 60
  ∧ _heater (self m) ≠ HEATER_ON
  ∧ gpio (world m1) = gpio (world m)
  ∧ (k = Gradual →
     GradualMode._get_next_level i (read_and_logged i m) = Ok false m1).
Proof.
  intros H.
  destruct (db_up i) eqn:Hdb;
    [|destruct (cycle_db_down_world k i m Hdb) as (m2 & Hr & _); congruence].
  destruct (read_and_logged_frame i m)
    as (_ & _ & Hh & _ & Hd & _ & _ & Ht & Hg).
  assert (Htail : ∀ (c : M flow) m0,
            (fl ← c;
             match fl with
             | Break => mret Break
             | Next => s' ← get_self; event_wait (_cycle s');; mret Next
             end) m0 = Ok Break m1 → c m0 = Ok Break m1).
  { intros c m0. cbv [mbind M_bind mret M_ret get_self event_wait].
    destruct (c m0) as [[|] m2|e m2]; intros H0; first [discriminate H0|exact H0]. }
  destruct k; simpl in H.
  - exfalso. revert H. unfold IdleMode.cycle, _read_temperatures, _log_temperatures.
    unfold_monad. simpl. rewrite Hdb. discriminate.
  - rewrite constant_cycle_unfold in H by assumption. apply Htail in H.
    destruct (_timestamp (self m) =? 0) eqn:Hts;
      [now apply climb_never_breaks in H|].
    apply Z.eqb_neq in Hts.
    apply constant_maintain_break in H as (-> & Hdur & Hheat).
    rewrite Hd, Ht in Hdur. rewrite Hh in Hheat.
    repeat split; try assumption; try apply Hdur; discriminate.
  - rewrite gradual_cycle_unfold in H by assumption. apply Htail in H.
    destruct (_timestamp (self m) =? 0) eqn:Hts;
      [now apply climb_never_breaks in H|].
    apply Z.eqb_neq in Hts.
    apply gradual_maintain_break in H as (Hnext & Hdur & Hheat).
    rewrite Hd, Ht in Hdur.
    destruct (heater_kept_by_get_next_level i (read_and_logged i m)) as [Hh' Hw'].
    rewrite Hnext in Hh', Hw'. cbn [machine_of] in Hh', Hw'.
    rewrite Hh', Hh in Hheat.
    repeat split; try assumption; try apply Hdur; try discriminate.
    + now rewrite Hw'.
    + intros _. exact Hnext.
Qed.

Lemma step_finished (k : mode) (i : cycle_in) (m m' : Machine) :
  run_step k i m = Ok Finished m' →
  gpio (world m') = gpio (world m)
  ∧ (event (self m) = true
     ∨ (event (self m) = false ∧ ∃ m1, cycle k i m = Ok Break m1)).
Proof.
  rewrite run_step_unfold. cbv zeta.
  assert (Hleave : ∀ m1 : Machine,
            (match k with
             | Idle => IdleMode.delete_idle_logs i
             | _ => reset_configuration i
             end;; mret Finished) m1 = Ok Finished m' →
            gpio (world m') = gpio (world m1)).
  { intros m1. destruct k; unfold IdleMode.delete_idle_logs, reset_configuration;
      unfold_monad; destruct (db_up i); simpl; intros H;
      first [discriminate H | now injection H as <-]. }
  destruct (event (self m)) eqn:He.
  - intros H. split; [now apply Hleave|now left].
  - destruct (cycle k i m) as [[|] m1|e m1] eqn:Hc; try discriminate.
    intros H. apply Hleave in H.
    destruct (cycle_break k i m m1 Hc) as (_ & _ & _ & _ & Hg & _).
    split; [congruence|]. right. split; [reflexivity|]. now exists m1.
Qed.

(** X18: when [run] returns.  The step in which [run] returns gives no GPIO
    command, and it is taken only when the thread was cancelled, or, in
    constant and gradual mode, in the maintain phase with the duration
    limit reached and the stored heater state not ON -- in gradual mode
    only if in addition [_get_next_level] found no level.  So [run] never
    switches the heater off on its way out, and a thread whose stored
    heater state is ON at expiry does not return (it dies in
    [_heater_off]). *)
Theorem run_returns_only_when (k : mode) (i : cycle_in) (m : Machine) :
  match run_step k i m with
  | Ok Finished m' =>
      gpio (world m') = gpio (world m)
      ∧ (event (self m) = true
         ∨ (k ≠ Idle
            ∧ _timestamp (self m) ≠ 0
            ∧ 0 < _duration (self m) ≤ (now i - _timestamp (self m)) / 60
            ∧ _heater (self m) ≠ HEATER_ON
            ∧ (k = Gradual →
               ∃ m1, GradualMode._get_next_level i (read_and_logged i m)
                     = Ok false m1)))
  | Ok Running m' => event (self m) = false
  | Raise _ _ => True
  end.
Proof.
  destruct (run_step k i m) as [[|] m'|e m'] eqn:H; [| |exact I].
  - rewrite run_step_unfold in H. cbv zeta in H.
    destruct (event (self m)); [|reflexivity].
    revert H. destruct k; unfold IdleMode.delete_idle_logs, reset_configuration;
      unfold_monad; destruct (db_up i); discriminate.
  - destruct (step_finished k i m m' H) as [Hg [He | [He [m1 Hc]]]].
    + split; [exact Hg|now left].
    + split; [exact Hg|]. right.
      destruct (cycle_break k i m m1 Hc) as (Hk & Hts & Hd & Hh & _ & Hn).
      repeat split; try assumption; try apply Hd.
      intros Hgr. exists m1. now apply Hn.
Qed.

(** *** Runs that do not return *)

Lemma constant_step_keeps_duration (i : cycle_in) (d : Z) :
  keeps (λ s, event s = false ∧ _duration s = d) (run_step Constant i).
Proof.
  pose proof (keeps_constant_cycle (λ s, event s = false ∧ _duration s = d)
                ltac:(intros; assumption) ltac:(intros; assumption)
                ltac:(intros; assumption) ltac:(intros; assumption)
                ltac:(intros; assumption) i) as Hc.
  simpl. unfold ConstantMode.run_step. keeps_auto.
Qed.

(** X19: constant mode without a duration runs until it is stopped.  A
    constant-mode thread whose duration is 0 ("infinitely", line 119) or
    negative, and that nobody cancels, never returns from [run]: after any
    number of cycles it is still running, or it has died of an exception. *)
Theorem constant_without_duration_never_returns
    (ins : list cycle_in) (m m' : Machine) :
  event (self m) = false →
  _duration (self m) ≤ 0 →
  run Constant ins m ≠ Ok Finished m'.
Proof.
  revert m. induction ins as [|i ins IH]; intros m He Hd; cbn [run];
    [discriminate|].
  pose proof (constant_step_keeps_duration i (_duration (self m)) m
                (conj He eq_refl)) as Hk.
  destruct (run_step Constant i m) as [[|] m1|e m1] eqn:Hstep; simpl in Hk.
  - destruct Hk as [He1 Hd1]. apply IH; [exact He1|]. now rewrite Hd1.
  - destruct (step_finished Constant i m m1 Hstep) as [_ [Hev | [_ [m2 Hc]]]];
      [congruence|].
    destruct (cycle_break Constant i m m2 Hc) as (_ & _ & Hdur & _). lia.
  - discriminate.
Qed.

Lemma constant_without_duration_never_returns_witness :
  run Constant Examples.dough_readings Examples.dough_start
  ≠ Ok Finished Examples.dough_start.
Proof.
  apply (constant_without_duration_never_returns
           Examples.dough_readings Examples.dough_start Examples.dough_start).
  - reflexivity.
  - vm_compute. discriminate.
Defined.

Lemma event_clear_kept (k : mode) (i : cycle_in) :
  keeps (λ s, event s = false) (run_step k i).
Proof. apply keeps_run_step; intros; assumption. Qed.

(** X20: the gradual programme never completes.  A gradual-mode thread
    that nobody cancels never returns from [run] as long as the first
    level of its fermentation row has a target that is a number not below
    0: at every expiry [_get_next_level] finds that level again, so the
    loop is never left by [break]; after any number of cycles the thread
    is still running, or it has died of an exception. *)
Theorem gradual_with_first_level_never_returns
    (ins : list cycle_in) (m m' : Machine) :
  event (self m) = false →
  Forall (λ i, ∃ row lv rest,
            fetch_fermentation i = Some row
            ∧ f_levels row = lv :: rest
            ∧ level_accepted lv = true) ins →
  run Gradual ins m ≠ Ok Finished m'.
Proof.
  intros He Hins. revert m He.
  induction Hins as [|i ins (row & [tgt dur] & rest & Hrow & Hlv & Hacc) _ IH];
    intros m He; cbn [run]; [discriminate|].
  pose proof (event_clear_kept Gradual i m He) as Hk.
  destruct (run_step Gradual i m) as [[|] m1|e m1] eqn:Hstep; simpl in Hk.
  - now apply IH.
  - destruct (step_finished Gradual i m m1 Hstep) as [_ [Hev | [_ [m2 Hc]]]];
      [congruence|].
    destruct (cycle_break Gradual i m m2 Hc) as (_ & _ & _ & _ & _ & Hn).
    specialize (Hn eq_refl).
    assert (Hdb : db_up i = true).
    { destruct (db_up i) eqn:Hdb; [reflexivity|].
      destruct (cycle_db_down_world Gradual i m Hdb) as (m3 & Hr & _). congruence. }
    unfold level_accepted in Hacc. cbn [fst] in Hacc.
    destruct tgt as [x|]; [|discriminate Hacc].
    destruct (next_level_is_first_level i (read_and_logged i m) row x dur rest
                Hdb Hrow Hlv Hacc) as (m3 & Hm3 & _).
    congruence.
  - discriminate.
Qed.

Lemma gradual_with_first_level_never_returns_witness :
  run Gradual
    [Examples.reading 50.1 1000 (Some Examples.mash);
     Examples.reading 50.2 1600 (Some Examples.mash)]
    (Examples.fresh (GradualMode_init 9 HEATER_GPIO (Examples.settings Examples.mash)))
  ≠ Ok Finished Examples.holding_first_level.
Proof.
  apply gradual_with_first_level_never_returns.
  - reflexivity.
  - constructor; [|constructor; [|constructor]];
      exists Examples.mash; eexists; eexists;
      (split; [reflexivity|]); split; reflexivity.
Defined.

(** ** The constructors *)

Lemma init_sensors_outcome (avail : list (string * option Z)) (acc : list Sensor) :
  match init_sensors avail acc with
  | inr l =>
      ∃ new, l = (acc ++ new)%list
             ∧ avail = map (λ x, (s_id x, Some (s_sid x))) new
             ∧ Forall (λ x, s_cur x = 0%float ∧ s_prev x = 0%float) new
  | inl e => e = TypeError ∧ ∃ name, (name, None) ∈ avail
  end.
Proof.
  revert acc. induction avail as [|[name [sid|]] avail IH]; intros acc; simpl.
  - exists []. split; [now rewrite app_nil_r|]. split; [reflexivity|constructor].
  - specialize (IH (acc ++ [mkSensor name sid 0 0])%list).
    destruct (init_sensors avail _) as [e|l].
    + destruct IH as [-> [n Hn]]. split; [reflexivity|]. exists n.
      now apply list_elem_of_further.
    + destruct IH as (new & -> & -> & Hall).
      exists (mkSensor name sid 0 0 :: new). split; [now rewrite <- app_assoc|].
      split; [reflexivity|]. constructor; [now split|exact Hall].
  - split; [reflexivity|]. exists name. apply list_elem_of_here.
Qed.

Lemma load_settings_error (e : init_in) (s : Thread) (x : exn) :
  load_settings e s = inl x →
  (x = IndexError ∧ ∃ row, init_fermentation e = Some row ∧ f_levels row = [])
  ∨ (x = ValueError
     ∧ (config_overshoot e = Some Malformed ∨ config_cycle e = Some Malformed))
  ∨ (x = TypeError
     ∧ (config_overshoot e = Some Null ∨ config_cycle e = Some Null)).
Proof.
  unfold load_settings.
  destruct (init_fermentation e) as [row|];
    [destruct (f_levels row !! 0%nat) as [[tgt dur]|] eqn:H0|];
    destruct (config_overshoot e) as [[o| |]|], (config_cycle e) as [[c| |]|];
    simpl; intros H; try discriminate H; injection H as <-;
    first [ right; left; split; [reflexivity|]; auto; fail
          | right; right; split; [reflexivity|]; auto; fail
          | left; split; [reflexivity|]; exists row; split; [reflexivity|];
            now destruct (f_levels row) ].
Qed.

(** X21: what the constructors return.  [FermentationThread.__init__]
    raises [mdb.Error] when the database is unreachable and TypeError when
    a sensor on the bus has no row in table [sensors] ([fetchone()[0]] on
    None, line 139), so a new sensor is never registered; otherwise the
    thread object has the port and the id it was given, a clear event,
    heater state OFF, state 0, attained-timestamp 0, and one entry per
    sensor on the bus, in order, with both readings 0.0.  The constructors
    of constant and gradual mode fail where the base constructor fails,
    with IndexError on a fermentation row without level columns, and with
    the ValueError or TypeError of [float] or [int] on a value of config
    item overshoot or cycle that does not convert; they change neither
    the port nor the sensors, and the two agree. *)
Theorem constructor_outcome (id port : Z) (e : init_in) :
  IdleMode_init id port e = FermentationThread_init id port e
  ∧ GradualMode_init id port e = ConstantMode_init id port e
  ∧ match FermentationThread_init id port e with
    | inr s =>
        init_db_up e = true
        ∧ available_sensors e = map (λ x, (s_id x, Some (s_sid x))) (_sensors s)
        ∧ Forall (λ x, s_cur x = 0%float ∧ s_prev x = 0%float) (_sensors s)
        ∧ _gpio s = port ∧ _id s = id ∧ constructed s
        ∧ match ConstantMode_init id port e with
          | inr s' => _gpio s' = port ∧ _sensors s' = _sensors s ∧ constructed s'
          | inl x =>
              (x = IndexError
               ∧ ∃ row, init_fermentation e = Some row ∧ f_levels row = [])
              ∨ (x = ValueError
                 ∧ (config_overshoot e = Some Malformed
                    ∨ config_cycle e = Some Malformed))
              ∨ (x = TypeError
                 ∧ (config_overshoot e = Some Null ∨ config_cycle e = Some Null))
          end
    | inl x =>
        ConstantMode_init id port e = inl x
        ∧ ((x = MdbError ∧ init_db_up e = false)
           ∨ (x = TypeError ∧ init_db_up e = true
              ∧ ∃ name, (name, None) ∈ available_sensors e))
    end.
Proof.
  split; [reflexivity|]. split; [reflexivity|].
  unfold ConstantMode_init.
  destruct (FermentationThread_init id port e) as [x|s] eqn:Hbase.
  - split; [reflexivity|]. revert Hbase. unfold FermentationThread_init.
    destruct (init_db_up e); [|intros H; injection H as <-; now left].
    pose proof (init_sensors_outcome (available_sensors e) []) as Hs.
    destruct (init_sensors _ _) as [y|l]; [|discriminate].
    intros H. injection H as <-. destruct Hs as [-> Hn]. right. auto.
  - pose proof (base_init_constructed id port e s Hbase) as Hc.
    pose proof (base_init_gpio id port e s Hbase) as Hg.
    assert (Hrest : init_db_up e = true
                    ∧ available_sensors e
                      = map (λ x, (s_id x, Some (s_sid x))) (_sensors s)
                    ∧ Forall (λ x, s_cur x = 0%float ∧ s_prev x = 0%float) (_sensors s)
                    ∧ _id s = id).
    { revert Hbase. unfold FermentationThread_init.
      destruct (init_db_up e); [|discriminate].
      pose proof (init_sensors_outcome (available_sensors e) []) as Hs.
      destruct (init_sensors _ _) as [y|l]; [discriminate|].
      intros H. injection H as <-. destruct Hs as (new & -> & -> & Hall).
      repeat split. exact Hall. }
    destruct Hrest as (Hdb & Hav & Hall & Hid).
    repeat split; try assumption; try apply Hc.
    destruct (load_settings e s) as [x|s'] eqn:Hl.
    + now apply (load_settings_error e s).
    + destruct (load_settings_frame e s s' Hl) as [Hg' Hs'].
      split; [congruence|]. split; [exact Hs'|].
      now apply (load_settings_constructed e s).
Qed.

(** ** A worked shutdown *)

(** A signal arrives while the dough thread heats.  The handler sets the
    thread's event and waits; the thread leaves its loop without a GPIO
    command and resets the configuration; then the handler drives the
    line HIGH, cleans up and exits with code 0. *)
Lemma interrupted_run_exits :
  let p := exec Examples.interrupted_while_heating boot in
  pc p = Stopped (SystemExit 0)
  ∧ thread p = None
  ∧ running p = 0%nat
  ∧ gpio (hw p)
    = [GPIO_cleanup; GPIO_output HEATER_GPIO HIGH; GPIO_output HEATER_GPIO LOW;
       GPIO_output HEATER_GPIO HIGH; GPIO_setup HEATER_GPIO]
  ∧ firstn 2 (sql (hw p)) = [UPDATE_config_log_0; UPDATE_config_mode_0].
Proof. cbv zeta. repeat split; vm_compute; reflexivity. Qed.
